(** * Verification of the news scheduler

    A shallow embedding of [internal/bot/scheduler/scheduler.go] together with
    the sent-article repository of [internal/bot/database/database.go].

    The scheduler is stateful Go code talking to four suppliers (the storage
    repositories, the news fetcher, the Telegram API and the wall clock).
    The embedding threads an explicit [World] through every operation and
    takes the suppliers' answers from an [Env] of oracles indexed by the
    number of supplier calls made so far, so that every run is a plain
    executable function.  Log statements have no effect on the state and are
    left out. *)

From Stdlib Require Import ZArith List Bool Lia.
From stdpp Require Import base strings pretty gmap fin_maps list sorting.
Import ListNotations.

Local Open Scope Z_scope.

(** ** Go machine integers and [time] *)

Module GoInt.

Definition minInt64 : Z := - 2 ^ 63.
Definition maxInt64 : Z := 2 ^ 63 - 1.

(** Two's-complement reading of the low 64 bits: the result of a Go
    conversion to [int]/[int64] and of [int64] arithmetic. *)
Definition wrap64 (z : Z) : Z := (z + 2 ^ 63) mod 2 ^ 64 - 2 ^ 63.

(** [int(x)] for [x : uint] on a 64-bit target. *)
Definition int_of_uint (n : N) : Z := wrap64 (Z.of_N n).

End GoInt.

Module GoTime.
Import GoInt.

(** A [time.Time] instant, in nanoseconds on an unbounded axis. *)
Definition Time := Z.
(** A [time.Duration]: an [int64] count of nanoseconds. *)
Definition Duration := Z.

Definition Nanosecond : Duration := 1.
Definition Second : Duration := 1000000000.
Definition Minute : Duration := 60 * Second.
Definition Hour : Duration := 60 * Minute.

(** [Duration] multiplication is [int64] multiplication. *)
Definition dmul (a b : Duration) : Duration := wrap64 (a * b).

(** [t.Sub(u)]: the difference, saturated to the [Duration] range. *)
Definition Sub (t u : Time) : Duration :=
  Z.max minInt64 (Z.min maxInt64 (t - u)).

End GoTime.

Import GoInt GoTime.

(** ** Data model *)

(** [fetcher.Source] and [fetcher.Article]. *)
Record Source := { SourceName : string; SourceURL : string }.

Record Article := {
  Title : string;
  Description : string;
  Content : string;
  URL : string;
  Image : string;
  PublishedAt : Time;
  ArticleSource : Source
}.

(** [database.User], with the columns the scheduler reads. *)
Record User := {
  ID : N;
  TelegramID : Z;
  NotificationIntervalMinutes : N;
  LastNotifiedAt : option Time;
  NewsLimit : N
}.

(** A live row of the [sent_articles] table. *)
Record SentArticle := {
  UserID : N;
  ArticleHash : string;
  SentAt : Time
}.

(** Go's [error]: [ErrNil] is [nil]. *)
Inductive error : Type :=
| ErrNil
| Err (msg : string).

(** One message handed to [bot.Send]: destination chat, the user it is for,
    the article, whether the keyboard offers removal from the favourites,
    and whether the transport accepted it. *)
Record Delivery := {
  dChat : Z;
  dUser : N;
  dArticle : Article;
  dFavorite : bool;
  dAccepted : bool
}.

(** Supplier calls, in the order they are issued. *)
Inductive Event : Type :=
| EvLedgerRead (u : N) (hash : string)
| EvLedgerWrite (u : N) (hash : string)
| EvLedgerReset (u : N)
| EvSubscriptions (u : N)
| EvFetch (topic : string)
| EvIsFavorite (u : N) (url : string)
| EvSend (chat : Z) (url : string)
| EvUpdateLastNotified (u : N) (t : Time).

(** The state the scheduler acts on: the ledger table, the scheduler's
    [sentArticles] map, the user table (keyed by primary key), the
    messages handed to the transport and the log of supplier calls. *)
Record World := {
  ledger : list SentArticle;
  sentArticles : gmap string (gmap string bool);
  users : gmap N User;
  sink : list Delivery;
  trace : list Event
}.

(** What the suppliers answer to the call issued at position [n] of the
    trace.  [None] stands for a returned error. *)
Record Env := {
  clock : nat -> Time;
  ledgerFails : nat -> bool;
  subscriptionsOf : nat -> N -> option (list string);
  fetchNews : nat -> string -> option (list Article);
  favoriteOf : nat -> N -> string -> option bool;
  sendFails : nat -> bool;
  userRepoFails : nat -> bool
}.

Definition emptyWorld : World :=
  {| ledger := []; sentArticles := ∅; users := ∅; sink := []; trace := [] |}.

(** ** A state monad over [World] *)

Definition M (A : Type) : Type := World -> A * World.

#[global] Instance M_ret : MRet M := fun A (a : A) w => (a, w).
#[global] Instance M_bind : MBind M :=
  fun A B (k : A -> M B) (m : M A) w => let (a, w') := m w in k a w'.

(** A primitive action given by its effect on the world. *)
Definition act {A} (f : World -> A * World) : M A := f.

(** The position of the next supplier call. *)
Definition tick (w : World) : nat := length (trace w).

Definition emit (e : Event) (w : World) : World :=
  {| ledger := ledger w; sentArticles := sentArticles w;
     users := users w; sink := sink w;
     trace := trace w ++ [e] |}.

Definition setLedger (l : list SentArticle) (w : World) : World :=
  {| ledger := l; sentArticles := sentArticles w;
     users := users w; sink := sink w; trace := trace w |}.

Definition setCache (c : gmap string (gmap string bool)) (w : World) : World :=
  {| ledger := ledger w; sentArticles := c;
     users := users w; sink := sink w; trace := trace w |}.

Definition setUsers (m : gmap N User) (w : World) : World :=
  {| ledger := ledger w; sentArticles := sentArticles w;
     users := m; sink := sink w; trace := trace w |}.

Definition pushSink (d : Delivery) (w : World) : World :=
  {| ledger := ledger w; sentArticles := sentArticles w;
     users := users w; sink := sink w ++ [d]; trace := trace w |}.

(** ** The sent-article repository (database.go) *)

Module Repo.
Section Repo.
Variable env : Env.

(** [WHERE user_id = ? AND article_hash = ?] *)
Definition rowMatches (userID : N) (articleHash : string) (r : SentArticle) : Prop :=
    UserID r = userID /\ ArticleHash r = articleHash.

#[global] Instance rowMatches_dec userID articleHash r :
  Decision (rowMatches userID articleHash r) :=
  decide (UserID r = userID /\ ArticleHash r = articleHash).

(** [IsArticleSent]: [count > 0] over the rows of the pair. *)
Definition IsArticleSent (userID : N) (articleHash : string) : M (bool * error) :=
  fun w =>
    let n := tick w in
    let w1 := emit (EvLedgerRead userID articleHash) w in
    if ledgerFails env n
    then ((false, Err "failed to check if article was sent"), w1)
    else ((Z.of_nat (length (filter (rowMatches userID articleHash) (ledger w))) >? 0,
           ErrNil), w1).

(** [MarkArticleAsSent]: a plain [Create] with [SentAt: time.Now()]; the
    table has no unique constraint on the pair, so a second row is simply
    added. *)
Definition MarkArticleAsSent (userID : N) (articleHash : string) : M error :=
  fun w =>
    let n := tick w in
    let w1 := emit (EvLedgerWrite userID articleHash) w in
    if ledgerFails env n
    then (Err "create failed", w1)
    else (ErrNil,
          setLedger (ledger w ++ [{| UserID := userID; ArticleHash := articleHash;
                                     SentAt := clock env n |}]) w1).

(** [ResetSentArticlesHistory]: delete every row of the user. *)
Definition ResetSentArticlesHistory (userID : N) : M error :=
  fun w =>
    let n := tick w in
    let w1 := emit (EvLedgerReset userID) w in
    if ledgerFails env n
    then (Err "failed to reset sent articles history", w1)
    else (ErrNil,
          setLedger (filter (fun r => UserID r ≠ userID) (ledger w)) w1).

End Repo.
End Repo.

(** ** The scheduler (scheduler.go) *)

Module Scheduler.
Section Scheduler.
Variable env : Env.

(** [fmt.Sprintf("%d:%s", userID, articleHash)] *)
Definition topicKeyOf (userID : N) (articleHash : string) : string :=
  pretty userID +:+ ":" +:+ articleHash.

(** [fmt.Sprintf("%d", userID)] *)
Definition userKeyOf (userID : N) : string := pretty userID.

Definition maxCacheSize : Z := 100.

(** [s.sentArticles[topicKey][articleURL]]: a missing key reads as [false]. *)
Definition cacheFlag (c : gmap string (gmap string bool)) (topicKey articleURL : string) : bool :=
  match c !! topicKey with
  | None => false
  | Some inner => default false (inner !! articleURL)
  end.

Definition isArticleSent (userID : N) (articleURL : string) : M bool :=
  let articleHash := articleURL in
  '(sent, err) ← Repo.IsArticleSent env userID articleHash;
  match err with
  | Err _ =>
      act (fun w =>
        let topicKey := topicKeyOf userID articleHash in
        match sentArticles w !! topicKey with
        | None => (false, w)
        | Some _ => (cacheFlag (sentArticles w) topicKey articleURL, w)
        end)
  | ErrNil => mret sent
  end.

Definition IsArticleSent (userID : N) (articleURL : string) : M (bool * error) :=
  sent ← isArticleSent userID articleURL;
  mret (sent, ErrNil).

(** The fallback branch of [markArticleAsSent], on the map alone. *)
Definition recordInCache (userID : N) (articleURL : string)
    (c : gmap string (gmap string bool)) : gmap string (gmap string bool) :=
  let articleHash := articleURL in
  let topicKey := topicKeyOf userID articleHash in
  let c1 := match c !! topicKey with
            | None => <[topicKey := ∅]> c
            | Some _ => c
            end in
  let c2 := if Z.of_nat (size (default ∅ (c1 !! topicKey))) >=? maxCacheSize
            then <[topicKey := ∅]> c1
            else c1 in
  <[topicKey := <[articleURL := true]> (default ∅ (c2 !! topicKey))]> c2.

Definition markArticleAsSent (userID : N) (articleURL : string) : M unit :=
  let articleHash := articleURL in
  err ← Repo.MarkArticleAsSent env userID articleHash;
  match err with
  | Err _ => act (fun w => (tt, setCache (recordInCache userID articleURL (sentArticles w)) w))
  | ErrNil => mret tt
  end.

Definition MarkArticleAsSent (userID : N) (articleURL : string) : M error :=
  err ← Repo.MarkArticleAsSent env userID articleURL;
  match err with
  | Err msg => mret (Err msg)
  | ErrNil => markArticleAsSent userID articleURL;; mret ErrNil
  end.

Definition ResetSentArticlesHistory (userID : N) : M error :=
  err ← Repo.ResetSentArticlesHistory env userID;
  match err with
  | Err msg => mret (Err msg)
  | ErrNil =>
      act (fun w =>
        let userIDStr := userKeyOf userID in
        (ErrNil, setCache (<[userIDStr := ∅]> (sentArticles w)) w))
  end.

(** [s.subRepo.GetUserSubscriptions] *)
Definition GetUserSubscriptions (userID : N) : M (option (list string)) :=
  fun w => (subscriptionsOf env (tick w) userID, emit (EvSubscriptions userID) w).

(** [s.fetcher.FetchNews] *)
Definition FetchNews (topic : string) : M (option (list Article)) :=
  fun w => (fetchNews env (tick w) topic, emit (EvFetch topic) w).

(** [s.favoriteArticleRepo.IsFavoriteArticle]: [(false, err)] on failure. *)
Definition IsFavoriteArticle (userID : N) (articleURL : string) : M (bool * error) :=
  fun w =>
    (match favoriteOf env (tick w) userID articleURL with
     | Some b => (b, ErrNil)
     | None => (false, Err "failed to check if article is in favorites")
     end, emit (EvIsFavorite userID articleURL) w).

(** [s.userRepo.UpdateUserLastNotifiedAt]: an [UPDATE ... WHERE id = ?]. *)
Definition UpdateUserLastNotifiedAt (userID : N) (notifyTime : Time) : M error :=
  fun w =>
    let w1 := emit (EvUpdateLastNotified userID notifyTime) w in
    if userRepoFails env (tick w)
    then (Err "update failed", w1)
    else (ErrNil,
          setUsers (alter (fun u => {| ID := ID u; TelegramID := TelegramID u;
                                       NotificationIntervalMinutes := NotificationIntervalMinutes u;
                                       LastNotifiedAt := Some notifyTime;
                                       NewsLimit := NewsLimit u |}) userID (users w)) w1).

(** [s.bot.Send] of the formatted message with its keyboard.  The text is
    a function of the article alone ([formatArticleMessage], [SanitizeText])
    and the keyboard of [isFavorite] and the URL; the message is recorded by
    these inputs. *)
Definition botSend (chatID : Z) (userID : N) (article : Article) (isFavorite : bool) : M error :=
  fun w =>
    let failed := sendFails env (tick w) in
    let w1 := emit (EvSend chatID (URL article)) w in
    (if failed then Err "send failed" else ErrNil,
     pushSink {| dChat := chatID; dUser := userID; dArticle := article;
                 dFavorite := isFavorite; dAccepted := negb failed |} w1).

Definition sendArticleWithFavoriteButton (chatID : Z) (userID : N) (article : Article) : M error :=
  '(isFavorite, _) ← IsFavoriteArticle userID (URL article);
  botSend chatID userID article isFavorite.

(** [time.Duration(user.NotificationIntervalMinutes) * time.Minute] *)
Definition intervalOf (user : User) : Duration :=
  dmul (int_of_uint (NotificationIntervalMinutes user)) Minute.

(** [time.Hour * 24 * 183] *)
Definition newsFilterThreshold : Duration := Hour * 24 * 183.

Definition withinHorizon (now : Time) (article : Article) : bool :=
  bool_decide (Sub now (PublishedAt article) < newsFilterThreshold).

(** The timing gate of [ProcessUser]. *)
Definition notDueYet (now : Time) (user : User) (force : bool) : bool :=
  negb force &&
  match LastNotifiedAt user with
  | Some last => bool_decide (Sub now last < intervalOf user)
  | None => false
  end.

(** The inner loop over the articles of one topic. *)
Fixpoint articlesLoop (now : Time) (userID : N) (articles : list Article)
    (allFreshArticles : list Article) : M (list Article) :=
  match articles with
  | [] => mret allFreshArticles
  | article :: rest =>
      if withinHorizon now article then
        sent ← isArticleSent userID (URL article);
        if negb sent then
          markArticleAsSent userID (URL article);;
          articlesLoop now userID rest (allFreshArticles ++ [article])
        else articlesLoop now userID rest allFreshArticles
      else articlesLoop now userID rest allFreshArticles
  end.

(** The outer loop over the subscribed topics. *)
Fixpoint topicsLoop (now : Time) (userID : N) (topics : list string)
    (allFreshArticles : list Article) : M (list Article) :=
  match topics with
  | [] => mret allFreshArticles
  | topic :: rest =>
      r ← FetchNews topic;
      match r with
      | None => topicsLoop now userID rest allFreshArticles
      | Some articles =>
          fresh ← articlesLoop now userID articles allFreshArticles;
          topicsLoop now userID rest fresh
      end
  end.

(** The user's limit, with the default for a non-positive value. *)
Definition newsLimitOf (user : User) : Z :=
  let newsLimit := int_of_uint (NewsLimit user) in
  if newsLimit <=? 0 then 5 else newsLimit.

Definition articlesToSendOf (user : User) (allFreshArticles : list Article) : list Article :=
  if Z.of_nat (length allFreshArticles) >? newsLimitOf user
  then take (Z.to_nat (newsLimitOf user)) allFreshArticles
  else allFreshArticles.

Fixpoint sendLoop (user : User) (articlesToSend : list Article) : M unit :=
  match articlesToSend with
  | [] => mret tt
  | article :: rest =>
      sendArticleWithFavoriteButton (TelegramID user) (ID user) article;;
      sendLoop user rest
  end.

(** [ProcessUser]; [now] is the instant [time.Now()] returns on entry. *)
Definition ProcessUser (now : Time) (user : User) (force : bool) : M Z :=
  if notDueYet now user force then mret 0
  else
    topics ← GetUserSubscriptions (ID user);
    match topics with
    | None => mret 0
    | Some [] => mret 0
    | Some topics =>
        allFreshArticles ← topicsLoop now (ID user) topics [];
        if Z.of_nat (length allFreshArticles) =? 0 then
          UpdateUserLastNotifiedAt (ID user) now;;
          mret 0
        else
          sendLoop user (articlesToSendOf user allFreshArticles);;
          UpdateUserLastNotifiedAt (ID user) now;;
          mret (Z.of_nat (length allFreshArticles))
    end.

End Scheduler.
End Scheduler.

(** ** Start and Stop

    The only state [Start] and [Stop] touch is the [stop] channel and the
    goroutine running the ticker loop.  A channel of [struct{}] that is never
    sent on is either open (a receive blocks) or closed (a receive is always
    ready); closing a closed channel is a run-time panic. *)

Module Lifecycle.

Inductive chan : Type := ChanOpen | ChanClosed.

Inductive outcome (A : Type) : Type :=
| Returned (a : A)
| Panicked (msg : string).
Arguments Returned {A} a.
Arguments Panicked {A} msg.

(** The built-in [close]. *)
Definition close (c : chan) : outcome chan :=
  match c with
  | ChanOpen => Returned ChanClosed
  | ChanClosed => Panicked "close of closed channel"
  end.

(** [stop] is the scheduler's channel; [loops] counts the goroutines that are
    still inside the [for { select ... }] of [Start], each with a running
    ticker. *)
Record State := { stop : chan; loops : nat }.

Definition NewScheduler : State := {| stop := ChanOpen; loops := 0 |}.

Definition Start (s : State) : State :=
  {| stop := stop s; loops := S (loops s) |}.

Definition Stop (s : State) : outcome State :=
  match close (stop s) with
  | Returned c => Returned {| stop := c; loops := loops s |}
  | Panicked msg => Panicked msg
  end.

(** The two cases of the [select]. *)
Inductive selectCase : Type := CaseTick | CaseStop.

(** One iteration of a loop goroutine: on a tick it runs the batch pass and
    loops; on [<-s.stop], enabled only once the channel is closed, it stops
    its ticker and returns. *)
Inductive loopStep : State -> selectCase -> State -> Prop :=
| loop_tick s :
    (0 < loops s)%nat ->
    loopStep s CaseTick s
| loop_stop s :
    (0 < loops s)%nat ->
    stop s = ChanClosed ->
    loopStep s CaseStop {| stop := stop s; loops := pred (loops s) |}.

End Lifecycle.

(** ** Observers used in the statements *)

Section Observers.
Variable env : Env.

(** The [allFreshArticles] a pass of [ProcessUser] builds (empty when the
    pass returns before the fetch loop). *)
Definition identifiedFresh (now : Time) (user : User) (force : bool) : M (list Article) :=
  if Scheduler.notDueYet now user force then mret []
  else
    topics ← Scheduler.GetUserSubscriptions env (ID user);
    match topics with
    | None => mret []
    | Some topics => Scheduler.topicsLoop env now (ID user) topics []
    end.

(** The messages one pass hands to the transport. *)
Definition pushedBy (now : Time) (user : User) (force : bool) (w : World) : list Delivery :=
  drop (length (sink w)) (sink (Scheduler.ProcessUser env now user force w).2).

End Observers.

(** The URLs handed to the transport for user [u], oldest first. *)
Definition urlsFor (u : N) (s : list Delivery) : list string :=
  map (fun d => URL (dArticle d)) (filter (fun d => dUser d = u) s).

(** The URLs the transport accepted for user [u]. *)
Definition acceptedUrlsFor (u : N) (s : list Delivery) : list string :=
  map (fun d => URL (dArticle d))
      (filter (fun d => dUser d = u /\ dAccepted d = true) s).

(** The ledger holds a row for the pair. *)
Definition seen (u : N) (url : string) (l : list SentArticle) : Prop :=
  exists r, r ∈ l /\ Repo.rowMatches u url r.

(** A call of [ProcessUser]: entry instant, user value and force flag. *)
Record Call := { cNow : Time; cUser : User; cForce : bool }.

(** Sequential calls of [ProcessUser], returning the counts and the final
    world. *)
Fixpoint runCalls (env : Env) (calls : list Call) (w : World) : list Z * World :=
  match calls with
  | [] => ([], w)
  | c :: rest =>
      let (n, w1) := Scheduler.ProcessUser env (cNow c) (cUser c) (cForce c) w in
      let (ns, w2) := runCalls env rest w1 in
      (n :: ns, w2)
  end.

(** The flags the fallback map holds for user [u]: the sizes of the inner
    maps stored under a key that starts with the user's decimal id and a
    colon. *)
Definition cacheEntriesOf (u : N) (c : gmap string (gmap string bool)) : nat :=
  sum_list (map (fun kv : string * gmap string bool =>
                   if String.prefix (pretty u +:+ ":") kv.1 then size kv.2 else 0%nat)
                (map_to_list c)).

(** ** Scenarios used to exercise the code *)

Module Scenario.

Definition mkArticle (url : string) (published : Time) : Article :=
  {| Title := "title"; Description := "description"; Content := "content";
     URL := url; Image := ""; PublishedAt := published;
     ArticleSource := {| SourceName := "source"; SourceURL := "" |} |}.

Definition mkUser (id : N) (minutes : N) (last : option Time) (limit : N) : User :=
  {| ID := id; TelegramID := 1000 + Z.of_N id;
     NotificationIntervalMinutes := minutes; LastNotifiedAt := last;
     NewsLimit := limit |}.

Definition Day : Duration := 24 * Hour.

(** Suppliers that never fail; every topic returns [articles]. *)
Definition healthy (topics : list string) (articles : string -> list Article) : Env :=
  {| clock := fun n => Z.of_nat n;
     ledgerFails := fun _ => false;
     subscriptionsOf := fun _ _ => Some topics;
     fetchNews := fun _ topic => Some (articles topic);
     favoriteOf := fun _ _ _ => Some false;
     sendFails := fun _ => false;
     userRepoFails := fun _ => false |}.

(** As [healthy], with the ledger failing at the calls [down] selects and
    the transport failing at the calls [lost] selects. *)
Definition degraded (down lost : nat -> bool) (topics : list string)
    (articles : string -> list Article) : Env :=
  {| clock := fun n => Z.of_nat n;
     ledgerFails := down;
     subscriptionsOf := fun _ _ => Some topics;
     fetchNews := fun _ topic => Some (articles topic);
     favoriteOf := fun _ _ _ => Some false;
     sendFails := lost;
     userRepoFails := fun _ => false |}.

(** No subscriptions, nothing to fetch; the ledger is down at every call. *)
Definition ledgerDown : Env := degraded (fun _ => true) (fun _ => false) [] (fun _ => []).

(** The ledger is down at every call but the second. *)
Definition ledgerUpOnceAt1 : Env :=
  degraded (fun n => negb (n =? 1)%nat) (fun _ => false) [] (fun _ => []).

(** The ledger is down from the third call on. *)
Definition ledgerDownFrom2 : Env :=
  degraded (fun n => (2 <=? n)%nat) (fun _ => false) [] (fun _ => []).

Definition someURL : string := "https://news.example/a".

(** [n] articles with pairwise distinct URLs, all published at [published]. *)
Definition batch (n : nat) (published : Time) : list Article :=
  map (fun i : nat => mkArticle ("https://news.example/" +:+ pretty i) published) (seq 0 n).

(** The fallback branch of [markArticleAsSent] taken once per URL. *)
Definition recordAll (env : Env) (u : N) (urls : list string) (w : World) : World :=
  foldl (fun w url => (Scheduler.markArticleAsSent env u url w).2) w urls.

(** One topic with eight fresh articles; nothing fails. *)
Definition eightFresh : Env := healthy ["tech"] (fun _ => batch 8 0).

(** As [eightFresh], with the transport refusing the first and the third
    message. *)
Definition eightFreshLossy : Env :=
  degraded (fun _ => false) (fun n => bool_decide (n = 19 \/ n = 23)%nat)
    ["tech"] (fun _ => batch 8 0).

(** One topic returning an article published 200 days before [now] and one
    published 10 days before. *)
Definition oldAndRecent (now : Time) : Env :=
  healthy ["tech"]
    (fun _ => [mkArticle "https://news.example/old" (now - 200 * Day);
               mkArticle "https://news.example/recent" (now - 10 * Day)]).

(** Two topics returning the same article. *)
Definition sameViaTwoTopics : Env :=
  healthy ["tech"; "golang"] (fun _ => [mkArticle someURL 0]).

Definition reader : User := mkUser 7 60 None 5.

(** A forced pass followed by a scheduled pass a day later. *)
Definition twoPasses : list Call :=
  [ {| cNow := 0; cUser := reader; cForce := true |};
    {| cNow := Day; cUser := reader; cForce := false |} ].

(** A user notified at instant [1000], with the default interval. *)
Definition justNotified : User := mkUser 7 60 (Some 1000) 5.

End Scenario.

(** ** Predicates used in the statements and proofs *)

(** The trace of [w'] continues the trace of [w]. *)
Definition extends (w w' : World) : Prop :=
  exists evs, trace w' = trace w ++ evs.

(** A message of [sendLoop] for [user]: sent to the user's chat, on the
    user's behalf. *)
Definition addressedTo (user : User) (d : Delivery) : Prop :=
  dUser d = ID user /\ dChat d = TelegramID user.

(** What one run of a fetch loop adds: pairwise distinct URLs, none of them
    in the ledger before, all of them in the ledger after; the ledger only
    grows. *)
Definition addsFresh (u : N) (w w' : World) (added : list Article) : Prop :=
  NoDup (map URL added)
  /\ (forall a, a ∈ added -> ~ seen u (URL a) (ledger w))
  /\ (forall a, a ∈ added -> seen u (URL a) (ledger w'))
  /\ (forall v x, seen v x (ledger w) -> seen v x (ledger w')).

(** The invariant of the sink: per user no URL twice, and every URL pushed
    for a user is in the ledger for that user. *)
Definition sinkRecorded (w : World) : Prop :=
  forall u, NoDup (urlsFor u (sink w))
            /\ forall x, x ∈ urlsFor u (sink w) -> seen u x (ledger w).

(** ** Further scenarios *)

Module Cases.

(** What the source answers: nothing for any topic but ["tech"]. *)
Definition onlyTech (topic : string) : option (list Article) :=
  if decide (topic = "tech") then Some [Scenario.mkArticle Scenario.someURL 0] else None.

(** Two subscriptions, the first of which the source fails on. *)
Definition sportsDown : Env :=
  {| clock := fun n => Z.of_nat n;
     ledgerFails := fun _ => false;
     subscriptionsOf := fun _ _ => Some ["sports"; "tech"];
     fetchNews := fun _ topic => onlyTech topic;
     favoriteOf := fun _ _ _ => Some false;
     sendFails := fun _ => false;
     userRepoFails := fun _ => false |}.

(** The subscription registry fails. *)
Definition registryDown : Env :=
  {| clock := fun n => Z.of_nat n;
     ledgerFails := fun _ => false;
     subscriptionsOf := fun _ _ => None;
     fetchNews := fun _ _ => Some [];
     favoriteOf := fun _ _ _ => Some false;
     sendFails := fun _ => false;
     userRepoFails := fun _ => false |}.

(** A world whose user table holds [Scenario.reader]. *)
Definition withReader : World :=
  {| ledger := []; sentArticles := ∅;
     users := {[ ID Scenario.reader := Scenario.reader ]};
     sink := []; trace := [] |}.

(** Two topics returning the same article while the ledger is down. *)
Definition sameViaTwoTopicsLedgerDown : Env :=
  Scenario.degraded (fun _ => true) (fun _ => false) ["tech"; "golang"]
    (fun _ => [Scenario.mkArticle Scenario.someURL 0]).

(** The longest interval whose nanoseconds fit a [time.Duration], and the
    first one whose nanoseconds do not; both users were notified at
    instant [1000]. *)
Definition longestInterval : User := Scenario.mkUser 7 153722867 (Some 1000) 5.
Definition overflowingInterval : User := Scenario.mkUser 7 153722868 (Some 1000) 5.

(** The world after one [markArticleAsSent] whose ledger write failed. *)
Definition flaggedOnce : World :=
  (Scheduler.markArticleAsSent Scenario.ledgerDown 7 Scenario.someURL emptyWorld).2.

End Cases.

(** The row update of [UpdateUserLastNotifiedAt]: [last_notified_at] set,
    every other column kept. *)
Definition withLastNotified (t : Time) (u : User) : User :=
  {| ID := ID u; TelegramID := TelegramID u;
     NotificationIntervalMinutes := NotificationIntervalMinutes u;
     LastNotifiedAt := Some t;
     NewsLimit := NewsLimit u |}.

(** ** The news fetcher (fetcher.go)

    The two HTTP calls are suppliers: what a call yields is taken from a
    [Web] of oracles indexed by the number of requests issued so far.  A
    request is recorded by the API it goes to and the search query it
    carries (the URL is a function of the query and the configured key). *)

Module Fetcher.

Record Fetcher := {
  GNewsAPIKey : string;
  NewsAPIKey : string;
  LastAPIUsed : string
}.

(** An element of [NewsAPIResponse.Articles]. *)
Record NewsAPIArticle := {
  naSourceID : string;
  naSourceName : string;
  naAuthor : string;
  naTitle : string;
  naDescription : string;
  naURL : string;
  naURLToImage : string;
  naPublishedAt : Time;
  naContent : string
}.

(** What building the request, [HTTPClient.Do] and the decoding of the body
    come to. *)
Inductive Outcome (A : Type) : Type :=
| BadRequest (msg : string)
| TransportError (msg : string)
| BadStatus (status body : string)
| BadJSON (msg : string)
| Decoded (payload : A).
Arguments BadRequest {A} msg.
Arguments TransportError {A} msg.
Arguments BadStatus {A} status body.
Arguments BadJSON {A} msg.
Arguments Decoded {A} payload.

Inductive Request : Type :=
| ToGNews (query : string)
| ToNewsAPI (query : string).

Record Web := {
  gnews : nat -> string -> Outcome (list Article);
  newsapi : nat -> string -> Outcome (list NewsAPIArticle)
}.

(** The fetcher and the log of the requests issued. *)
Record State := {
  fetcher : Fetcher;
  requests : list Request
}.

Definition F (A : Type) : Type := State -> A * State.

Definition issue (r : Request) (s : State) : State :=
  {| fetcher := fetcher s; requests := requests s ++ [r] |}.

Definition setLastAPIUsed (api : string) (s : State) : State :=
  {| fetcher := {| GNewsAPIKey := GNewsAPIKey (fetcher s);
                   NewsAPIKey := NewsAPIKey (fetcher s);
                   LastAPIUsed := api |};
     requests := requests s |}.

Section Fetcher.
Variable web : Web.

(** The conversion loop of [FetchNewsFromNewsAPI]. *)
Definition toArticle (a : NewsAPIArticle) : Article :=
  {| Title := naTitle a;
     Description := naDescription a;
     Content := naContent a;
     URL := naURL a;
     Image := naURLToImage a;
     PublishedAt := naPublishedAt a;
     ArticleSource := {| SourceName := naSourceName a; SourceURL := "" |} |}.

(** The [switch topic] of [FetchNewsFromNewsAPI]. *)
Definition newsAPIQuery (topic : string) : string :=
  if decide (topic = "искусственный интелент") then "искусственный интеллект"
  else if decide (topic = "программирование") then "программирование"
  else if decide (topic = "политика") then "политика"
  else if decide (topic = "новости москвы") then "москва новости"
  else topic.

(** The [switch topic] of [FetchNewsFromGNews]. *)
Definition gnewsQuery (topic : string) : string :=
  if decide (topic = "искусственный интелент") then "искусственный интеллект"
  else topic.

Definition FetchNewsFromNewsAPI (topic : string) : F (list Article * error) :=
  fun s =>
    if decide (NewsAPIKey (fetcher s) = "") then
      (([], Err "ключ News API не настроен"), s)
    else
      let searchQuery := newsAPIQuery topic in
      let s1 := issue (ToNewsAPI searchQuery) s in
      match newsapi web (length (requests s)) searchQuery with
      | BadRequest msg =>
          (([], Err ("ошибка создания запроса к News API: " +:+ msg)), s)
      | TransportError msg =>
          (([], Err ("ошибка выполнения запроса к News API: " +:+ msg)), s1)
      | BadStatus status body =>
          (([], Err ("News API вернул ошибку: " +:+ status +:+ ", тело: " +:+ body)), s1)
      | BadJSON msg =>
          (([], Err ("ошибка декодирования JSON от News API: " +:+ msg)), s1)
      | Decoded response =>
          ((map toArticle response, ErrNil), setLastAPIUsed "NewsAPI" s1)
      end.

Definition FetchNewsFromGNews (topic : string) : F (list Article * error) :=
  fun s =>
    if decide (GNewsAPIKey (fetcher s) = "") then
      (([], Err "ключ GNews API не настроен"), s)
    else
      let modifiedTopic := gnewsQuery topic in
      let s1 := issue (ToGNews modifiedTopic) s in
      match gnews web (length (requests s)) modifiedTopic with
      | BadRequest msg =>
          (([], Err ("ошибка создания запроса к GNews: " +:+ msg)), s)
      | TransportError msg =>
          (([], Err ("ошибка выполнения запроса к GNews: " +:+ msg)), s1)
      | BadStatus status body =>
          (([], Err ("GNews API вернул ошибку: " +:+ status +:+ ", тело: " +:+ body)), s1)
      | BadJSON msg =>
          (([], Err ("ошибка декодирования JSON от GNews: " +:+ msg)), s1)
      | Decoded articles =>
          ((articles, ErrNil), setLastAPIUsed "GNews" s1)
      end.

Definition isNil (e : error) : bool :=
  match e with ErrNil => true | Err _ => false end.

Definition FetchNews (topic : string) : F (list Article * error) :=
  fun s =>
    if decide (topic = "") then (([], Err "тема не может быть пустой"), s)
    else
      let '((articles, err), s1) := FetchNewsFromGNews topic s in
      if isNil err && (0 <? Z.of_nat (length articles)) then ((articles, ErrNil), s1)
      else
        let continue (s2 : State) : (list Article * error) * State :=
          match err with
          | Err msg =>
              (([], Err ("не удалось получить новости из доступных источников: " +:+ msg)),
               s2)
          | ErrNil => ((articles, ErrNil), s2)
          end in
        if decide (NewsAPIKey (fetcher s1) ≠ "") then
          let '((articles2, err2), s2) := FetchNewsFromNewsAPI topic s1 in
          if isNil err2 then ((articles2, ErrNil), s2) else continue s2
        else continue s1.

End Fetcher.

(** An attempt that did not come to a decoded answer. *)
Definition failed {A} (o : Outcome A) : Prop :=
  match o with Decoded _ => False | _ => True end.

End Fetcher.

(** ** Fetcher scenarios *)

Module FetcherCases.
Import Fetcher.

Definition bothKeys : State :=
  {| fetcher := {| GNewsAPIKey := "g-key"; NewsAPIKey := "n-key"; LastAPIUsed := "" |};
     requests := [] |}.

Definition oneResult : NewsAPIArticle :=
  {| naSourceID := "id"; naSourceName := "source"; naAuthor := "author";
     naTitle := "title"; naDescription := "description"; naURL := Scenario.someURL;
     naURLToImage := ""; naPublishedAt := 0; naContent := "content" |}.

(** GNews answers with one article. *)
Definition gnewsAnswers : Web :=
  {| gnews := fun _ _ => Decoded [Scenario.mkArticle Scenario.someURL 0];
     newsapi := fun _ _ => Decoded [oneResult] |}.

(** GNews is over its quota, the News API answers. *)
Definition gnewsOverQuota : Web :=
  {| gnews := fun _ _ => BadStatus "403 Forbidden" "request limit reached";
     newsapi := fun _ _ => Decoded [oneResult] |}.

(** GNews answers with no article, the News API is unreachable. *)
Definition gnewsEmptyNewsAPIDown : Web :=
  {| gnews := fun _ _ => Decoded [];
     newsapi := fun _ _ => TransportError "timeout" |}.

(** Neither API answers. *)
Definition allDown : Web :=
  {| gnews := fun _ _ => TransportError "timeout";
     newsapi := fun _ _ => TransportError "timeout" |}.

End FetcherCases.

(** ** The subscription repository (database.go)

    The table is the list of its live rows in insertion order; whether a
    query fails is an argument of the operation.  [strings.ToLower] is a
    parameter. *)

Module SubscriptionRepo.

Record Subscription := { UserID : N; Topic : string }.

Section Repo.
Variable ToLower : string -> string.

(** [WHERE user_id = ? AND topic = ?] *)
Definition rowIs (userID : N) (topic : string) (r : Subscription) : Prop :=
  UserID r = userID /\ Topic r = topic.

#[global] Instance rowIs_dec userID topic r : Decision (rowIs userID topic r) :=
  decide (UserID r = userID /\ Topic r = topic).

(** [AddSubscription]: the error of the count query is not looked at, so a
    failed count leaves [count] at 0. *)
Definition AddSubscription (countFails createFails : bool) (userID : N) (topic : string)
    (table : list Subscription) : error * list Subscription :=
  let subscription := {| UserID := userID; Topic := ToLower topic |} in
  let count : Z :=
    if countFails then 0
    else Z.of_nat (length (filter (rowIs userID (Topic subscription)) table)) in
  if count >? 0 then (Err "подписка на эту тему уже существует", table)
  else if createFails then (Err "create failed", table)
  else (ErrNil, table ++ [subscription]).

Definition RemoveSubscription (deleteFails : bool) (userID : N) (topic : string)
    (table : list Subscription) : error * list Subscription :=
  if deleteFails then (Err "failed to remove subscription", table)
  else
    let rowsAffected :=
      Z.of_nat (length (filter (rowIs userID (ToLower topic)) table)) in
    if rowsAffected =? 0 then (Err "subscription not found", table)
    else (ErrNil, filter (fun r => ~ rowIs userID (ToLower topic) r) table).

(** [GetUserSubscriptions]: [Pluck("topic")] over the rows of the user. *)
Definition GetUserSubscriptions (queryFails : bool) (userID : N)
    (table : list Subscription) : list string * error :=
  if queryFails then ([], Err "failed to get user subscriptions")
  else (map Topic (filter (fun r => UserID r = userID) table), ErrNil).

End Repo.

(** No two rows for the same user and topic. *)
Definition uniquePairs (table : list Subscription) : Prop :=
  NoDup (map (fun r => (UserID r, Topic r)) table).

End SubscriptionRepo.

(** ** The favourites repository (favorite_article_repository.go) and the
    scheduler's pass-through methods *)

Module FavoriteRepo.

Record FavoriteArticle := {
  UserID : N;
  ArticleURL : string;
  FavTitle : string;
  FavSource : string;
  FavPublishedAt : Time;
  AddedAt : Time
}.

(** [WHERE user_id = ? AND article_url = ?] *)
Definition rowIs (userID : N) (articleURL : string) (r : FavoriteArticle) : Prop :=
  UserID r = userID /\ ArticleURL r = articleURL.

#[global] Instance rowIs_dec userID articleURL r : Decision (rowIs userID articleURL r) :=
  decide (UserID r = userID /\ ArticleURL r = articleURL).

(** [AddFavoriteArticle]; [now] is what [time.Now()] returns. *)
Definition AddFavoriteArticle (countFails createFails : bool) (now : Time)
    (userID : N) (articleURL title source : string) (publishedAt : Time)
    (table : list FavoriteArticle) : error * list FavoriteArticle :=
  if countFails then (Err "failed to check if article is already in favorites", table)
  else
    let count := Z.of_nat (length (filter (rowIs userID articleURL) table)) in
    if count >? 0 then (Err "article is already in favorites", table)
    else
      let favoriteArticle :=
        {| UserID := userID; ArticleURL := articleURL; FavTitle := title;
           FavSource := source; FavPublishedAt := publishedAt; AddedAt := now |} in
      if createFails then (Err "failed to add article to favorites", table)
      else (ErrNil, table ++ [favoriteArticle]).

Definition RemoveFavoriteArticle (deleteFails : bool) (userID : N) (articleURL : string)
    (table : list FavoriteArticle) : error * list FavoriteArticle :=
  if deleteFails then (Err "failed to remove article from favorites", table)
  else
    let rowsAffected := Z.of_nat (length (filter (rowIs userID articleURL) table)) in
    if rowsAffected =? 0 then (Err "article not found in favorites", table)
    else (ErrNil, filter (fun r => ~ rowIs userID articleURL r) table).

Definition IsFavoriteArticle (countFails : bool) (userID : N) (articleURL : string)
    (table : list FavoriteArticle) : bool * error :=
  if countFails then (false, Err "failed to check if article is in favorites")
  else (Z.of_nat (length (filter (rowIs userID articleURL) table)) >? 0, ErrNil).

(** [ORDER BY added_at DESC]: rows with equal [added_at] keep the order of
    the table. *)
Fixpoint insertByAddedAt (r : FavoriteArticle) (sorted : list FavoriteArticle)
    : list FavoriteArticle :=
  match sorted with
  | [] => [r]
  | r' :: rest =>
      if AddedAt r' <=? AddedAt r then r :: r' :: rest
      else r' :: insertByAddedAt r rest
  end.

Definition orderByAddedAtDesc (rows : list FavoriteArticle) : list FavoriteArticle :=
  foldr insertByAddedAt [] rows.

Definition GetUserFavoriteArticles (queryFails : bool) (userID : N)
    (table : list FavoriteArticle) : list FavoriteArticle * error :=
  if queryFails then ([], Err "failed to get user favorite articles")
  else (orderByAddedAtDesc (filter (fun r => UserID r = userID) table), ErrNil).

(** [Scheduler.AddFavoriteArticle]: the fields of the article it hands on. *)
Definition SchedulerAddFavoriteArticle (countFails createFails : bool) (now : Time)
    (userID : N) (article : Article)
    (table : list FavoriteArticle) : error * list FavoriteArticle :=
  AddFavoriteArticle countFails createFails now userID
    (URL article) (Title article) (SourceName (ArticleSource article))
    (PublishedAt article) table.

(** No two rows for the same user and URL. *)
Definition uniquePairs (table : list FavoriteArticle) : Prop :=
  NoDup (map (fun r => (UserID r, ArticleURL r)) table).

End FavoriteRepo.

(** ** Repository scenarios *)

Module RepoCases.

(** Lower-casing of the ASCII letters, standing in for [strings.ToLower]
    where a concrete function is needed. *)
Definition lowerAscii (c : Ascii.ascii) : Ascii.ascii :=
  let n := Ascii.nat_of_ascii c in
  if (65 <=? n)%nat && (n <=? 90)%nat then Ascii.ascii_of_nat (n + 32) else c.

Fixpoint lowerASCII (s : string) : string :=
  match s with
  | EmptyString => EmptyString
  | String c rest => String (lowerAscii c) (lowerASCII rest)
  end.

Definition oneSubscription : list SubscriptionRepo.Subscription :=
  [ {| SubscriptionRepo.UserID := 7; SubscriptionRepo.Topic := "tech" |} ].

Definition fav (u : N) (url : string) (added : Time) : FavoriteRepo.FavoriteArticle :=
  {| FavoriteRepo.UserID := u; FavoriteRepo.ArticleURL := url;
     FavoriteRepo.FavTitle := "title"; FavoriteRepo.FavSource := "source";
     FavoriteRepo.FavPublishedAt := 0; FavoriteRepo.AddedAt := added |}.

Definition threeFavorites : list FavoriteRepo.FavoriteArticle :=
  [ fav 7 "https://news.example/a" 10;
    fav 8 "https://news.example/a" 20;
    fav 7 "https://news.example/b" 30 ].

(** Four favourites of user 7, three of them added at the same instant. *)
Definition tiedFavorites : list FavoriteRepo.FavoriteArticle :=
  [ fav 7 "https://news.example/a" 10;
    fav 7 "https://news.example/b" 10;
    fav 7 "https://news.example/c" 20;
    fav 7 "https://news.example/d" 10 ].

End RepoCases.

(** ** The handlers' use of the scheduler (handlers.go)

    The parts of the on-demand paths that read and write the ledger and hand
    articles to the transport.  The plain text notices of [sendMsg], whose
    outcome the code ignores, are left out. *)

Module Handlers.
Section Handlers.
Variable env : Env.

(** The loop of [filterSentArticles]. *)
Fixpoint filterLoop (userID : N) (articles freshArticles : list Article)
    : M (list Article) :=
  match articles with
  | [] => mret freshArticles
  | article :: rest =>
      '(isSent, err) ← Scheduler.IsArticleSent env userID (URL article);
      match err with
      | Err _ => filterLoop userID rest freshArticles
      | ErrNil =>
          if negb isSent then filterLoop userID rest (freshArticles ++ [article])
          else filterLoop userID rest freshArticles
      end
  end.

Definition filterSentArticles (userID : N) (articles : list Article)
    : M (list Article * error) :=
  freshArticles ← filterLoop userID articles [];
  mret (freshArticles, ErrNil).

(** [fetchNewsForTopic]; [Scheduler.FetchNewsForTopic] is the fetcher's
    [FetchNews]. *)
Definition fetchNewsForTopic (user : User) (topic : string) : M (list Article * error) :=
  r ← Scheduler.FetchNews env topic;
  match r with
  | None => mret ([], Err "fetch failed")
  | Some articles => filterSentArticles (ID user) articles
  end.

(** The handlers' [sendArticleWithFavoriteButton]: the favourite check
    through the scheduler, then [bot.Send]. *)
Definition sendArticleWithFavoriteButton (chatID : Z) (userID : N) (article : Article)
    : M error :=
  '(isFavorite, _) ← Scheduler.IsFavoriteArticle env userID (URL article);
  Scheduler.botSend env chatID userID article isFavorite.

(** The send loop of [handleTopicNewsCallback]. *)
Fixpoint topicSendLoop (chatID : Z) (userID : N) (articlesToSend : list Article) : M unit :=
  match articlesToSend with
  | [] => mret tt
  | article :: rest =>
      sendArticleWithFavoriteButton chatID userID article;;
      topicSendLoop chatID userID rest
  end.

(** The send loop of [handleSearchNewsQuery]: an article is marked once its
    send has succeeded; the error of the mark is only logged. *)
Fixpoint searchSendLoop (chatID : Z) (userID : N) (articlesToSend : list Article) : M unit :=
  match articlesToSend with
  | [] => mret tt
  | article :: rest =>
      err ← sendArticleWithFavoriteButton chatID userID article;
      match err with
      | Err _ => searchSendLoop chatID userID rest
      | ErrNil =>
          Scheduler.MarkArticleAsSent env userID (URL article);;
          searchSendLoop chatID userID rest
      end
  end.

(** The goroutine of [handleTopicNewsCallback] from the fetch on; the value
    is the list of articles it set out to send. *)
Definition topicNews (user : User) (chatID : Z) (topic : string) : M (list Article) :=
  '(articles, err) ← fetchNewsForTopic user topic;
  match err with
  | Err _ => mret []
  | ErrNil =>
      if Z.of_nat (length articles) =? 0 then mret []
      else
        let articlesToSend := Scheduler.articlesToSendOf user articles in
        topicSendLoop chatID (ID user) articlesToSend;;
        mret articlesToSend
  end.

(** The goroutine of [handleSearchNewsQuery] from the search on. *)
Definition searchNews (user : User) (chatID : Z) (query : string) : M (list Article) :=
  r ← Scheduler.FetchNews env query;
  match r with
  | None => mret []
  | Some articles =>
      if Z.of_nat (length articles) =? 0 then mret []
      else
        '(freshArticles, err) ← filterSentArticles (ID user) articles;
        match err with
        | Err _ => mret []
        | ErrNil =>
            if Z.of_nat (length freshArticles) =? 0 then mret []
            else
              let articlesToSend := Scheduler.articlesToSendOf user freshArticles in
              searchSendLoop chatID (ID user) articlesToSend;;
              mret articlesToSend
        end
  end.

End Handlers.
End Handlers.

(** The URLs among the messages [ds] that the transport accepted. *)
Definition acceptedURLs (ds : list Delivery) : list string :=
  map (fun d => URL (dArticle d)) (filter (fun d => dAccepted d = true) ds).

(** ** Handler scenarios *)

Module HandlerCases.

(** Three articles for every query; the transport refuses the message sent
    at position 5 of the trace (the first article of a search). *)
Definition firstSendLost : Env :=
  Scenario.degraded (fun _ => false) (fun n => (n =? 5)%nat)
    ["tech"] (fun _ => Scenario.batch 3 0).

End HandlerCases.

(** ** The message text (scheduler.go, [formatArticleMessage])

    Go strings are byte strings, [len] and slicing count bytes.
    [time.Time.Format] is a parameter. *)

Module Format.
Section Format.
Variable formatTime : Time -> string.

Definition newline : string := String (Ascii.ascii_of_nat 10) EmptyString.

(** The description as it enters the message: cut to 297 bytes and an
    ellipsis when longer than 300 bytes. *)
Definition shortDescription (description : string) : string :=
  if 300 <? Z.of_nat (String.length description)
  then String.substring 0 297 description +:+ "..."
  else description.

Definition sourceNameOf (article : Article) : string :=
  if decide (SourceName (ArticleSource article) = "") then "Неизвестный источник"
  else SourceName (ArticleSource article).

Definition formatArticleMessage (article : Article) : string :=
  let publishedDate := formatTime (PublishedAt article) in
  let description := shortDescription (Description article) in
  let sourceName := sourceNameOf article in
  "<b>" +:+ Title article +:+ "</b>" +:+ newline +:+ newline
  +:+ description +:+ newline +:+ newline
  +:+ "<i>📰 Источник: " +:+ sourceName +:+ "</i>" +:+ newline
  +:+ "<i>📅 Опубликовано: " +:+ publishedDate +:+ "</i>" +:+ newline +:+ newline
  +:+ "<a href=" +:+ String (Ascii.ascii_of_nat 34) EmptyString +:+ URL article
  +:+ String (Ascii.ascii_of_nat 34) EmptyString +:+ ">Читать полностью →</a>".

End Format.
End Format.

(** The fallback map holds a flag for the pair. *)
Definition flagged (u : N) (url : string) (c : gmap string (gmap string bool)) : Prop :=
  Scheduler.cacheFlag c (Scheduler.topicKeyOf u url) url = true.

(** No colon among the bytes of [s]. *)
Fixpoint colonFree (s : string) : Prop :=
  match s with
  | EmptyString => True
  | String c rest => c ≠ Ascii.ascii_of_nat 58 /\ colonFree rest
  end.

(** The invariant of the sink while the ledger is down: per user no URL
    twice, and every URL pushed for a user is flagged in the fallback map. *)
Definition sinkFlagged (w : World) : Prop :=
  forall u, NoDup (urlsFor u (sink w))
            /\ forall x, x ∈ urlsFor u (sink w) -> flagged u x (sentArticles w).

(** * Properties *)

(** ** Machine arithmetic *)

Lemma wrap64_small z : minInt64 <= z <= maxInt64 -> wrap64 z = z.
Proof.
  unfold wrap64, minInt64, maxInt64. intros Hz.
  rewrite Z.mod_small; lia.
Qed.

Lemma wrap64_range z : minInt64 <= wrap64 z <= maxInt64.
Proof.
  unfold wrap64, minInt64, maxInt64.
  pose proof (Z.mod_pos_bound (z + 2 ^ 63) (2 ^ 64)). lia.
Qed.

Lemma Sub_exact t u : minInt64 <= t - u <= maxInt64 -> Sub t u = t - u.
Proof. unfold Sub. lia. Qed.

Lemma Sub_lt_iff t u d : minInt64 < d <= maxInt64 -> Sub t u < d <-> t - u < d.
Proof. unfold Sub. lia. Qed.

(** Below the overflow point the interval is the exact number of minutes. *)
Lemma intervalOf_exact user :
  (NotificationIntervalMinutes user < 153722867)%N ->
  Scheduler.intervalOf user = Z.of_N (NotificationIntervalMinutes user) * Minute.
Proof.
  intros Hm. unfold Scheduler.intervalOf, dmul, int_of_uint.
  assert (Hmin : Minute = 60000000000) by reflexivity.
  rewrite (wrap64_small (Z.of_N _)) by (unfold minInt64, maxInt64; lia).
  apply wrap64_small. rewrite Hmin. unfold minInt64, maxInt64. lia.
Qed.

(** ** The stop channel *)

Section LifecycleFacts.
Import Lifecycle.

Lemma Stop_open s :
  stop s = ChanOpen -> Stop s = Returned {| stop := ChanClosed; loops := loops s |}.
Proof. intros Hs. unfold Stop. rewrite Hs. reflexivity. Qed.

Lemma Stop_closed s :
  stop s = ChanClosed -> Stop s = Panicked "close of closed channel".
Proof. intros Hs. unfold Stop. rewrite Hs. reflexivity. Qed.

Lemma loopStep_needs_loop s c s' : loopStep s c s' -> (0 < loops s)%nat.
Proof. destruct 1; assumption. Qed.

(** C2, as the code has it: after [Start] on a scheduler whose channel is
    still open, the first [Stop] returns normally and leaves the channel
    closed, which enables the loop's stop case; taking it ends the goroutine
    started by this [Start].  [Stop] is call-once: a second call closes the
    closed channel and panics (it does not block), before and after the loop
    has ended. *)
Theorem Stop_is_call_once (s : State) :
  stop s = ChanOpen ->
  let s1 := {| stop := ChanClosed; loops := S (loops s) |} in
  let s2 := {| stop := ChanClosed; loops := loops s |} in
  Stop (Start s) = Returned s1
  /\ loopStep s1 CaseStop s2
  /\ (loops s = 0%nat -> forall c s', ~ loopStep s2 c s')
  /\ Stop s1 = Panicked "close of closed channel"
  /\ Stop s2 = Panicked "close of closed channel".
Proof.
  intros Hopen s1 s2. split; [| split; [| split; [| split]]].
  - unfold Start. rewrite Stop_open by exact Hopen. reflexivity.
  - apply (loop_stop s1); simpl; [lia | reflexivity].
  - intros Hz c s' Hstep. apply loopStep_needs_loop in Hstep.
    simpl in Hstep. lia.
  - apply Stop_closed. reflexivity.
  - apply Stop_closed. reflexivity.
Qed.

Lemma Stop_is_call_once_witness :
  stop NewScheduler = ChanOpen
  /\ Stop (Start NewScheduler) = Returned {| stop := ChanClosed; loops := 1 |}
  /\ Stop {| stop := ChanClosed; loops := 1 |} = Panicked "close of closed channel".
Proof.
  split; [reflexivity |].
  destruct (Stop_is_call_once NewScheduler eq_refl) as (H1 & _ & _ & H4 & _).
  split; [exact H1 | exact H4].
Defined.

(** C2, as stated, fails: the second [Stop] after [Start] does not return. *)
Lemma second_Stop_panics :
  ~ (exists s1 s2, Stop (Start NewScheduler) = Returned s1 /\ Stop s1 = Returned s2).
Proof.
  intros (s1 & s2 & H1 & H2).
  vm_compute in H1. injection H1 as <-. vm_compute in H2. discriminate H2.
Qed.

End LifecycleFacts.

(** ** The fallback map *)

Ltac munfold :=
  unfold mbind, M_bind, mret, M_ret, act in *.

Lemma string_length_app (s t : string) :
  String.length (s +:+ t) = (String.length s + String.length t)%nat.
Proof. induction s as [| c s IH]; simpl; [reflexivity | rewrite IH; reflexivity]. Qed.

Lemma topicKey_not_userKey u a : Scheduler.topicKeyOf u a ≠ Scheduler.userKeyOf u.
Proof.
  unfold Scheduler.topicKeyOf, Scheduler.userKeyOf. intros Heq.
  apply (f_equal String.length) in Heq.
  rewrite !string_length_app in Heq. simpl in Heq. lia.
Qed.

Lemma recordInCache_flag u a c :
  Scheduler.cacheFlag (Scheduler.recordInCache u a c) (Scheduler.topicKeyOf u a) a = true.
Proof.
  unfold Scheduler.cacheFlag, Scheduler.recordInCache.
  rewrite lookup_insert_eq. simpl. rewrite lookup_insert_eq. reflexivity.
Qed.

Lemma isArticleSent_world env u a w :
  (Scheduler.isArticleSent env u a w).2 = emit (EvLedgerRead u a) w.
Proof.
  unfold Scheduler.isArticleSent, Repo.IsArticleSent. munfold.
  destruct (ledgerFails env (tick w)); simpl; [| reflexivity].
  destruct (_ !! _); reflexivity.
Qed.

Lemma isArticleSent_fallback env u a w :
  ledgerFails env (tick w) = true ->
  (Scheduler.isArticleSent env u a w).1
  = Scheduler.cacheFlag (sentArticles w) (Scheduler.topicKeyOf u a) a.
Proof.
  intros Hdown.
  unfold Scheduler.isArticleSent, Repo.IsArticleSent. munfold.
  rewrite Hdown. simpl. unfold Scheduler.cacheFlag.
  destruct (_ !! _); reflexivity.
Qed.

Lemma markArticleAsSent_fallback env u a w :
  ledgerFails env (tick w) = true ->
  (Scheduler.markArticleAsSent env u a w).2
  = setCache (Scheduler.recordInCache u a (sentArticles w)) (emit (EvLedgerWrite u a) w).
Proof.
  intros Hdown.
  unfold Scheduler.markArticleAsSent, Repo.MarkArticleAsSent. munfold.
  rewrite Hdown. reflexivity.
Qed.

Lemma Reset_ok env u w :
  ledgerFails env (tick w) = false ->
  Scheduler.ResetSentArticlesHistory env u w
  = (ErrNil,
     setCache (<[Scheduler.userKeyOf u := ∅]> (sentArticles w))
       (setLedger (filter (fun r => UserID r ≠ u) (ledger w)) (emit (EvLedgerReset u) w))).
Proof.
  intros Hup.
  unfold Scheduler.ResetSentArticlesHistory, Repo.ResetSentArticlesHistory. munfold.
  rewrite Hup. reflexivity.
Qed.

Lemma tick_emit e w : tick (emit e w) = S (tick w).
Proof. unfold tick. simpl. rewrite length_app. simpl. lia. Qed.

Lemma tick_setCache c w : tick (setCache c w) = tick w.
Proof. reflexivity. Qed.

Lemma tick_setLedger l w : tick (setLedger l w) = tick w.
Proof. reflexivity. Qed.

Lemma IsArticleSent_unfold env u a w :
  Scheduler.IsArticleSent env u a w
  = (((Scheduler.isArticleSent env u a w).1, ErrNil), emit (EvLedgerRead u a) w).
Proof.
  unfold Scheduler.IsArticleSent. munfold.
  rewrite <- (isArticleSent_world env).
  destruct (Scheduler.isArticleSent env u a w); reflexivity.
Qed.

(** The reset writes under the key of the user alone, the fallback branch
    under the key of the user and the article: whatever user and article,
    a flag recorded on a failed ledger write survives a successful reset and
    is what the next fallback seen-check reports. *)
Lemma reset_leaves_fallback_flag env u a w :
  ledgerFails env (tick w) = true ->
  ledgerFails env (S (tick w)) = false ->
  ledgerFails env (S (S (tick w))) = true ->
  let w1 := (Scheduler.markArticleAsSent env u a w).2 in
  let r := Scheduler.ResetSentArticlesHistory env u w1 in
  r.1 = ErrNil /\ (Scheduler.IsArticleSent env u a r.2).1 = (true, ErrNil).
Proof.
  intros H0 H1 H2 w1 r.
  assert (Hw1 : w1 = setCache (Scheduler.recordInCache u a (sentArticles w))
                       (emit (EvLedgerWrite u a) w))
    by (apply markArticleAsSent_fallback; exact H0).
  assert (Ht1 : tick w1 = S (tick w))
    by (rewrite Hw1, tick_setCache, tick_emit; reflexivity).
  assert (Hr : r = (ErrNil,
     setCache (<[Scheduler.userKeyOf u := ∅]> (sentArticles w1))
       (setLedger (filter (fun r => UserID r ≠ u) (ledger w1)) (emit (EvLedgerReset u) w1)))).
  { apply Reset_ok. rewrite Ht1. exact H1. }
  rewrite Hr. split; [reflexivity |].
  cbn [fst snd]. rewrite IsArticleSent_unfold. cbn [fst snd].
  rewrite isArticleSent_fallback.
  - cbn [sentArticles setCache]. unfold Scheduler.cacheFlag.
    rewrite lookup_insert_ne by (apply not_eq_sym, topicKey_not_userKey).
    rewrite Hw1. cbn [sentArticles setCache].
    pose proof (recordInCache_flag u a (sentArticles w)) as Hflag.
    unfold Scheduler.cacheFlag in Hflag. rewrite Hflag. reflexivity.
  - rewrite tick_setCache, tick_setLedger, tick_emit, Ht1. exact H2.
Qed.

(** C6 (the code misses it): a flag recorded in the fallback map for user 7
    on a failed ledger write is still reported by the fallback seen-check
    after [ResetSentArticlesHistory 7] has succeeded. *)
Theorem reset_does_not_clear_cache :
  let env := Scenario.ledgerUpOnceAt1 in
  let w1 := (Scheduler.markArticleAsSent env 7 Scenario.someURL emptyWorld).2 in
  let r := Scheduler.ResetSentArticlesHistory env 7 w1 in
  ledger w1 = []
  /\ r.1 = ErrNil
  /\ (Scheduler.IsArticleSent env 7 Scenario.someURL r.2).1 = (true, ErrNil).
Proof. vm_compute. repeat split. Qed.

Lemma string_app_inv_head (s t1 t2 : string) : s +:+ t1 = s +:+ t2 -> t1 = t2.
Proof.
  induction s as [| c s IH]; simpl; intros Heq; [exact Heq |].
  injection Heq as Heq. exact (IH Heq).
Qed.

Lemma topicKeyOf_inj_url u a b : Scheduler.topicKeyOf u a = Scheduler.topicKeyOf u b -> a = b.
Proof.
  unfold Scheduler.topicKeyOf. intros Heq.
  apply string_app_inv_head in Heq. apply string_app_inv_head in Heq. exact Heq.
Qed.

(** Recording a flag for a user never removes another flag of that user:
    the segment it may clear is the segment of the very pair it records. *)
Lemma recordInCache_keeps u a x c :
  Scheduler.cacheFlag c (Scheduler.topicKeyOf u x) x = true ->
  Scheduler.cacheFlag (Scheduler.recordInCache u a c) (Scheduler.topicKeyOf u x) x = true.
Proof.
  intros Hflag. destruct (decide (x = a)) as [-> | Hne]; [apply recordInCache_flag |].
  assert (Hkey : Scheduler.topicKeyOf u a ≠ Scheduler.topicKeyOf u x)
    by (intros Heq; apply Hne; symmetry; exact (topicKeyOf_inj_url u a x Heq)).
  unfold Scheduler.cacheFlag, Scheduler.recordInCache in *.
  rewrite lookup_insert_ne by exact Hkey.
  destruct (Z.of_nat _ >=? Scheduler.maxCacheSize);
    [rewrite lookup_insert_ne by exact Hkey |];
    (destruct (c !! Scheduler.topicKeyOf u a);
       [| rewrite lookup_insert_ne by exact Hkey]); exact Hflag.
Qed.

(** With the ledger down, every URL recorded for a user keeps its flag,
    however many are recorded: nothing bounds what the map holds for one
    user. *)
Lemma fallback_flags_accumulate env u urls :
  (forall n, ledgerFails env n = true) ->
  forall w x,
    Scheduler.cacheFlag (sentArticles w) (Scheduler.topicKeyOf u x) x = true \/ x ∈ urls ->
    Scheduler.cacheFlag (sentArticles (Scenario.recordAll env u urls w))
      (Scheduler.topicKeyOf u x) x = true.
Proof.
  intros Hdown. unfold Scenario.recordAll.
  induction urls as [| a rest IH]; intros w x Hx; simpl.
  - destruct Hx as [Hx | Hx]; [exact Hx | inversion Hx].
  - apply IH. rewrite (markArticleAsSent_fallback env u a w (Hdown _)).
    cbn [sentArticles setCache].
    destruct Hx as [Hx | Hx].
    + left. apply recordInCache_keeps, Hx.
    + apply elem_of_cons in Hx as [-> | Hx]; [left; apply recordInCache_flag | right; exact Hx].
Qed.

(** C7 (the code misses it): every segment of the fallback map is keyed by
    user and article, so the size guard looks at a segment of at most one
    flag and never fires.  With the ledger down, one pass over 101 articles
    leaves 101 flags held for user 7, above [maxCacheSize]. *)
Theorem cache_exceeds_maxCacheSize :
  let env := Scenario.degraded (fun _ => true) (fun _ => false)
               ["tech"] (fun _ => Scenario.batch 101 0) in
  let user := Scenario.mkUser 7 60 None 5 in
  let w1 := Scenario.recordAll env 7 (map URL (Scenario.batch 101 0)) emptyWorld in
  let w2 := (Scheduler.ProcessUser env 0 user true emptyWorld).2 in
  cacheEntriesOf 7 (sentArticles w1) = 101%nat
  /\ cacheEntriesOf 7 (sentArticles w2) = 101%nat
  /\ Z.of_nat 101 > Scheduler.maxCacheSize.
Proof. vm_compute. repeat split. Qed.

(** ** Supplier calls only extend the trace *)

Lemma extends_refl w : extends w w.
Proof. exists []. rewrite app_nil_r. reflexivity. Qed.

Lemma extends_trans w1 w2 w3 : extends w1 w2 -> extends w2 w3 -> extends w1 w3.
Proof.
  intros [e1 H1] [e2 H2]. exists (e1 ++ e2).
  rewrite H2, H1, app_assoc. reflexivity.
Qed.

Lemma extends_emit e w : extends w (emit e w).
Proof. exists [e]. reflexivity. Qed.

Lemma extends_after e w w' : extends (emit e w) w' ->
  exists evs, trace w' = trace w ++ e :: evs.
Proof.
  intros [evs H]. exists evs. rewrite H. simpl.
  rewrite <- app_assoc. reflexivity.
Qed.

Lemma markArticleAsSent_extends env u a w :
  extends w (Scheduler.markArticleAsSent env u a w).2.
Proof.
  unfold Scheduler.markArticleAsSent, Repo.MarkArticleAsSent. munfold.
  destruct (ledgerFails env (tick w)); simpl; apply (extends_emit _ w).
Qed.

Lemma articlesLoop_extends env now u articles :
  forall fresh w, extends w (Scheduler.articlesLoop env now u articles fresh w).2.
Proof.
  induction articles as [| a rest IH]; intros fresh w; simpl.
  - apply extends_refl.
  - destruct (Scheduler.withinHorizon now a); [| apply IH].
    munfold.
    pose proof (isArticleSent_world env u (URL a) w) as Hw.
    destruct (Scheduler.isArticleSent env u (URL a) w) as [sent w1].
    simpl in Hw. subst w1.
    apply (extends_trans _ (emit (EvLedgerRead u (URL a)) w)); [apply extends_emit |].
    destruct sent; simpl; [apply IH |].
    pose proof (markArticleAsSent_extends env u (URL a) (emit (EvLedgerRead u (URL a)) w)) as Hm.
    destruct (Scheduler.markArticleAsSent env u (URL a) _) as [[] w2].
    simpl in Hm. eapply extends_trans; [exact Hm | apply IH].
Qed.

Lemma topicsLoop_extends env now u topics :
  forall fresh w, extends w (Scheduler.topicsLoop env now u topics fresh w).2.
Proof.
  induction topics as [| t rest IH]; intros fresh w; simpl.
  - apply extends_refl.
  - munfold. unfold Scheduler.FetchNews.
    apply (extends_trans _ (emit (EvFetch t) w)); [apply extends_emit |].
    destruct (fetchNews env (tick w) t) as [articles |]; [| apply IH].
    pose proof (articlesLoop_extends env now u articles fresh (emit (EvFetch t) w)) as Ha.
    destruct (Scheduler.articlesLoop env now u articles fresh _) as [fresh' w1].
    simpl in Ha. eapply extends_trans; [exact Ha | apply IH].
Qed.

Lemma send_extends env chat u a w :
  extends w (Scheduler.sendArticleWithFavoriteButton env chat u a w).2.
Proof.
  unfold Scheduler.sendArticleWithFavoriteButton, Scheduler.IsFavoriteArticle,
    Scheduler.botSend. munfold.
  destruct (favoriteOf env (tick w) u (URL a)); simpl;
    (eapply extends_trans; [apply extends_emit |]);
    match goal with |- extends ?x _ => exists [EvSend chat (URL a)] end; reflexivity.
Qed.

Lemma sendLoop_extends env user l :
  forall w, extends w (Scheduler.sendLoop env user l w).2.
Proof.
  induction l as [| a rest IH]; intros w; simpl.
  - apply extends_refl.
  - munfold.
    pose proof (send_extends env (TelegramID user) (ID user) a w) as Hs.
    destruct (Scheduler.sendArticleWithFavoriteButton env _ _ a w) as [e w1].
    simpl in Hs. eapply extends_trans; [exact Hs | apply IH].
Qed.

Lemma Update_extends env u t w :
  extends w (Scheduler.UpdateUserLastNotifiedAt env u t w).2.
Proof.
  unfold Scheduler.UpdateUserLastNotifiedAt.
  destruct (userRepoFails env (tick w)); simpl; apply (extends_emit _ w).
Qed.

(** ** The timing gate *)

Lemma notDueYet_forced now user : Scheduler.notDueYet now user true = false.
Proof. reflexivity. Qed.

Lemma notDueYet_scheduled now user last :
  LastNotifiedAt user = Some last ->
  Sub now last < Scheduler.intervalOf user ->
  Scheduler.notDueYet now user false = true.
Proof.
  intros Hlast Hlt. unfold Scheduler.notDueYet. rewrite Hlast. simpl.
  apply bool_decide_eq_true_2. exact Hlt.
Qed.

(** A pass whose gate test holds returns 0 and leaves the world as it
    was. *)
Lemma gated_pass_is_noop env now user w :
  Scheduler.notDueYet now user false = true ->
  Scheduler.ProcessUser env now user false w = (0, w).
Proof.
  intros Hgate. unfold Scheduler.ProcessUser. rewrite Hgate. reflexivity.
Qed.

(** A forced pass starts with the subscription read. *)
Lemma forced_pass_reads_subscriptions env now user w :
  exists evs,
    trace (Scheduler.ProcessUser env now user true w).2
    = trace w ++ EvSubscriptions (ID user) :: evs.
Proof.
  apply extends_after.
  unfold Scheduler.ProcessUser. rewrite notDueYet_forced.
  munfold. unfold Scheduler.GetUserSubscriptions.
  set (w0 := emit (EvSubscriptions (ID user)) w).
  destruct (subscriptionsOf env (tick w) (ID user)) as [[| t topics] |];
    try apply extends_refl.
  pose proof (topicsLoop_extends env now (ID user) (t :: topics) [] w0) as Ht.
  destruct (Scheduler.topicsLoop env now (ID user) (t :: topics) [] w0) as [fresh w1].
  simpl in Ht.
  destruct (Z.of_nat (length fresh) =? 0).
  - pose proof (Update_extends env (ID user) now w1) as Hu.
    destruct (Scheduler.UpdateUserLastNotifiedAt env (ID user) now w1) as [e w2].
    simpl in *. eapply extends_trans; eassumption.
  - pose proof (sendLoop_extends env user (Scheduler.articlesToSendOf user fresh) w1) as Hs.
    destruct (Scheduler.sendLoop env user _ w1) as [[] w2].
    pose proof (Update_extends env (ID user) now w2) as Hu.
    destruct (Scheduler.UpdateUserLastNotifiedAt env (ID user) now w2) as [e w3].
    simpl in *. eapply extends_trans; [exact Ht |].
    eapply extends_trans; eassumption.
Qed.

(** Below the overflow point of the interval, the gate's test is the plain
    comparison of the elapsed nanoseconds with the minutes of the interval. *)
Lemma notDueYet_exact now user last :
  LastNotifiedAt user = Some last ->
  (NotificationIntervalMinutes user < 153722867)%N ->
  Scheduler.notDueYet now user false = true
  <-> now - last < Z.of_N (NotificationIntervalMinutes user) * Minute.
Proof.
  intros Hlast Hsmall. unfold Scheduler.notDueYet. rewrite Hlast. simpl.
  rewrite bool_decide_eq_true, (intervalOf_exact user Hsmall).
  apply Sub_lt_iff.
  assert (Hmin : Minute = 60000000000) by reflexivity.
  rewrite Hmin. unfold minInt64, maxInt64. lia.
Qed.

(** An interval whose nanoseconds fit a [time.Duration] is computed
    exactly: neither the conversion nor the multiplication wraps. *)
Lemma intervalOf_fits user :
  Z.of_N (NotificationIntervalMinutes user) * Minute <= maxInt64 ->
  Scheduler.intervalOf user = Z.of_N (NotificationIntervalMinutes user) * Minute.
Proof.
  intros Hfits. unfold Scheduler.intervalOf, dmul, int_of_uint.
  assert (Hmin : Minute = 60000000000) by reflexivity.
  rewrite Hmin in *. unfold minInt64, maxInt64 in *.
  rewrite (wrap64_small (Z.of_N _)) by (unfold minInt64, maxInt64; lia).
  apply wrap64_small. unfold minInt64, maxInt64. lia.
Qed.

(** The minutes whose nanoseconds fit: at most 153722867, some 292 years. *)
Lemma interval_fits_iff user :
  Z.of_N (NotificationIntervalMinutes user) * Minute <= maxInt64
  <-> (NotificationIntervalMinutes user <= 153722867)%N.
Proof.
  assert (Hmin : Minute = 60000000000) by reflexivity.
  rewrite Hmin. unfold maxInt64. lia.
Qed.

(** For such an interval the gate's test is the comparison of the elapsed
    time with the interval, whatever the two instants. *)
Lemma notDueYet_iff now user last :
  LastNotifiedAt user = Some last ->
  Z.of_N (NotificationIntervalMinutes user) * Minute <= maxInt64 ->
  Scheduler.notDueYet now user false = true
  <-> now - last < Z.of_N (NotificationIntervalMinutes user) * Minute.
Proof.
  intros Hlast Hfits. unfold Scheduler.notDueYet. rewrite Hlast. simpl.
  rewrite bool_decide_eq_true, (intervalOf_fits user Hfits).
  apply Sub_lt_iff.
  assert (Hmin : Minute = 60000000000) by reflexivity.
  rewrite Hmin in *. unfold minInt64, maxInt64 in *. lia.
Qed.

(** C3: for a user whose interval, in nanoseconds, fits a [time.Duration]
    (at most 153722867 minutes) and whose last notification is less than
    the interval ago, a scheduled pass returns 0 and leaves the world as it
    was: no supplier call is added to the trace, and ledger, fallback map,
    user table and sink are untouched.  A forced pass is not gated, whatever
    the user and the instants: its timing test is false and its first
    supplier call is the subscription read. *)
Theorem timing_gate env now user w :
  (forall last,
     LastNotifiedAt user = Some last ->
     Z.of_N (NotificationIntervalMinutes user) * Minute <= maxInt64 ->
     now - last < Z.of_N (NotificationIntervalMinutes user) * Minute ->
     Scheduler.ProcessUser env now user false w = (0, w))
  /\ Scheduler.notDueYet now user true = false
  /\ exists evs,
       trace (Scheduler.ProcessUser env now user true w).2
       = trace w ++ EvSubscriptions (ID user) :: evs.
Proof.
  split; [| split].
  - intros last Hlast Hfits Hlt. apply gated_pass_is_noop.
    apply (notDueYet_iff now user last Hlast Hfits). exact Hlt.
  - apply notDueYet_forced.
  - apply forced_pass_reads_subscriptions.
Qed.

Lemma timing_gate_witness :
  LastNotifiedAt Cases.longestInterval = Some 1000
  /\ Z.of_N (NotificationIntervalMinutes Cases.longestInterval) * Minute <= maxInt64
  /\ (1000 + 59 * Minute) - 1000
     < Z.of_N (NotificationIntervalMinutes Cases.longestInterval) * Minute
  /\ Scheduler.ProcessUser Scenario.eightFresh (1000 + 59 * Minute)
       Cases.longestInterval false emptyWorld = (0, emptyWorld).
Proof.
  split; [reflexivity |]. split; [vm_compute; discriminate |].
  split; [vm_compute; reflexivity |].
  apply (proj1 (timing_gate Scenario.eightFresh (1000 + 59 * Minute)
                  Cases.longestInterval emptyWorld) 1000);
    [reflexivity | vm_compute; discriminate | vm_compute; reflexivity].
Defined.

(** One minute more in the interval and its nanoseconds wrap to a negative
    [time.Duration]: a minute after the last notification the scheduled pass
    is not gated, it reads the subscriptions, marks eight articles and
    pushes five. *)
Lemma scheduled_pass_runs_when_interval_overflows :
  LastNotifiedAt Cases.overflowingInterval = Some 1000
  /\ (1000 + Minute) - 1000
     < Z.of_N (NotificationIntervalMinutes Cases.overflowingInterval) * Minute
  /\ Scheduler.intervalOf Cases.overflowingInterval < 0
  /\ Scheduler.ProcessUser Scenario.eightFresh (1000 + Minute)
       Cases.overflowingInterval false emptyWorld <> (0, emptyWorld)
  /\ (Scheduler.ProcessUser Scenario.eightFresh (1000 + Minute)
        Cases.overflowingInterval false emptyWorld).1 = 8
  /\ length (trace (Scheduler.ProcessUser Scenario.eightFresh (1000 + Minute)
                      Cases.overflowingInterval false emptyWorld).2) = 29%nat
  /\ length (ledger (Scheduler.ProcessUser Scenario.eightFresh (1000 + Minute)
                       Cases.overflowingInterval false emptyWorld).2) = 8%nat
  /\ length (sink (Scheduler.ProcessUser Scenario.eightFresh (1000 + Minute)
                     Cases.overflowingInterval false emptyWorld).2) = 5%nat.
Proof.
  split; [reflexivity |]. split; [vm_compute; reflexivity |].
  split; [vm_compute; reflexivity |].
  split; [intros Heq; apply (f_equal fst) in Heq; vm_compute in Heq; discriminate Heq |].
  vm_compute. repeat split.
Qed.

(** A user notified 59 minutes ago with an interval of an hour, forced: the
    pass runs and pushes. *)
Example forced_pass_runs :
  (Scheduler.ProcessUser Scenario.eightFresh (1000 + 59 * Minute)
     Scenario.justNotified true emptyWorld).1 = 8
  /\ length (pushedBy Scenario.eightFresh (1000 + 59 * Minute)
               Scenario.justNotified true emptyWorld) = 5%nat.
Proof. vm_compute. split; reflexivity. Qed.

(** ** What a pass hands to the transport *)

Lemma markArticleAsSent_sink env u a w :
  sink (Scheduler.markArticleAsSent env u a w).2 = sink w.
Proof.
  unfold Scheduler.markArticleAsSent, Repo.MarkArticleAsSent. munfold.
  destruct (ledgerFails env (tick w)); reflexivity.
Qed.

Lemma articlesLoop_sink env now u articles :
  forall fresh w, sink (Scheduler.articlesLoop env now u articles fresh w).2 = sink w.
Proof.
  induction articles as [| a rest IH]; intros fresh w; simpl; [reflexivity |].
  destruct (Scheduler.withinHorizon now a); [| apply IH].
  munfold.
  pose proof (isArticleSent_world env u (URL a) w) as Hw.
  destruct (Scheduler.isArticleSent env u (URL a) w) as [sent w1].
  simpl in Hw. subst w1.
  destruct sent; simpl; [rewrite IH; reflexivity |].
  pose proof (markArticleAsSent_sink env u (URL a) (emit (EvLedgerRead u (URL a)) w)) as Hm.
  destruct (Scheduler.markArticleAsSent env u (URL a) _) as [[] w2].
  simpl in Hm. rewrite IH, Hm. reflexivity.
Qed.

Lemma topicsLoop_sink env now u topics :
  forall fresh w, sink (Scheduler.topicsLoop env now u topics fresh w).2 = sink w.
Proof.
  induction topics as [| t rest IH]; intros fresh w; simpl; [reflexivity |].
  munfold. unfold Scheduler.FetchNews.
  destruct (fetchNews env (tick w) t) as [articles |]; [| rewrite IH; reflexivity].
  pose proof (articlesLoop_sink env now u articles fresh (emit (EvFetch t) w)) as Ha.
  destruct (Scheduler.articlesLoop env now u articles fresh _) as [fresh' w1].
  simpl in Ha. rewrite IH, Ha. reflexivity.
Qed.

Lemma send_sink env user a w :
  exists d,
    sink (Scheduler.sendArticleWithFavoriteButton env (TelegramID user) (ID user) a w).2
    = sink w ++ [d]
    /\ dArticle d = a
    /\ addressedTo user d
    /\ ledger (Scheduler.sendArticleWithFavoriteButton env (TelegramID user) (ID user) a w).2
       = ledger w.
Proof.
  unfold Scheduler.sendArticleWithFavoriteButton, Scheduler.IsFavoriteArticle,
    Scheduler.botSend. munfold.
  destruct (favoriteOf env (tick w) (ID user) (URL a)); simpl;
    eexists; (split; [reflexivity |]); repeat split.
Qed.

Lemma sendLoop_sink env user l :
  forall w, exists ds,
    sink (Scheduler.sendLoop env user l w).2 = sink w ++ ds
    /\ map dArticle ds = l
    /\ Forall (addressedTo user) ds
    /\ ledger (Scheduler.sendLoop env user l w).2 = ledger w.
Proof.
  induction l as [| a rest IH]; intros w; simpl.
  - exists []. rewrite app_nil_r. repeat split. constructor.
  - munfold.
    destruct (send_sink env user a w) as (d & Hd & Hart & Haddr & Hled).
    destruct (Scheduler.sendArticleWithFavoriteButton env _ _ a w) as [e w1].
    cbn [fst snd] in *.
    destruct (IH w1) as (ds & Hs & Hm & Hf & Hl).
    exists (d :: ds). rewrite Hs, Hd, <- app_assoc, Hl, Hled. simpl.
    rewrite Hart, Hm. repeat split. constructor; assumption.
Qed.

Lemma Update_sink env u t w :
  sink (Scheduler.UpdateUserLastNotifiedAt env u t w).2 = sink w
  /\ ledger (Scheduler.UpdateUserLastNotifiedAt env u t w).2 = ledger w.
Proof.
  unfold Scheduler.UpdateUserLastNotifiedAt.
  destruct (userRepoFails env (tick w)); split; reflexivity.
Qed.

Lemma articlesToSendOf_nil user : Scheduler.articlesToSendOf user [] = [].
Proof.
  unfold Scheduler.articlesToSendOf. destruct (_ >? _); [apply take_nil | reflexivity].
Qed.

(** One pass, summarised: the count returned is the number of articles the
    fetch loop identified, and the sink grows by one message per article of
    [articlesToSendOf], in order. *)
Lemma ProcessUser_pass env now user force w :
  (Scheduler.ProcessUser env now user force w).1
  = Z.of_nat (length (identifiedFresh env now user force w).1)
  /\ exists ds,
       sink (Scheduler.ProcessUser env now user force w).2 = sink w ++ ds
       /\ map dArticle ds
          = Scheduler.articlesToSendOf user (identifiedFresh env now user force w).1
       /\ Forall (addressedTo user) ds
       /\ ledger (Scheduler.ProcessUser env now user force w).2
          = ledger (identifiedFresh env now user force w).2.
Proof.
  unfold Scheduler.ProcessUser, identifiedFresh.
  destruct (Scheduler.notDueYet now user force).
  { split; [reflexivity |]. exists []. rewrite app_nil_r, articlesToSendOf_nil.
    repeat split. constructor. }
  munfold. unfold Scheduler.GetUserSubscriptions.
  set (w0 := emit (EvSubscriptions (ID user)) w).
  destruct (subscriptionsOf env (tick w) (ID user)) as [[| t topics] |].
  1, 3: split; [reflexivity |]; exists []; rewrite app_nil_r, articlesToSendOf_nil;
        repeat split; constructor.
  pose proof (topicsLoop_sink env now (ID user) (t :: topics) [] w0) as Hsink.
  destruct (Scheduler.topicsLoop env now (ID user) (t :: topics) [] w0) as [fresh w1].
  cbn [fst snd] in *.
  destruct (Z.of_nat (length fresh) =? 0) eqn:Hlen.
  - assert (fresh = []) as -> by (destruct fresh; [reflexivity | simpl in Hlen; lia]).
    destruct (Update_sink env (ID user) now w1) as [Hu Hl].
    destruct (Scheduler.UpdateUserLastNotifiedAt env (ID user) now w1) as [e w2].
    cbn [fst snd] in *. split; [reflexivity |].
    exists []. rewrite app_nil_r, articlesToSendOf_nil, Hu, Hsink.
    repeat split; [constructor | exact Hl].
  - destruct (sendLoop_sink env user (Scheduler.articlesToSendOf user fresh) w1)
      as (ds & Hs & Hm & Hf & Hl).
    destruct (Scheduler.sendLoop env user _ w1) as [[] w2].
    destruct (Update_sink env (ID user) now w2) as [Hu Hl2].
    destruct (Scheduler.UpdateUserLastNotifiedAt env (ID user) now w2) as [e w3].
    cbn [fst snd] in *. split; [reflexivity |].
    exists ds. rewrite Hu, Hs, Hsink, Hl2, Hl. repeat split; assumption.
Qed.

Lemma pushedBy_spec env now user force w :
  map dArticle (pushedBy env now user force w)
  = Scheduler.articlesToSendOf user (identifiedFresh env now user force w).1
  /\ Forall (addressedTo user) (pushedBy env now user force w)
  /\ sink (Scheduler.ProcessUser env now user force w).2
     = sink w ++ pushedBy env now user force w.
Proof.
  destruct (ProcessUser_pass env now user force w) as (_ & ds & Hs & Hm & Hf & _).
  unfold pushedBy. rewrite Hs, drop_app_length. repeat split; assumption.
Qed.

(** ** The cap *)

Lemma newsLimitOf_positive user :
  0 < int_of_uint (NewsLimit user) ->
  Scheduler.newsLimitOf user = int_of_uint (NewsLimit user).
Proof.
  intros Hpos. unfold Scheduler.newsLimitOf.
  destruct (Z.leb_spec (int_of_uint (NewsLimit user)) 0); [lia | reflexivity].
Qed.

Lemma newsLimitOf_default user :
  int_of_uint (NewsLimit user) <= 0 -> Scheduler.newsLimitOf user = 5.
Proof.
  intros Hneg. unfold Scheduler.newsLimitOf.
  destruct (Z.leb_spec (int_of_uint (NewsLimit user)) 0); [reflexivity | lia].
Qed.

Lemma newsLimitOf_pos user : 0 < Scheduler.newsLimitOf user.
Proof.
  unfold Scheduler.newsLimitOf.
  destruct (Z.leb_spec (int_of_uint (NewsLimit user)) 0); lia.
Qed.

Lemma int_of_uint_small n : (n < 2 ^ 63)%N -> int_of_uint n = Z.of_N n.
Proof.
  intros Hn. unfold int_of_uint. apply wrap64_small.
  unfold minInt64, maxInt64.
  assert (Z.of_N n < Z.of_N (2 ^ 63)) by lia.
  change (Z.of_N (2 ^ 63)) with (2 ^ 63) in *. lia.
Qed.

Lemma articlesToSendOf_over user fresh :
  Z.of_nat (length fresh) > Scheduler.newsLimitOf user ->
  Scheduler.articlesToSendOf user fresh = take (Z.to_nat (Scheduler.newsLimitOf user)) fresh
  /\ Z.of_nat (length (Scheduler.articlesToSendOf user fresh)) = Scheduler.newsLimitOf user.
Proof.
  intros Hover. unfold Scheduler.articlesToSendOf.
  destruct (Z.gtb_spec (Z.of_nat (length fresh)) (Scheduler.newsLimitOf user)); [| lia].
  split; [reflexivity |].
  pose proof (newsLimitOf_pos user).
  rewrite length_take. lia.
Qed.

(** C4: when more articles were identified than the limit allows, the
    messages pushed in the pass are exactly the first [limit] identified
    articles, in the order the fetch loop met them.  The limit is the
    configured one when that is positive, and 5 when it is zero (or reads as
    a non-positive [int]); so 8 fresh articles under limit 0 give exactly 5
    messages. *)
Theorem cap_enforcement env now user force w :
  let fresh := (identifiedFresh env now user force w).1 in
  let pushed := map dArticle (pushedBy env now user force w) in
  (Z.of_nat (length fresh) > Scheduler.newsLimitOf user ->
     pushed = take (Z.to_nat (Scheduler.newsLimitOf user)) fresh
     /\ Z.of_nat (length pushed) = Scheduler.newsLimitOf user)
  /\ ((0 < NewsLimit user < 2 ^ 63)%N ->
      (N.of_nat (length fresh) > NewsLimit user)%N ->
      pushed = take (N.to_nat (NewsLimit user)) fresh
      /\ length pushed = N.to_nat (NewsLimit user))
  /\ (int_of_uint (NewsLimit user) <= 0 -> Scheduler.newsLimitOf user = 5)
  /\ (NewsLimit user = 0%N -> length fresh = 8%nat ->
      pushed = take 5 fresh /\ length pushed = 5%nat).
Proof.
  intros fresh pushed.
  destruct (pushedBy_spec env now user force w) as (Hpushed & _ & _).
  fold fresh in Hpushed. fold pushed in Hpushed.
  split; [| split; [| split]].
  - intros Hover. rewrite Hpushed. apply articlesToSendOf_over. exact Hover.
  - intros [Hpos Hsmall] Hover.
    assert (Hlim : Scheduler.newsLimitOf user = Z.of_N (NewsLimit user)).
    { rewrite newsLimitOf_positive; rewrite int_of_uint_small by exact Hsmall;
        [reflexivity | lia]. }
    assert (Hnat : Z.to_nat (Z.of_N (NewsLimit user)) = N.to_nat (NewsLimit user))
      by lia.
    destruct (articlesToSendOf_over user fresh) as [Htake Hlen]; [lia |].
    rewrite Hpushed, Htake, Hlim, Hnat. split; [reflexivity |].
    rewrite Htake, Hlim, Hnat in Hlen. lia.
  - apply newsLimitOf_default.
  - intros Hzero Hlen.
    assert (Hlim : Scheduler.newsLimitOf user = 5)
      by (apply newsLimitOf_default; rewrite Hzero; vm_compute; discriminate).
    destruct (articlesToSendOf_over user fresh) as [Htake Hl]; [lia |].
    rewrite Hpushed, Htake, Hlim. split; [reflexivity |].
    rewrite Htake, Hlim in Hl. lia.
Qed.

Lemma cap_enforcement_witness :
  (NewsLimit (Scenario.mkUser 7 60 None 0) = 0%N
   /\ length (identifiedFresh Scenario.eightFresh Scenario.Day
                (Scenario.mkUser 7 60 None 0) false emptyWorld).1 = 8%nat
   /\ length (map dArticle (pushedBy Scenario.eightFresh Scenario.Day
                (Scenario.mkUser 7 60 None 0) false emptyWorld)) = 5%nat)
  /\ ((0 < NewsLimit Scenario.reader < 2 ^ 63)%N
      /\ (N.of_nat (length (identifiedFresh Scenario.eightFresh Scenario.Day
                              Scenario.reader false emptyWorld).1)
           > NewsLimit Scenario.reader)%N
      /\ map dArticle (pushedBy Scenario.eightFresh Scenario.Day
                         Scenario.reader false emptyWorld)
         = take 5 (Scenario.batch 8 0)).
Proof.
  split.
  - split; [reflexivity |]. split; [vm_compute; reflexivity |].
    destruct (cap_enforcement Scenario.eightFresh Scenario.Day
                (Scenario.mkUser 7 60 None 0) false emptyWorld) as (_ & _ & _ & H).
    apply H; [reflexivity | vm_compute; reflexivity].
  - assert (Hlim : (0 < NewsLimit Scenario.reader < 2 ^ 63)%N)
      by (split; reflexivity).
    assert (Hover : (N.of_nat (length (identifiedFresh Scenario.eightFresh Scenario.Day
                                         Scenario.reader false emptyWorld).1)
                     > NewsLimit Scenario.reader)%N)
      by (vm_compute; reflexivity).
    split; [exact Hlim |]. split; [exact Hover |].
    destruct (cap_enforcement Scenario.eightFresh Scenario.Day
                Scenario.reader false emptyWorld) as (_ & H & _).
    destruct (H Hlim Hover) as [Htake _]. rewrite Htake.
    vm_compute. reflexivity.
Defined.

(** C5: the count returned by a pass is the number of articles the fetch
    loop identified as fresh, whatever was pushed or accepted afterwards;
    there are passes where it exceeds the number of messages pushed, which
    in turn exceeds the number the transport accepted. *)
Theorem return_counts_identified_fresh :
  (forall env now user force w,
     (Scheduler.ProcessUser env now user force w).1
     = Z.of_nat (length (identifiedFresh env now user force w).1))
  /\ (exists env now user force w,
        let pushed := pushedBy env now user force w in
        (0 < length (identifiedFresh env now user force w).1)%nat
        /\ (Scheduler.ProcessUser env now user force w).1 > Z.of_nat (length pushed)
        /\ (length pushed > length (filter (fun d => dAccepted d = true) pushed))%nat).
Proof.
  split.
  - intros env now user force w. apply ProcessUser_pass.
  - exists Scenario.eightFreshLossy, Scenario.Day, (Scenario.mkUser 7 60 None 5),
      false, emptyWorld.
    vm_compute. repeat split; lia.
Qed.

(** ** The staleness filter *)

Lemma newsFilterThreshold_value : Scheduler.newsFilterThreshold = 183 * 86400 * 1000000000.
Proof. reflexivity. Qed.

Lemma withinHorizon_iff now a :
  Scheduler.withinHorizon now a = true
  <-> now - PublishedAt a < Scheduler.newsFilterThreshold.
Proof.
  unfold Scheduler.withinHorizon. rewrite bool_decide_eq_true.
  apply Sub_lt_iff. rewrite newsFilterThreshold_value.
  unfold minInt64, maxInt64. lia.
Qed.

(** The inner loop only appends, and only articles that pass the horizon
    test. *)
Lemma articlesLoop_appends env now u articles :
  forall fresh w, exists added,
    (Scheduler.articlesLoop env now u articles fresh w).1 = fresh ++ added
    /\ Forall (fun a => Scheduler.withinHorizon now a = true) added.
Proof.
  induction articles as [| a rest IH]; intros fresh w; simpl.
  - exists []. rewrite app_nil_r. split; [reflexivity | constructor].
  - destruct (Scheduler.withinHorizon now a) eqn:Hin; [| apply IH].
    munfold.
    destruct (Scheduler.isArticleSent env u (URL a) w) as [[] w1]; simpl; [apply IH |].
    destruct (Scheduler.markArticleAsSent env u (URL a) w1) as [[] w2].
    destruct (IH (fresh ++ [a]) w2) as (added & Heq & Hall).
    exists (a :: added). rewrite Heq, <- app_assoc. split; [reflexivity |].
    constructor; assumption.
Qed.

Lemma topicsLoop_appends env now u topics :
  forall fresh w, exists added,
    (Scheduler.topicsLoop env now u topics fresh w).1 = fresh ++ added
    /\ Forall (fun a => Scheduler.withinHorizon now a = true) added.
Proof.
  induction topics as [| t rest IH]; intros fresh w; simpl.
  - exists []. rewrite app_nil_r. split; [reflexivity | constructor].
  - munfold. unfold Scheduler.FetchNews.
    destruct (fetchNews env (tick w) t) as [articles |]; [| apply IH].
    destruct (articlesLoop_appends env now u articles fresh (emit (EvFetch t) w))
      as (added1 & Heq1 & Hall1).
    destruct (Scheduler.articlesLoop env now u articles fresh _) as [fresh1 w1].
    cbn [fst] in Heq1. subst fresh1.
    destruct (IH (fresh ++ added1) w1) as (added2 & Heq2 & Hall2).
    exists (added1 ++ added2). rewrite Heq2, <- app_assoc. split; [reflexivity |].
    apply Forall_app. split; assumption.
Qed.

Lemma identifiedFresh_withinHorizon env now user force w :
  Forall (fun a => Scheduler.withinHorizon now a = true)
         (identifiedFresh env now user force w).1.
Proof.
  unfold identifiedFresh.
  destruct (Scheduler.notDueYet now user force); [constructor |].
  munfold. unfold Scheduler.GetUserSubscriptions.
  destruct (subscriptionsOf env (tick w) (ID user)) as [topics |]; [| constructor].
  destruct (topicsLoop_appends env now (ID user) topics []
              (emit (EvSubscriptions (ID user)) w)) as (added & Heq & Hall).
  rewrite Heq. exact Hall.
Qed.

Lemma articlesToSendOf_subseteq user fresh :
  Scheduler.articlesToSendOf user fresh ⊆ fresh.
Proof.
  unfold Scheduler.articlesToSendOf. destruct (_ >? _); [| reflexivity].
  apply subseteq_take.
Qed.

(** C9: an article whose publish instant lies 183 days or more before [now]
    is in no message pushed by the pass; an article published less than 183
    days before [now] passes the horizon test, and when the seen-check then
    reports it unseen the loop adds it to the fresh articles of the pass. *)
Theorem staleness_filter env now user force w (a : Article) :
  (Scheduler.newsFilterThreshold <= now - PublishedAt a ->
     a ∉ map dArticle (pushedBy env now user force w))
  /\ (now - PublishedAt a < Scheduler.newsFilterThreshold ->
      Scheduler.withinHorizon now a = true
      /\ forall rest fresh,
           (Scheduler.isArticleSent env (ID user) (URL a) w).1 = false ->
           a ∈ (Scheduler.articlesLoop env now (ID user) (a :: rest) fresh w).1).
Proof.
  split.
  - intros Hold Hin.
    destruct (pushedBy_spec env now user force w) as (Hpushed & _ & _).
    rewrite Hpushed in Hin. apply articlesToSendOf_subseteq in Hin.
    pose proof (identifiedFresh_withinHorizon env now user force w) as Hall.
    rewrite Forall_forall in Hall. apply Hall in Hin.
    apply withinHorizon_iff in Hin. lia.
  - intros Hrecent.
    assert (Hin : Scheduler.withinHorizon now a = true)
      by (apply withinHorizon_iff; exact Hrecent).
    split; [exact Hin |].
    intros rest fresh Hunseen. simpl. rewrite Hin. munfold.
    destruct (Scheduler.isArticleSent env (ID user) (URL a) w) as [sent w1].
    cbn [fst] in Hunseen. subst sent. simpl.
    destruct (Scheduler.markArticleAsSent env (ID user) (URL a) w1) as [[] w2].
    destruct (articlesLoop_appends env now (ID user) rest (fresh ++ [a]) w2)
      as (added & Heq & _).
    rewrite Heq. set_solver.
Qed.

Lemma staleness_filter_witness :
  (Scheduler.newsFilterThreshold
     <= 400 * Scenario.Day
        - PublishedAt (Scenario.mkArticle "https://news.example/old" (200 * Scenario.Day))
   /\ Scenario.mkArticle "https://news.example/old" (200 * Scenario.Day)
        ∉ map dArticle (pushedBy (Scenario.oldAndRecent (400 * Scenario.Day))
                          (400 * Scenario.Day) Scenario.reader true emptyWorld))
  /\ (400 * Scenario.Day
        - PublishedAt (Scenario.mkArticle "https://news.example/recent" (390 * Scenario.Day))
      < Scheduler.newsFilterThreshold
      /\ Scheduler.withinHorizon (400 * Scenario.Day)
           (Scenario.mkArticle "https://news.example/recent" (390 * Scenario.Day)) = true).
Proof.
  split.
  - split; [vm_compute; discriminate |].
    apply (staleness_filter (Scenario.oldAndRecent (400 * Scenario.Day))
             (400 * Scenario.Day) Scenario.reader true emptyWorld).
    vm_compute. discriminate.
  - split; [vm_compute; reflexivity |].
    apply (staleness_filter (Scenario.oldAndRecent (400 * Scenario.Day))
             (400 * Scenario.Day) Scenario.reader true emptyWorld).
    vm_compute. reflexivity.
Defined.

(** Two articles in one pass, end to end: the one published
    200 days ago is not pushed, the one published 10 days ago is. *)
Example staleness_example :
  map (fun d => URL (dArticle d))
      (pushedBy (Scenario.oldAndRecent (400 * Scenario.Day)) (400 * Scenario.Day)
         Scenario.reader true emptyWorld)
  = ["https://news.example/recent"].
Proof. vm_compute. reflexivity. Qed.

(** ** The ledger as seen-set *)

Lemma elem_of_map {A B} (f : A -> B) (l : list A) (y : B) :
  y ∈ map f l <-> exists x, y = f x /\ x ∈ l.
Proof.
  rewrite list_elem_of_In, in_map_iff. split.
  - intros (x & Hx & Hin). exists x. rewrite <- list_elem_of_In in Hin. auto.
  - intros (x & Hx & Hin). exists x. rewrite list_elem_of_In in Hin. auto.
Qed.

Lemma count_positive_iff (P : SentArticle -> Prop) `{!forall r, Decision (P r)} l :
  (Z.of_nat (length (filter P l)) >? 0) = true <-> exists r, r ∈ l /\ P r.
Proof.
  split.
  - intros Hpos. destruct (filter P l) as [| r rest] eqn:Hf; [discriminate |].
    assert (Hin : r ∈ filter P l) by (rewrite Hf; left).
    apply list_elem_of_filter in Hin. exists r. tauto.
  - intros (r & Hin & HP).
    assert (Hf : r ∈ filter P l) by (apply list_elem_of_filter; tauto).
    destruct (filter P l); [inversion Hf | reflexivity].
Qed.

Lemma seen_app u a l k : seen u a l -> seen u a (l ++ k).
Proof. intros (r & Hin & Hr). exists r. split; [set_solver | exact Hr]. Qed.

Lemma seen_last u a l t :
  seen u a (l ++ [{| UserID := u; ArticleHash := a; SentAt := t |}]).
Proof. eexists. split; [apply elem_of_app; right; left | split; reflexivity]. Qed.

(** With a working read, the seen-check is ledger membership. *)
Lemma isArticleSent_ok env u a w :
  ledgerFails env (tick w) = false ->
  (Scheduler.isArticleSent env u a w).1 = true <-> seen u a (ledger w).
Proof.
  intros Hup. unfold Scheduler.isArticleSent, Repo.IsArticleSent. munfold.
  rewrite Hup. cbn [fst snd]. apply count_positive_iff.
Qed.

Lemma isArticleSent_ok_false env u a w :
  ledgerFails env (tick w) = false ->
  (Scheduler.isArticleSent env u a w).1 = false <-> ~ seen u a (ledger w).
Proof.
  intros Hup. rewrite <- (isArticleSent_ok env u a w Hup).
  destruct (Scheduler.isArticleSent env u a w).1; split; congruence.
Qed.

(** ** The public seen-check *)

(** On a failed read the answer is the flag stored for the URL in the
    segment of the pair, whatever its value. *)
Lemma isArticleSent_stored_flag env u a w inner flag :
  ledgerFails env (tick w) = true ->
  sentArticles w !! Scheduler.topicKeyOf u a = Some inner ->
  inner !! a = Some flag ->
  (Scheduler.isArticleSent env u a w).1 = flag.
Proof.
  intros Hdown Hseg Hflag.
  rewrite (isArticleSent_fallback env u a w Hdown).
  unfold Scheduler.cacheFlag. rewrite Hseg, Hflag. reflexivity.
Qed.

(** What a failed ledger write stores: a segment for the pair holding
    [true] for the URL. *)
Lemma recordInCache_stores u a c :
  exists inner,
    Scheduler.recordInCache u a c !! Scheduler.topicKeyOf u a = Some inner
    /\ inner !! a = Some true.
Proof.
  unfold Scheduler.recordInCache. eexists. split.
  - apply lookup_insert_eq.
  - apply lookup_insert_eq.
Qed.

(** C10: the public seen-check never returns an error, and its only
    supplier call is the ledger read.  When the read succeeds the answer is
    whether the ledger holds a row of the pair.  When the read fails the
    failure is swallowed and the answer comes from the fallback map: it is
    the flag the map stores for the URL in the segment of the pair, so
    [true] for a pair that [markArticleAsSent] recorded there on a failed
    write, and [false] when the map has no segment for the pair or the
    segment has no flag for the URL. *)
Theorem IsArticleSent_swallows_read_failure env u a w :
  (Scheduler.IsArticleSent env u a w).1.2 = ErrNil
  /\ (Scheduler.IsArticleSent env u a w).2 = emit (EvLedgerRead u a) w
  /\ (ledgerFails env (tick w) = false ->
      ((Scheduler.IsArticleSent env u a w).1.1 = true <-> seen u a (ledger w)))
  /\ (ledgerFails env (tick w) = true ->
      (Scheduler.IsArticleSent env u a w).1.1
      = Scheduler.cacheFlag (sentArticles w) (Scheduler.topicKeyOf u a) a)
  /\ (ledgerFails env (tick w) = true ->
      forall inner flag,
        sentArticles w !! Scheduler.topicKeyOf u a = Some inner ->
        inner !! a = Some flag ->
        (Scheduler.IsArticleSent env u a w).1.1 = flag)
  /\ (ledgerFails env (tick w) = true ->
      forall env0 w0,
        ledgerFails env0 (tick w0) = true ->
        w = (Scheduler.markArticleAsSent env0 u a w0).2 ->
        (Scheduler.IsArticleSent env u a w).1.1 = true)
  /\ (ledgerFails env (tick w) = true ->
      sentArticles w !! Scheduler.topicKeyOf u a = None ->
      (Scheduler.IsArticleSent env u a w).1.1 = false)
  /\ (ledgerFails env (tick w) = true ->
      (forall inner, sentArticles w !! Scheduler.topicKeyOf u a = Some inner ->
                     inner !! a = None) ->
      (Scheduler.IsArticleSent env u a w).1.1 = false).
Proof.
  rewrite IsArticleSent_unfold. cbn [fst snd].
  split; [reflexivity |]. split; [reflexivity |].
  split; [apply isArticleSent_ok |].
  split; [apply isArticleSent_fallback |].
  split; [| split; [| split]].
  - intros Hdown inner flag Hseg Hflag.
    exact (isArticleSent_stored_flag env u a w inner flag Hdown Hseg Hflag).
  - intros Hdown env0 w0 Hdown0 ->.
    destruct (recordInCache_stores u a (sentArticles w0)) as (inner & Hseg & Hflag).
    apply (isArticleSent_stored_flag env u a _ inner true Hdown); [| exact Hflag].
    rewrite (markArticleAsSent_fallback env0 u a w0 Hdown0). exact Hseg.
  - intros Hdown Hnone. rewrite isArticleSent_fallback by exact Hdown.
    unfold Scheduler.cacheFlag. rewrite Hnone. reflexivity.
  - intros Hdown Hinner. rewrite isArticleSent_fallback by exact Hdown.
    unfold Scheduler.cacheFlag.
    destruct (sentArticles w !! Scheduler.topicKeyOf u a) as [inner |] eqn:Hk;
      [| reflexivity].
    rewrite (Hinner inner eq_refl). reflexivity.
Qed.

Lemma IsArticleSent_swallows_read_failure_witness :
  ledgerFails Scenario.ledgerDown (tick Cases.flaggedOnce) = true
  /\ ledgerFails Scenario.ledgerDown (tick emptyWorld) = true
  /\ Cases.flaggedOnce
     = (Scheduler.markArticleAsSent Scenario.ledgerDown 7 Scenario.someURL emptyWorld).2
  /\ sentArticles Cases.flaggedOnce !! Scheduler.topicKeyOf 7 Scenario.someURL
     = Some {[ Scenario.someURL := true ]}
  /\ (Scheduler.IsArticleSent Scenario.ledgerDown 7 Scenario.someURL Cases.flaggedOnce).1
     = (true, ErrNil)
  /\ sentArticles emptyWorld !! Scheduler.topicKeyOf 7 Scenario.someURL = None
  /\ (Scheduler.IsArticleSent Scenario.ledgerDown 7 Scenario.someURL emptyWorld).1
     = (false, ErrNil).
Proof.
  destruct (IsArticleSent_swallows_read_failure
              Scenario.ledgerDown 7 Scenario.someURL Cases.flaggedOnce)
    as (Herr1 & _ & _ & _ & Hflag & Hmarked & _ & _).
  destruct (IsArticleSent_swallows_read_failure
              Scenario.ledgerDown 7 Scenario.someURL emptyWorld)
    as (Herr0 & _ & _ & _ & _ & _ & Hnone & _).
  assert (Hseg : sentArticles Cases.flaggedOnce !! Scheduler.topicKeyOf 7 Scenario.someURL
                 = Some {[ Scenario.someURL := true ]}).
  { vm_compute. reflexivity. }
  split; [reflexivity |]. split; [reflexivity |]. split; [reflexivity |].
  split; [exact Hseg |]. split; [| split; [reflexivity |]].
  - specialize (Hflag eq_refl _ true Hseg (lookup_singleton_eq _ _)).
    specialize (Hmarked eq_refl Scenario.ledgerDown emptyWorld eq_refl eq_refl).
    destruct (Scheduler.IsArticleSent Scenario.ledgerDown 7 Scenario.someURL
                Cases.flaggedOnce) as [[b e] w'].
    simpl in *. rewrite Herr1, Hflag. reflexivity.
  - specialize (Hnone eq_refl eq_refl).
    destruct (Scheduler.IsArticleSent Scenario.ledgerDown 7 Scenario.someURL emptyWorld)
      as [[b e] w'].
    simpl in *. rewrite Herr0, Hnone. reflexivity.
Defined.

(** The two marking operations only append rows to the ledger, all of them
    rows of the pair. *)
Lemma markArticleAsSent_ledger env u a w :
  exists rows, ledger (Scheduler.markArticleAsSent env u a w).2 = ledger w ++ rows
    /\ Forall (Repo.rowMatches u a) rows
    /\ (ledgerFails env (tick w) = false ->
        rows = [{| UserID := u; ArticleHash := a; SentAt := clock env (tick w) |}]).
Proof.
  unfold Scheduler.markArticleAsSent, Repo.MarkArticleAsSent. munfold.
  destruct (ledgerFails env (tick w)); simpl.
  - exists []. rewrite app_nil_r. split; [reflexivity |].
    split; [constructor | discriminate].
  - eexists. split; [reflexivity |]. split; [| reflexivity].
    constructor; [split; reflexivity | constructor].
Qed.

Lemma MarkArticleAsSent_ledger env u a w :
  (exists rows, ledger (Scheduler.MarkArticleAsSent env u a w).2 = ledger w ++ rows
                /\ Forall (Repo.rowMatches u a) rows)
  /\ ((Scheduler.MarkArticleAsSent env u a w).1 = ErrNil ->
      seen u a (ledger (Scheduler.MarkArticleAsSent env u a w).2)).
Proof.
  unfold Scheduler.MarkArticleAsSent, Repo.MarkArticleAsSent. munfold.
  destruct (ledgerFails env (tick w)); cbn [fst snd].
  - split; [exists []; rewrite app_nil_r; split; [reflexivity | constructor]
           | discriminate].
  - match goal with |- context [Scheduler.markArticleAsSent env u a ?w1] =>
      destruct (markArticleAsSent_ledger env u a w1) as (rows & Hrows & Hall & _);
      destruct (Scheduler.markArticleAsSent env u a w1) as [[] w2] end.
    cbn [fst snd] in *. rewrite Hrows. cbn [ledger setLedger emit].
    split.
    + eexists. rewrite <- app_assoc. split; [reflexivity |].
      constructor; [split; reflexivity | exact Hall].
    + intros _. apply seen_app, seen_last.
Qed.

(** Rows added for a pair the ledger already holds change no seen-check. *)
Lemma seen_app_duplicates u a l rows :
  seen u a l -> Forall (Repo.rowMatches u a) rows ->
  forall v x, seen v x (l ++ rows) <-> seen v x l.
Proof.
  intros Hseen Hall v x. split; [| apply seen_app].
  intros (r & Hin & Hr). apply elem_of_app in Hin as [Hin | Hin].
  - exists r. split; assumption.
  - rewrite Forall_forall in Hall. specialize (Hall r Hin).
    destruct Hr as [Hv Hx], Hall as [Hu Ha].
    assert (v = u) as -> by congruence. assert (x = a) as -> by congruence.
    exact Hseen.
Qed.

(** An article the ledger holds is skipped by the filter when the read
    works. *)
Lemma articlesLoop_skips_seen env now u article fresh w :
  ledgerFails env (tick w) = false ->
  seen u (URL article) (ledger w) ->
  (Scheduler.articlesLoop env now u [article] fresh w).1 = fresh.
Proof.
  intros Hup Hseen. simpl.
  destruct (Scheduler.withinHorizon now article); [| reflexivity].
  munfold.
  apply (isArticleSent_ok env u (URL article) w Hup) in Hseen.
  destruct (Scheduler.isArticleSent env u (URL article) w) as [sent w1].
  cbn [fst] in Hseen. subst sent. reflexivity.
Qed.

(** C8, as the code has it: after [MarkArticleAsSent] has returned [nil],
    the seen-check returns [true] whenever its ledger read succeeds.  A
    second [MarkArticleAsSent] for the pair, whether its inserts are accepted
    or fail, only appends rows of that pair: the set of pairs the ledger
    holds is unchanged, the seen-check with a working read still returns
    [true], and the filter of the fetch loop still skips an article with
    that URL. *)
Theorem marked_is_seen_when_ledger_read_succeeds env u a w :
  (Scheduler.MarkArticleAsSent env u a w).1 = ErrNil ->
  let w1 := (Scheduler.MarkArticleAsSent env u a w).2 in
  let w2 := (Scheduler.MarkArticleAsSent env u a w1).2 in
  (ledgerFails env (tick w1) = false ->
     (Scheduler.IsArticleSent env u a w1).1 = (true, ErrNil))
  /\ (forall v x, seen v x (ledger w2) <-> seen v x (ledger w1))
  /\ (ledgerFails env (tick w2) = false ->
      (Scheduler.IsArticleSent env u a w2).1 = (true, ErrNil)
      /\ forall now article fresh,
           URL article = a ->
           (Scheduler.articlesLoop env now u [article] fresh w2).1 = fresh).
Proof.
  intros Hmarked w1 w2.
  destruct (MarkArticleAsSent_ledger env u a w) as [_ Hseen1].
  specialize (Hseen1 Hmarked). fold w1 in Hseen1.
  destruct (MarkArticleAsSent_ledger env u a w1) as [(rows & Hrows & Hall) _].
  fold w2 in Hrows.
  assert (Hseen2 : seen u a (ledger w2)) by (rewrite Hrows; apply seen_app, Hseen1).
  split; [| split].
  - intros Hup. rewrite IsArticleSent_unfold. cbn [fst].
    apply (isArticleSent_ok env u a w1 Hup) in Hseen1. rewrite Hseen1. reflexivity.
  - intros v x. rewrite Hrows. apply (seen_app_duplicates u a); assumption.
  - intros Hup. split.
    + rewrite IsArticleSent_unfold. cbn [fst].
      apply (isArticleSent_ok env u a w2 Hup) in Hseen2. rewrite Hseen2. reflexivity.
    + intros now article fresh Hurl. subst a.
      apply articlesLoop_skips_seen; assumption.
Qed.

Lemma marked_is_seen_when_ledger_read_succeeds_witness :
  (Scheduler.MarkArticleAsSent Scenario.eightFresh 7 Scenario.someURL emptyWorld).1 = ErrNil
  /\ (Scheduler.IsArticleSent Scenario.eightFresh 7 Scenario.someURL
        (Scheduler.MarkArticleAsSent Scenario.eightFresh 7 Scenario.someURL emptyWorld).2).1
     = (true, ErrNil).
Proof.
  split; [reflexivity |].
  apply (marked_is_seen_when_ledger_read_succeeds
           Scenario.eightFresh 7 Scenario.someURL emptyWorld); reflexivity.
Defined.

(** C8, as stated, fails: [MarkArticleAsSent] returns [nil] (both inserts
    succeed, the fallback map stays empty), the ledger read of the seen-check
    that follows fails, and the seen-check answers [false]; the filter then
    takes the article as fresh. *)
Lemma marked_not_seen_on_read_failure :
  (Scheduler.MarkArticleAsSent Scenario.ledgerDownFrom2 7 Scenario.someURL emptyWorld).1
  = ErrNil
  /\ (Scheduler.IsArticleSent Scenario.ledgerDownFrom2 7 Scenario.someURL
        (Scheduler.MarkArticleAsSent Scenario.ledgerDownFrom2 7 Scenario.someURL
           emptyWorld).2).1
     = (false, ErrNil)
  /\ (Scheduler.articlesLoop Scenario.ledgerDownFrom2 0 7
        [Scenario.mkArticle Scenario.someURL 0] []
        (Scheduler.MarkArticleAsSent Scenario.ledgerDownFrom2 7 Scenario.someURL
           emptyWorld).2).1
     = [Scenario.mkArticle Scenario.someURL 0].
Proof. vm_compute. repeat split. Qed.

(** ** Deduplication with a working ledger *)

Section Dedup.
Variable env : Env.
Hypothesis ledger_up : forall n, ledgerFails env n = false.

Lemma addsFresh_nil u w w' :
  (forall v x, seen v x (ledger w) -> seen v x (ledger w')) -> addsFresh u w w' [].
Proof.
  intros Hmono. repeat split; [constructor | | | exact Hmono];
    intros a Ha; inversion Ha.
Qed.

Lemma addsFresh_app u w1 w2 w3 l1 l2 :
  addsFresh u w1 w2 l1 -> addsFresh u w2 w3 l2 -> addsFresh u w1 w3 (l1 ++ l2).
Proof.
  intros (Hnd1 & Hnew1 & Hin1 & Hmono1) (Hnd2 & Hnew2 & Hin2 & Hmono2).
  repeat split.
  - rewrite map_app. apply NoDup_app. split; [exact Hnd1 |]. split; [| exact Hnd2].
    intros x Hx1 Hx2.
    apply elem_of_map in Hx1 as (a1 & -> & Ha1).
    apply elem_of_map in Hx2 as (a2 & Heq & Ha2).
    apply (Hnew2 a2 Ha2). rewrite <- Heq. apply Hin1, Ha1.
  - intros a Ha Hseen. apply elem_of_app in Ha as [Ha | Ha].
    + exact (Hnew1 a Ha Hseen).
    + exact (Hnew2 a Ha (Hmono1 _ _ Hseen)).
  - intros a Ha. apply elem_of_app in Ha as [Ha | Ha].
    + apply Hmono2, Hin1, Ha.
    + apply Hin2, Ha.
  - intros v x Hseen. apply Hmono2, Hmono1, Hseen.
Qed.

Lemma addsFresh_same_ledger u w1 w1' w2 w2' l :
  ledger w1 = ledger w1' -> ledger w2 = ledger w2' ->
  addsFresh u w1 w2 l -> addsFresh u w1' w2' l.
Proof. unfold addsFresh. intros -> ->. tauto. Qed.

Lemma articlesLoop_dedup now u articles :
  forall fresh w, exists added,
    (Scheduler.articlesLoop env now u articles fresh w).1 = fresh ++ added
    /\ addsFresh u w (Scheduler.articlesLoop env now u articles fresh w).2 added.
Proof.
  induction articles as [| a rest IH]; intros fresh w; simpl.
  - exists []. rewrite app_nil_r. split; [reflexivity |]. apply addsFresh_nil. auto.
  - destruct (Scheduler.withinHorizon now a); [| apply IH].
    munfold.
    pose proof (isArticleSent_ok_false env u (URL a) w (ledger_up _)) as Hcheck.
    pose proof (isArticleSent_world env u (URL a) w) as Hw.
    destruct (Scheduler.isArticleSent env u (URL a) w) as [sent w1].
    cbn [fst snd] in *. subst w1. set (w1 := emit (EvLedgerRead u (URL a)) w).
    destruct sent; cbn [negb].
    + destruct (IH fresh w1) as (added & Heq & Hadds).
      exists added. split; [exact Heq |].
      eapply addsFresh_same_ledger; [| | exact Hadds]; reflexivity.
    + destruct (markArticleAsSent_ledger env u (URL a) w1) as (rows & Hrows & _ & Hrow).
      specialize (Hrow (ledger_up _)). subst rows.
      destruct (Scheduler.markArticleAsSent env u (URL a) w1) as [[] w2].
      cbn [fst snd] in *.
      destruct (IH (fresh ++ [a]) w2) as (added & Heq & Hadds).
      exists ([a] ++ added). rewrite Heq, <- app_assoc. split; [reflexivity |].
      apply (addsFresh_app u w w2); [| exact Hadds].
      repeat split.
      * simpl. apply NoDup_singleton.
      * intros b Hb. apply list_elem_of_singleton in Hb as ->.
        apply Hcheck. reflexivity.
      * intros b Hb. apply list_elem_of_singleton in Hb as ->.
        rewrite Hrows. apply seen_last.
      * intros v x Hseen. rewrite Hrows. apply seen_app. exact Hseen.
Qed.

Lemma topicsLoop_dedup now u topics :
  forall fresh w, exists added,
    (Scheduler.topicsLoop env now u topics fresh w).1 = fresh ++ added
    /\ addsFresh u w (Scheduler.topicsLoop env now u topics fresh w).2 added.
Proof.
  induction topics as [| t rest IH]; intros fresh w; simpl.
  - exists []. rewrite app_nil_r. split; [reflexivity |]. apply addsFresh_nil. auto.
  - munfold. unfold Scheduler.FetchNews.
    set (w0 := emit (EvFetch t) w).
    destruct (fetchNews env (tick w) t) as [articles |].
    + destruct (articlesLoop_dedup now u articles fresh w0) as (added1 & Heq1 & Hadds1).
      destruct (Scheduler.articlesLoop env now u articles fresh w0) as [fresh1 w1].
      cbn [fst snd] in *. subst fresh1.
      destruct (IH (fresh ++ added1) w1) as (added2 & Heq2 & Hadds2).
      exists (added1 ++ added2). rewrite Heq2, <- app_assoc. split; [reflexivity |].
      apply (addsFresh_app u w w1); [| exact Hadds2].
      eapply addsFresh_same_ledger; [| | exact Hadds1]; reflexivity.
    + destruct (IH fresh w0) as (added & Heq & Hadds).
      exists added. split; [exact Heq |].
      eapply addsFresh_same_ledger; [| | exact Hadds]; reflexivity.
Qed.

Lemma identifiedFresh_dedup now user force w :
  addsFresh (ID user) w (identifiedFresh env now user force w).2
            (identifiedFresh env now user force w).1.
Proof.
  unfold identifiedFresh.
  destruct (Scheduler.notDueYet now user force); [apply addsFresh_nil; auto |].
  munfold. unfold Scheduler.GetUserSubscriptions.
  set (w0 := emit (EvSubscriptions (ID user)) w).
  destruct (subscriptionsOf env (tick w) (ID user)) as [topics |];
    [| apply addsFresh_nil; auto].
  destruct (topicsLoop_dedup now (ID user) topics [] w0) as (added & Heq & Hadds).
  rewrite Heq. simpl.
  eapply addsFresh_same_ledger; [| | exact Hadds]; reflexivity.
Qed.

Lemma NoDup_map_take {A B} (f : A -> B) n (l : list A) :
  NoDup (map f l) -> NoDup (map f (take n l)).
Proof.
  intros Hnd. rewrite <- firstn_map.
  eapply sublist_NoDup; [exact Hnd | apply sublist_take].
Qed.

Lemma articlesToSendOf_NoDup user fresh :
  NoDup (map URL fresh) -> NoDup (map URL (Scheduler.articlesToSendOf user fresh)).
Proof.
  intros Hnd. unfold Scheduler.articlesToSendOf.
  destruct (_ >? _); [apply NoDup_map_take |]; exact Hnd.
Qed.

Lemma urlsFor_app u s1 s2 : urlsFor u (s1 ++ s2) = urlsFor u s1 ++ urlsFor u s2.
Proof. unfold urlsFor. rewrite filter_app, map_app. reflexivity. Qed.

Lemma urlsFor_addressed user ds :
  Forall (addressedTo user) ds ->
  forall u, urlsFor u ds = if decide (u = ID user) then map URL (map dArticle ds) else [].
Proof.
  intros Hall u. unfold urlsFor.
  induction Hall as [| d ds [Hd _] _ IH]; [destruct (decide _); reflexivity |].
  rewrite filter_cons. destruct (decide (u = ID user)) as [-> | Hne].
  - rewrite decide_True by exact Hd. simpl. rewrite IH. reflexivity.
  - rewrite decide_False by congruence. exact IH.
Qed.

Lemma sinkRecorded_empty w : sink w = [] -> sinkRecorded w.
Proof.
  intros Hs u. rewrite Hs. split; [constructor |]. intros x Hx. inversion Hx.
Qed.

Lemma ProcessUser_sinkRecorded now user force w :
  sinkRecorded w -> sinkRecorded (Scheduler.ProcessUser env now user force w).2.
Proof.
  intros Hinv u.
  destruct (ProcessUser_pass env now user force w) as (_ & ds & Hs & Hm & Haddr & Hl).
  destruct (identifiedFresh_dedup now user force w) as (Hnd & Hnew & Hin & Hmono).
  destruct (Hinv u) as [Hold Hrec].
  rewrite Hs, urlsFor_app, (urlsFor_addressed user ds Haddr u), Hl, Hm.
  destruct (decide (u = ID user)) as [-> | Hne].
  - split.
    + apply NoDup_app. split; [exact Hold |].
      split; [| apply articlesToSendOf_NoDup, Hnd].
      intros x Hx Hx'. apply elem_of_map in Hx' as (a & -> & Ha).
      apply articlesToSendOf_subseteq in Ha.
      exact (Hnew a Ha (Hrec _ Hx)).
    + intros x Hx. apply elem_of_app in Hx as [Hx | Hx].
      * apply Hmono, Hrec, Hx.
      * apply elem_of_map in Hx as (a & -> & Ha).
        apply articlesToSendOf_subseteq in Ha. apply Hin, Ha.
  - rewrite app_nil_r. split; [exact Hold |].
    intros x Hx. apply Hmono, Hrec, Hx.
Qed.

Lemma runCalls_sinkRecorded calls :
  forall w, sinkRecorded w -> sinkRecorded (runCalls env calls w).2.
Proof.
  induction calls as [| c rest IH]; intros w Hinv; simpl; [exact Hinv |].
  pose proof (ProcessUser_sinkRecorded (cNow c) (cUser c) (cForce c) w Hinv) as H1.
  destruct (Scheduler.ProcessUser env (cNow c) (cUser c) (cForce c) w) as [n w1].
  specialize (IH w1 H1).
  destruct (runCalls env rest w1) as [ns w2]. exact IH.
Qed.

End Dedup.

Lemma acceptedUrlsFor_sublist u s : acceptedUrlsFor u s `sublist_of` urlsFor u s.
Proof.
  unfold acceptedUrlsFor, urlsFor. induction s as [| d s IH]; [constructor |].
  rewrite !filter_cons.
  destruct (decide (dUser d = u)) as [Hu | Hu].
  - destruct (decide (dUser d = u /\ dAccepted d = true)); simpl.
    + apply sublist_skip, IH.
    + apply sublist_cons, IH.
  - rewrite decide_False by tauto. exact IH.
Qed.

(** C1: with a ledger that answers every call, whatever the calls of
    [ProcessUser] made one after the other (any users, forced or scheduled,
    any instants, any subscriptions and fetch results), no URL is pushed
    twice for the same user, neither within a pass (the same article
    returned for two topics) nor across passes; so no URL is accepted twice
    by the transport either. *)
Theorem delivered_at_most_once env (calls : list Call) (w0 : World) (u : N) :
  (forall n, ledgerFails env n = false) ->
  sink w0 = [] ->
  NoDup (urlsFor u (sink (runCalls env calls w0).2))
  /\ NoDup (acceptedUrlsFor u (sink (runCalls env calls w0).2))
  /\ forall now user force w,
       NoDup (map URL (map dArticle (pushedBy env now user force w))).
Proof.
  intros Hup Hempty.
  assert (Hnd : NoDup (urlsFor u (sink (runCalls env calls w0).2))).
  { apply (runCalls_sinkRecorded env Hup calls w0 (sinkRecorded_empty w0 Hempty) u). }
  split; [exact Hnd |]. split.
  - eapply sublist_NoDup; [exact Hnd | apply acceptedUrlsFor_sublist].
  - intros now user force w.
    destruct (pushedBy_spec env now user force w) as (Hpushed & _ & _).
    rewrite Hpushed. apply articlesToSendOf_NoDup.
    apply (identifiedFresh_dedup env Hup now user force w).
Qed.

Lemma delivered_at_most_once_witness :
  (forall n, ledgerFails Scenario.sameViaTwoTopics n = false)
  /\ sink emptyWorld = []
  /\ NoDup (urlsFor 7 (sink (runCalls Scenario.sameViaTwoTopics Scenario.twoPasses
                               emptyWorld).2)).
Proof.
  split; [intros n; reflexivity |]. split; [reflexivity |].
  apply (delivered_at_most_once Scenario.sameViaTwoTopics Scenario.twoPasses
           emptyWorld 7 (fun n => eq_refl) eq_refl).
Defined.

(** The same article returned for both topics, two passes: both passes run
    the fetch loop, the first identifies the article once, the second not at
    all, and the article is pushed once. *)
Example two_topics_two_passes :
  (runCalls Scenario.sameViaTwoTopics Scenario.twoPasses emptyWorld).1 = [1; 0]
  /\ urlsFor 7 (sink (runCalls Scenario.sameViaTwoTopics Scenario.twoPasses emptyWorld).2)
     = [Scenario.someURL].
Proof. vm_compute. split; reflexivity. Qed.

(** * Further properties of the scheduler *)

(** ** What a pass writes to the ledger *)

Lemma seen_snoc v x l u a t :
  seen v x (l ++ [{| UserID := u; ArticleHash := a; SentAt := t |}])
  <-> seen v x l \/ (v = u /\ x = a).
Proof.
  split.
  - intros (r & Hin & Hv & Hx). apply elem_of_app in Hin as [Hin | Hin].
    + left. exists r. repeat split; assumption.
    + apply list_elem_of_singleton in Hin. subst r. simpl in *. right. auto.
  - intros [Hseen | [-> ->]]; [apply seen_app, Hseen | apply seen_last].
Qed.

Section LedgerUp.
Variable env : Env.
Hypothesis ledger_up : forall n, ledgerFails env n = false.

(** With a working ledger the inner loop marks exactly what it adds, for
    the processed user only, and leaves every article of the topic that is
    within the horizon marked. *)
Lemma articlesLoop_marks now u articles :
  forall fresh w, exists added,
    (Scheduler.articlesLoop env now u articles fresh w).1 = fresh ++ added
    /\ (forall v x,
          seen v x (ledger (Scheduler.articlesLoop env now u articles fresh w).2)
          <-> seen v x (ledger w) \/ (v = u /\ x ∈ map URL added))
    /\ (forall a, a ∈ articles -> Scheduler.withinHorizon now a = true ->
          seen u (URL a) (ledger (Scheduler.articlesLoop env now u articles fresh w).2)).
Proof.
  induction articles as [| a rest IH]; intros fresh w; simpl.
  - exists []. rewrite app_nil_r. split; [reflexivity |]. split.
    + intros v x. split; [auto | intros [H | [_ H]]; [exact H | inversion H]].
    + intros b Hb. inversion Hb.
  - destruct (Scheduler.withinHorizon now a) eqn:Hin.
    2:{ destruct (IH fresh w) as (added & Heq & Hiff & Hall).
        exists added. split; [exact Heq |]. split; [exact Hiff |].
        intros b Hb Hwithin. apply elem_of_cons in Hb as [-> | Hb];
          [congruence | apply Hall; assumption]. }
    munfold.
    pose proof (isArticleSent_ok env u (URL a) w (ledger_up _)) as Hcheck.
    pose proof (isArticleSent_world env u (URL a) w) as Hw.
    destruct (Scheduler.isArticleSent env u (URL a) w) as [sent w1].
    cbn [fst snd] in *. subst w1. set (w1 := emit (EvLedgerRead u (URL a)) w).
    destruct sent; cbn [negb].
    + destruct (IH fresh w1) as (added & Heq & Hiff & Hall).
      exists added. split; [exact Heq |]. split; [exact Hiff |].
      intros b Hb Hwithin. apply elem_of_cons in Hb as [-> | Hb].
      * apply Hiff. left. apply Hcheck. reflexivity.
      * apply Hall; assumption.
    + destruct (markArticleAsSent_ledger env u (URL a) w1) as (rows & Hrows & _ & Hrow).
      specialize (Hrow (ledger_up _)). subst rows.
      destruct (Scheduler.markArticleAsSent env u (URL a) w1) as [[] w2].
      cbn [fst snd] in *.
      destruct (IH (fresh ++ [a]) w2) as (added & Heq & Hiff & Hall).
      exists (a :: added). rewrite Heq, <- app_assoc. split; [reflexivity |].
      split.
      * intros v x. rewrite Hiff, Hrows, seen_snoc. simpl.
        rewrite elem_of_cons. change (ledger w1) with (ledger w). tauto.
      * intros b Hb Hwithin. apply elem_of_cons in Hb as [-> | Hb].
        -- apply Hiff. left. rewrite Hrows. apply seen_last.
        -- apply Hall; assumption.
Qed.

Section Stationary.
(** The source answers a topic the same way whenever it is asked. *)
Variable answers : string -> option (list Article).
Hypothesis stationary : forall n topic, fetchNews env n topic = answers topic.

Lemma topicsLoop_marks now u topics :
  forall fresh w, exists added,
    (Scheduler.topicsLoop env now u topics fresh w).1 = fresh ++ added
    /\ (forall v x,
          seen v x (ledger (Scheduler.topicsLoop env now u topics fresh w).2)
          <-> seen v x (ledger w) \/ (v = u /\ x ∈ map URL added))
    /\ (forall t arts a,
          t ∈ topics -> answers t = Some arts -> a ∈ arts ->
          Scheduler.withinHorizon now a = true ->
          seen u (URL a) (ledger (Scheduler.topicsLoop env now u topics fresh w).2)).
Proof.
  induction topics as [| t0 rest IH]; intros fresh w; simpl.
  - exists []. rewrite app_nil_r. split; [reflexivity |]. split.
    + intros v x. split; [auto | intros [H | [_ H]]; [exact H | inversion H]].
    + intros t arts a Ht. inversion Ht.
  - munfold. unfold Scheduler.FetchNews. rewrite stationary.
    set (w0 := emit (EvFetch t0) w).
    destruct (answers t0) as [articles |] eqn:Hans.
    + destruct (articlesLoop_marks now u articles fresh w0) as (added1 & Heq1 & Hiff1 & Hall1).
      destruct (Scheduler.articlesLoop env now u articles fresh w0) as [fresh1 w1].
      cbn [fst snd] in *. subst fresh1.
      destruct (IH (fresh ++ added1) w1) as (added2 & Heq2 & Hiff2 & Hall2).
      exists (added1 ++ added2). rewrite Heq2, <- app_assoc. split; [reflexivity |].
      split.
      * intros v x. rewrite Hiff2, Hiff1, map_app, elem_of_app.
        change (ledger w0) with (ledger w). tauto.
      * intros t arts a Ht Harts Ha Hwithin.
        apply elem_of_cons in Ht as [-> | Ht].
        -- apply Hiff2. left. apply Hall1; [| exact Hwithin].
           rewrite Hans in Harts. injection Harts as <-. exact Ha.
        -- eapply Hall2; eassumption.
    + destruct (IH fresh w0) as (added & Heq & Hiff & Hall).
      exists added. split; [exact Heq |]. split; [exact Hiff |].
      intros t arts a Ht Harts Ha Hwithin.
      apply elem_of_cons in Ht as [-> | Ht]; [congruence |].
      eapply Hall; eassumption.
Qed.

End Stationary.
End LedgerUp.

Lemma topicsLoop_ledger env now u topics :
  (forall n, ledgerFails env n = false) ->
  forall fresh w, exists added,
    (Scheduler.topicsLoop env now u topics fresh w).1 = fresh ++ added
    /\ (forall v x,
          seen v x (ledger (Scheduler.topicsLoop env now u topics fresh w).2)
          <-> seen v x (ledger w) \/ (v = u /\ x ∈ map URL added)).
Proof.
  intros Hup.
  induction topics as [| t0 rest IH]; intros fresh w; simpl.
  - exists []. rewrite app_nil_r. split; [reflexivity |].
    intros v x. split; [auto | intros [H | [_ H]]; [exact H | inversion H]].
  - munfold. unfold Scheduler.FetchNews.
    set (w0 := emit (EvFetch t0) w).
    destruct (fetchNews env (tick w) t0) as [articles |].
    + destruct (articlesLoop_marks env Hup now u articles fresh w0)
        as (added1 & Heq1 & Hiff1 & _).
      destruct (Scheduler.articlesLoop env now u articles fresh w0) as [fresh1 w1].
      cbn [fst snd] in *. subst fresh1.
      destruct (IH (fresh ++ added1) w1) as (added2 & Heq2 & Hiff2).
      exists (added1 ++ added2). rewrite Heq2, <- app_assoc. split; [reflexivity |].
      intros v x. rewrite Hiff2, Hiff1, map_app, elem_of_app.
      change (ledger w0) with (ledger w). tauto.
    + destruct (IH fresh w0) as (added & Heq & Hiff).
      exists added. split; [exact Heq |]. exact Hiff.
Qed.

Lemma ProcessUser_marks env now user force w :
  (forall n, ledgerFails env n = false) ->
  forall v x,
    seen v x (ledger (Scheduler.ProcessUser env now user force w).2)
    <-> seen v x (ledger w)
        \/ (v = ID user /\ x ∈ map URL (identifiedFresh env now user force w).1).
Proof.
  intros Hup v x.
  destruct (ProcessUser_pass env now user force w) as (_ & _ & _ & _ & _ & Hl).
  rewrite Hl. unfold identifiedFresh.
  destruct (Scheduler.notDueYet now user force).
  { simpl. split; [auto | intros [H | [_ H]]; [exact H | inversion H]]. }
  munfold. unfold Scheduler.GetUserSubscriptions.
  destruct (subscriptionsOf env (tick w) (ID user)) as [topics |].
  2:{ simpl. split; [auto | intros [H | [_ H]]; [exact H | inversion H]]. }
  destruct (topicsLoop_ledger env now (ID user) topics Hup []
              (emit (EvSubscriptions (ID user)) w)) as (added & Heq & Hiff).
  rewrite Heq. simpl. rewrite Hiff. reflexivity.
Qed.

(** With a working ledger, a pass adds to the ledger exactly the URLs of the
    articles it identified as fresh, all for the processed user: whatever
    was seen stays seen, nothing is marked for another user, and every
    identified article is marked whether or not it was pushed or accepted. *)
Theorem pass_marks_exactly_identified env now user force w :
  (forall n, ledgerFails env n = false) ->
  forall v x,
    seen v x (ledger (Scheduler.ProcessUser env now user force w).2)
    <-> seen v x (ledger w)
        \/ (v = ID user /\ x ∈ map URL (identifiedFresh env now user force w).1).
Proof. exact (ProcessUser_marks env now user force w). Qed.

Lemma pass_marks_exactly_identified_witness :
  (forall n, ledgerFails Scenario.eightFresh n = false)
  /\ (seen 7 "https://news.example/7"
        (ledger (Scheduler.ProcessUser Scenario.eightFresh Scenario.Day
                   Scenario.reader true emptyWorld).2)
      <-> seen 7 "https://news.example/7" (ledger emptyWorld)
          \/ (7%N = ID Scenario.reader
              /\ "https://news.example/7"
                   ∈ map URL (identifiedFresh Scenario.eightFresh Scenario.Day
                                Scenario.reader true emptyWorld).1)).
Proof.
  split; [intros n; reflexivity |].
  apply (pass_marks_exactly_identified Scenario.eightFresh Scenario.Day
           Scenario.reader true emptyWorld (fun n => eq_refl)).
Defined.

Lemma identifiedFresh_complete
    env (answers : string -> option (list Article)) now user force w topics t arts a :
  (forall n, ledgerFails env n = false) ->
  (forall n topic, fetchNews env n topic = answers topic) ->
  Scheduler.notDueYet now user force = false ->
  subscriptionsOf env (tick w) (ID user) = Some topics ->
  t ∈ topics ->
  answers t = Some arts ->
  a ∈ arts ->
  now - PublishedAt a < Scheduler.newsFilterThreshold ->
  ~ seen (ID user) (URL a) (ledger w) ->
  URL a ∈ map URL (identifiedFresh env now user force w).1.
Proof.
  intros Hup Hstat Hdue Hsubs Ht Hans Ha Hrecent Hunseen.
  unfold identifiedFresh. rewrite Hdue. munfold.
  unfold Scheduler.GetUserSubscriptions. rewrite Hsubs.
  set (w0 := emit (EvSubscriptions (ID user)) w).
  destruct (topicsLoop_marks env Hup answers Hstat now (ID user) topics [] w0)
    as (added & Heq & Hiff & Hall).
  rewrite Heq. simpl.
  assert (Hseen : seen (ID user) (URL a)
                    (ledger (Scheduler.topicsLoop env now (ID user) topics [] w0).2)).
  { eapply Hall; try eassumption. apply withinHorizon_iff. exact Hrecent. }
  apply Hiff in Hseen as [Hold | [_ Hnew]]; [| exact Hnew].
  exfalso. apply Hunseen. exact Hold.
Qed.

(** With a working ledger and a source that answers each topic the same way
    whenever asked, a pass that reaches the fetch loop identifies every
    article that some subscribed topic returns, that is within the horizon
    and whose URL the ledger did not hold for the user: a fetch failure of
    other topics, or the position of the topic in the list, loses nothing. *)
Theorem pass_identifies_every_eligible_article
    env (answers : string -> option (list Article)) now user force w topics t arts a :
  (forall n, ledgerFails env n = false) ->
  (forall n topic, fetchNews env n topic = answers topic) ->
  Scheduler.notDueYet now user force = false ->
  subscriptionsOf env (tick w) (ID user) = Some topics ->
  t ∈ topics ->
  answers t = Some arts ->
  a ∈ arts ->
  now - PublishedAt a < Scheduler.newsFilterThreshold ->
  ~ seen (ID user) (URL a) (ledger w) ->
  URL a ∈ map URL (identifiedFresh env now user force w).1.
Proof. exact (identifiedFresh_complete env answers now user force w topics t arts a). Qed.

Lemma pass_identifies_every_eligible_article_witness :
  (forall n, ledgerFails Cases.sportsDown n = false)
  /\ (forall n topic, fetchNews Cases.sportsDown n topic = Cases.onlyTech topic)
  /\ Cases.onlyTech "sports" = None
  /\ Scenario.someURL
       ∈ map URL (identifiedFresh Cases.sportsDown Scenario.Day Scenario.reader
                    false emptyWorld).1.
Proof.
  split; [intros n; reflexivity |]. split; [intros n topic; reflexivity |].
  split; [reflexivity |].
  apply (pass_identifies_every_eligible_article Cases.sportsDown Cases.onlyTech
           Scenario.Day Scenario.reader false emptyWorld ["sports"; "tech"] "tech"
           [Scenario.mkArticle Scenario.someURL 0] (Scenario.mkArticle Scenario.someURL 0)).
  - intros n. reflexivity.
  - intros n topic. reflexivity.
  - reflexivity.
  - reflexivity.
  - apply elem_of_cons. right. apply elem_of_cons. left. reflexivity.
  - reflexivity.
  - apply elem_of_cons. left. reflexivity.
  - vm_compute. reflexivity.
  - intros (r & Hin & _). inversion Hin.
Defined.

(** ** Nothing identified is pushed later *)

Lemma runCalls_keeps_seen env calls :
  (forall n, ledgerFails env n = false) ->
  forall w v x, seen v x (ledger w) -> seen v x (ledger (runCalls env calls w).2).
Proof.
  intros Hup. induction calls as [| c rest IH]; intros w v x Hseen; simpl; [exact Hseen |].
  pose proof (ProcessUser_marks env (cNow c) (cUser c) (cForce c) w Hup v x) as Hiff.
  destruct (Scheduler.ProcessUser env (cNow c) (cUser c) (cForce c) w) as [n w1].
  cbn [snd] in Hiff.
  specialize (IH w1 v x (proj2 Hiff (or_introl Hseen))).
  destruct (runCalls env rest w1) as [ns w2]. exact IH.
Qed.

Lemma pushed_was_unseen env now user force w a :
  (forall n, ledgerFails env n = false) ->
  a ∈ map dArticle (pushedBy env now user force w) ->
  ~ seen (ID user) (URL a) (ledger w).
Proof.
  intros Hup Ha.
  destruct (pushedBy_spec env now user force w) as (Hpushed & _ & _).
  rewrite Hpushed in Ha. apply articlesToSendOf_subseteq in Ha.
  destruct (identifiedFresh_dedup env Hup now user force w) as (_ & Hnew & _ & _).
  exact (Hnew a Ha).
Qed.

(** With a working ledger, an article identified as fresh in a pass is never
    pushed for that user by a later pass, whatever calls of [ProcessUser]
    come in between: this holds for the articles the pass pushed, for those
    the transport refused, and for those beyond the cap, which are thus
    never delivered. *)
Theorem identified_is_never_pushed_later
    env now user force w (calls : list Call) now' user' force' (a : Article) :
  (forall n, ledgerFails env n = false) ->
  a ∈ (identifiedFresh env now user force w).1 ->
  ID user' = ID user ->
  let w1 := (Scheduler.ProcessUser env now user force w).2 in
  let w2 := (runCalls env calls w1).2 in
  URL a ∉ map URL (map dArticle (pushedBy env now' user' force' w2)).
Proof.
  intros Hup Ha Hid w1 w2 Hin.
  apply elem_of_map in Hin as (b & Hurl & Hb).
  apply (pushed_was_unseen env now' user' force' w2 b Hup) in Hb.
  apply Hb. rewrite Hid, <- Hurl.
  apply runCalls_keeps_seen; [exact Hup |].
  apply (ProcessUser_marks env now user force w Hup).
  right. split; [reflexivity |]. apply elem_of_map. exists a. auto.
Qed.

Lemma identified_is_never_pushed_later_witness :
  (forall n, ledgerFails Scenario.eightFresh n = false)
  /\ (Scenario.mkArticle "https://news.example/7" 0
       ∈ (identifiedFresh Scenario.eightFresh Scenario.Day Scenario.reader true emptyWorld).1)
  /\ (Scenario.mkArticle "https://news.example/7" 0
       ∉ map dArticle (pushedBy Scenario.eightFresh Scenario.Day Scenario.reader true
                         emptyWorld))
  /\ ("https://news.example/7"
       ∉ map URL (map dArticle
           (pushedBy Scenario.eightFresh (2 * Scenario.Day) Scenario.reader true
              (runCalls Scenario.eightFresh []
                 (Scheduler.ProcessUser Scenario.eightFresh Scenario.Day Scenario.reader
                    true emptyWorld).2).2))).
Proof.
  assert (Hin : Scenario.mkArticle "https://news.example/7" 0
                  ∈ (identifiedFresh Scenario.eightFresh Scenario.Day Scenario.reader
                       true emptyWorld).1).
  { apply list_elem_of_lookup. exists 7%nat. vm_compute. reflexivity. }
  split; [intros n; reflexivity |]. split; [exact Hin |]. split.
  - intros H. apply (list_elem_of_fmap_2 URL) in H. revert H.
    apply (bool_decide_unpack _). vm_compute. exact I.
  - apply (identified_is_never_pushed_later Scenario.eightFresh Scenario.Day
             Scenario.reader true emptyWorld [] (2 * Scenario.Day) Scenario.reader true
             (Scenario.mkArticle "https://news.example/7" 0) (fun n => eq_refl) Hin eq_refl).
Defined.

(** ** Passes that end before the fetch loop *)

(** A pass that is not gated but finds no subscription, or cannot read the
    subscriptions, returns 0 after that one read: nothing is fetched, the
    ledger is not consulted, nothing is pushed, and the last-notified
    instant is not updated. *)
Theorem no_topics_is_noop env now user force w :
  Scheduler.notDueYet now user force = false ->
  subscriptionsOf env (tick w) (ID user) = None
  \/ subscriptionsOf env (tick w) (ID user) = Some [] ->
  Scheduler.ProcessUser env now user force w = (0, emit (EvSubscriptions (ID user)) w)
  /\ users (Scheduler.ProcessUser env now user force w).2 = users w
  /\ pushedBy env now user force w = [].
Proof.
  intros Hdue Hsubs.
  assert (Hrun : Scheduler.ProcessUser env now user force w
                 = (0, emit (EvSubscriptions (ID user)) w)).
  { unfold Scheduler.ProcessUser. rewrite Hdue. munfold.
    unfold Scheduler.GetUserSubscriptions.
    destruct Hsubs as [-> | ->]; reflexivity. }
  split; [exact Hrun |]. unfold pushedBy. rewrite Hrun. simpl.
  split; [reflexivity | apply drop_all].
Qed.

Lemma no_topics_is_noop_witness :
  Scheduler.notDueYet Scenario.Day Scenario.reader false = false
  /\ subscriptionsOf Cases.registryDown (tick Cases.withReader) (ID Scenario.reader) = None
  /\ Scheduler.ProcessUser Cases.registryDown Scenario.Day Scenario.reader false
       Cases.withReader
     = (0, emit (EvSubscriptions (ID Scenario.reader)) Cases.withReader).
Proof.
  split; [reflexivity |]. split; [reflexivity |].
  apply (no_topics_is_noop Cases.registryDown Scenario.Day Scenario.reader false
           Cases.withReader eq_refl (or_introl eq_refl)).
Defined.

(** ** The last-notified instant *)

Lemma markArticleAsSent_users env u a w :
  users (Scheduler.markArticleAsSent env u a w).2 = users w.
Proof.
  unfold Scheduler.markArticleAsSent, Repo.MarkArticleAsSent. munfold.
  destruct (ledgerFails env (tick w)); reflexivity.
Qed.

Lemma articlesLoop_users env now u articles :
  forall fresh w, users (Scheduler.articlesLoop env now u articles fresh w).2 = users w.
Proof.
  induction articles as [| a rest IH]; intros fresh w; simpl; [reflexivity |].
  destruct (Scheduler.withinHorizon now a); [| apply IH].
  munfold.
  pose proof (isArticleSent_world env u (URL a) w) as Hw.
  destruct (Scheduler.isArticleSent env u (URL a) w) as [sent w1].
  simpl in Hw. subst w1.
  destruct sent; simpl; [rewrite IH; reflexivity |].
  pose proof (markArticleAsSent_users env u (URL a) (emit (EvLedgerRead u (URL a)) w)) as Hm.
  destruct (Scheduler.markArticleAsSent env u (URL a) _) as [[] w2].
  simpl in Hm. rewrite IH, Hm. reflexivity.
Qed.

Lemma topicsLoop_users env now u topics :
  forall fresh w, users (Scheduler.topicsLoop env now u topics fresh w).2 = users w.
Proof.
  induction topics as [| t rest IH]; intros fresh w; simpl; [reflexivity |].
  munfold. unfold Scheduler.FetchNews.
  destruct (fetchNews env (tick w) t) as [articles |]; [| rewrite IH; reflexivity].
  pose proof (articlesLoop_users env now u articles fresh (emit (EvFetch t) w)) as Ha.
  destruct (Scheduler.articlesLoop env now u articles fresh _) as [fresh' w1].
  simpl in Ha. rewrite IH, Ha. reflexivity.
Qed.

Lemma sendLoop_users env user l :
  forall w, users (Scheduler.sendLoop env user l w).2 = users w.
Proof.
  induction l as [| a rest IH]; intros w; simpl; [reflexivity |].
  munfold.
  unfold Scheduler.sendArticleWithFavoriteButton, Scheduler.IsFavoriteArticle,
    Scheduler.botSend. munfold.
  destruct (favoriteOf env (tick w) (ID user) (URL a)); simpl; rewrite IH; reflexivity.
Qed.

Lemma Update_effect env u t w :
  trace (Scheduler.UpdateUserLastNotifiedAt env u t w).2
  = trace w ++ [EvUpdateLastNotified u t]
  /\ users (Scheduler.UpdateUserLastNotifiedAt env u t w).2
     = if userRepoFails env (tick w) then users w
       else alter (withLastNotified t) u (users w).
Proof.
  unfold Scheduler.UpdateUserLastNotifiedAt.
  destruct (userRepoFails env (tick w)); split; reflexivity.
Qed.

Lemma ProcessUser_last_notified env now user force w t topics :
  Scheduler.notDueYet now user force = false ->
  subscriptionsOf env (tick w) (ID user) = Some (t :: topics) ->
  let w' := (Scheduler.ProcessUser env now user force w).2 in
  (exists evs, trace w' = trace w ++ evs ++ [EvUpdateLastNotified (ID user) now])
  /\ (userRepoFails env (pred (tick w')) = false ->
      users w' = alter (withLastNotified now) (ID user) (users w)
      /\ users w' !! ID user = withLastNotified now <$> users w !! ID user
      /\ forall k, k ≠ ID user -> users w' !! k = users w !! k)
  /\ (userRepoFails env (pred (tick w')) = true -> users w' = users w).
Proof.
  intros Hdue Hsubs w'. subst w'.
  unfold Scheduler.ProcessUser. rewrite Hdue. munfold.
  unfold Scheduler.GetUserSubscriptions. rewrite Hsubs.
  set (w0 := emit (EvSubscriptions (ID user)) w).
  pose proof (topicsLoop_extends env now (ID user) (t :: topics) [] w0) as Hext.
  pose proof (topicsLoop_users env now (ID user) (t :: topics) [] w0) as Husers.
  destruct (Scheduler.topicsLoop env now (ID user) (t :: topics) [] w0) as [fresh w1].
  cbn [fst snd] in *.
  assert (Hfinal : forall w2,
            extends w1 w2 -> users w2 = users w ->
            let w3 := (Scheduler.UpdateUserLastNotifiedAt env (ID user) now w2).2 in
            (exists evs, trace w3 = trace w ++ evs ++ [EvUpdateLastNotified (ID user) now])
            /\ (userRepoFails env (pred (tick w3)) = false ->
                users w3 = alter (withLastNotified now) (ID user) (users w)
                /\ users w3 !! ID user = withLastNotified now <$> users w !! ID user
                /\ forall k, k ≠ ID user -> users w3 !! k = users w !! k)
            /\ (userRepoFails env (pred (tick w3)) = true -> users w3 = users w)).
  { intros w2 Hext2 Hu2 w3.
    destruct (Update_effect env (ID user) now w2) as [Htr Hus]. fold w3 in Htr, Hus.
    assert (Htick : pred (tick w3) = tick w2).
    { unfold tick. rewrite Htr, length_app. simpl. lia. }
    rewrite Htick. split; [| split].
    - destruct (extends_trans _ _ _ (extends_trans _ _ _ (extends_emit _ w) Hext) Hext2)
        as [evs Hevs].
      exists evs. rewrite Htr, Hevs, <- app_assoc. reflexivity.
    - intros Hok. rewrite Hok in Hus. rewrite Hus, Hu2.
      split; [reflexivity |]. split.
      + apply lookup_alter_eq.
      + intros k Hk. apply lookup_alter_ne. congruence.
    - intros Hfail. rewrite Hfail in Hus. rewrite Hus. exact Hu2. }
  destruct (Z.of_nat (length fresh) =? 0).
  - specialize (Hfinal w1 (extends_refl w1) Husers).
    destruct (Scheduler.UpdateUserLastNotifiedAt env (ID user) now w1) as [e w3].
    exact Hfinal.
  - pose proof (sendLoop_extends env user (Scheduler.articlesToSendOf user fresh) w1) as Hs.
    pose proof (sendLoop_users env user (Scheduler.articlesToSendOf user fresh) w1) as Hsu.
    destruct (Scheduler.sendLoop env user _ w1) as [[] w2].
    cbn [fst snd] in *.
    specialize (Hfinal w2 Hs (eq_trans Hsu Husers)).
    destruct (Scheduler.UpdateUserLastNotifiedAt env (ID user) now w2) as [e w3].
    exact Hfinal.
Qed.

(** A pass that reaches the fetch loop ends with an update of the user's
    last-notified instant to [now] as its last supplier call, whether or not
    anything was found or pushed.  When the update succeeds the user's row,
    if there is one, has its instant set and nothing else changed, and no
    other row is touched; when it fails the failure is swallowed and the
    table is as before. *)
Theorem pass_updates_last_notified env now user force w t topics :
  Scheduler.notDueYet now user force = false ->
  subscriptionsOf env (tick w) (ID user) = Some (t :: topics) ->
  let w' := (Scheduler.ProcessUser env now user force w).2 in
  (exists evs, trace w' = trace w ++ evs ++ [EvUpdateLastNotified (ID user) now])
  /\ (userRepoFails env (pred (tick w')) = false ->
      users w' = alter (withLastNotified now) (ID user) (users w)
      /\ users w' !! ID user = withLastNotified now <$> users w !! ID user
      /\ forall k, k ≠ ID user -> users w' !! k = users w !! k)
  /\ (userRepoFails env (pred (tick w')) = true -> users w' = users w).
Proof. exact (ProcessUser_last_notified env now user force w t topics). Qed.

Lemma pass_updates_last_notified_witness :
  Scheduler.notDueYet Scenario.Day Scenario.reader false = false
  /\ subscriptionsOf Scenario.eightFresh (tick Cases.withReader) (ID Scenario.reader)
     = Some ["tech"]
  /\ users (Scheduler.ProcessUser Scenario.eightFresh Scenario.Day Scenario.reader false
              Cases.withReader).2 !! ID Scenario.reader
     = Some (withLastNotified Scenario.Day Scenario.reader).
Proof.
  split; [reflexivity |]. split; [reflexivity |].
  destruct (pass_updates_last_notified Scenario.eightFresh Scenario.Day Scenario.reader
              false Cases.withReader "tech" [] eq_refl eq_refl) as (_ & Hok & _).
  destruct (Hok eq_refl) as (_ & Hrow & _).
  rewrite Hrow. reflexivity.
Defined.

(** After a pass has stored [now] in the user's row, a scheduled pass run on
    the stored row at a later instant [now'] is gated exactly while less
    than the row's interval has elapsed (for intervals below the overflow
    point of the minute arithmetic): until then it returns 0 without any
    supplier call, from then on it reads the subscriptions again. *)
Theorem scheduled_pass_waits_for_interval env now user force w t topics row now' env' w2 :
  Scheduler.notDueYet now user force = false ->
  subscriptionsOf env (tick w) (ID user) = Some (t :: topics) ->
  userRepoFails env (pred (tick (Scheduler.ProcessUser env now user force w).2)) = false ->
  users w !! ID user = Some row ->
  (NotificationIntervalMinutes row < 153722867)%N ->
  exists row',
    users (Scheduler.ProcessUser env now user force w).2 !! ID user = Some row'
    /\ (now' - now < Z.of_N (NotificationIntervalMinutes row) * Minute ->
        Scheduler.ProcessUser env' now' row' false w2 = (0, w2))
    /\ (Z.of_N (NotificationIntervalMinutes row) * Minute <= now' - now ->
        exists evs,
          trace (Scheduler.ProcessUser env' now' row' false w2).2
          = trace w2 ++ EvSubscriptions (ID row) :: evs).
Proof.
  intros Hdue Hsubs Hok Hrow Hsmall.
  destruct (ProcessUser_last_notified env now user force w t topics Hdue Hsubs)
    as (_ & Hupd & _).
  destruct (Hupd Hok) as (_ & Hlookup & _).
  exists (withLastNotified now row). rewrite Hlookup, Hrow.
  split; [reflexivity |].
  pose proof (notDueYet_exact now' (withLastNotified now row) now eq_refl Hsmall) as Hgate.
  cbn [NotificationIntervalMinutes withLastNotified] in Hgate.
  split.
  - intros Hearly. unfold Scheduler.ProcessUser.
    rewrite (proj2 Hgate Hearly). reflexivity.
  - intros Hlate.
    assert (Hopen : Scheduler.notDueYet now' (withLastNotified now row) false = false).
    { destruct (Scheduler.notDueYet now' (withLastNotified now row) false) eqn:Hg;
        [| reflexivity].
      pose proof (proj1 Hgate eq_refl). lia. }
    apply extends_after.
    unfold Scheduler.ProcessUser. rewrite Hopen.
    munfold. unfold Scheduler.GetUserSubscriptions.
    cbn [ID withLastNotified].
    set (w0 := emit (EvSubscriptions (ID row)) w2).
    destruct (subscriptionsOf env' (tick w2) (ID row)) as [[| t' topics'] |];
      try apply extends_refl.
    pose proof (topicsLoop_extends env' now' (ID row) (t' :: topics') [] w0) as Ht.
    destruct (Scheduler.topicsLoop env' now' (ID row) (t' :: topics') [] w0) as [fresh w1].
    simpl in Ht.
    destruct (Z.of_nat (length fresh) =? 0).
    + pose proof (Update_extends env' (ID row) now' w1) as Hu.
      destruct (Scheduler.UpdateUserLastNotifiedAt env' (ID row) now' w1) as [e w3].
      simpl in *. eapply extends_trans; eassumption.
    + pose proof (sendLoop_extends env' (withLastNotified now row)
                    (Scheduler.articlesToSendOf (withLastNotified now row) fresh) w1) as Hs.
      destruct (Scheduler.sendLoop env' (withLastNotified now row) _ w1) as [[] w4].
      pose proof (Update_extends env' (ID row) now' w4) as Hu.
      destruct (Scheduler.UpdateUserLastNotifiedAt env' (ID row) now' w4) as [e w3].
      simpl in *. eapply extends_trans; [exact Ht |].
      eapply extends_trans; eassumption.
Qed.

Lemma scheduled_pass_waits_for_interval_witness :
  Scheduler.notDueYet Scenario.Day Scenario.reader false = false
  /\ subscriptionsOf Scenario.eightFresh (tick Cases.withReader) (ID Scenario.reader)
     = Some ["tech"]
  /\ users Cases.withReader !! ID Scenario.reader = Some Scenario.reader
  /\ (NotificationIntervalMinutes Scenario.reader < 153722867)%N
  /\ exists row',
       users (Scheduler.ProcessUser Scenario.eightFresh Scenario.Day Scenario.reader false
                Cases.withReader).2 !! ID Scenario.reader = Some row'
       /\ Scheduler.ProcessUser Scenario.eightFresh (Scenario.Day + 59 * Minute) row' false
            emptyWorld = (0, emptyWorld).
Proof.
  split; [reflexivity |]. split; [reflexivity |]. split; [reflexivity |].
  split; [reflexivity |].
  destruct (scheduled_pass_waits_for_interval Scenario.eightFresh Scenario.Day
              Scenario.reader false Cases.withReader "tech" [] Scenario.reader
              (Scenario.Day + 59 * Minute) Scenario.eightFresh emptyWorld
              eq_refl eq_refl eq_refl eq_refl eq_refl) as (row' & Hrow & Hearly & _).
  exists row'. split; [exact Hrow |]. apply Hearly. vm_compute. reflexivity.
Defined.

(** ** Marking and resetting *)

(** The public mark writes to the ledger twice.  When the first insert
    fails the error is returned and neither ledger nor fallback map changes;
    when both inserts succeed the ledger has two new rows for the pair;
    when only the second fails, [nil] is still returned, the ledger has one
    new row and the pair is flagged in the fallback map. *)
Theorem MarkArticleAsSent_outcomes env u a w :
  let r := Scheduler.MarkArticleAsSent env u a w in
  let row n := {| UserID := u; ArticleHash := a; SentAt := clock env n |} in
  (ledgerFails env (tick w) = true ->
     r.1 ≠ ErrNil
     /\ r.2 = emit (EvLedgerWrite u a) w)
  /\ (ledgerFails env (tick w) = false -> ledgerFails env (S (tick w)) = false ->
      r.1 = ErrNil
      /\ ledger r.2 = ledger w ++ [row (tick w); row (S (tick w))]
      /\ sentArticles r.2 = sentArticles w)
  /\ (ledgerFails env (tick w) = false -> ledgerFails env (S (tick w)) = true ->
      r.1 = ErrNil
      /\ ledger r.2 = ledger w ++ [row (tick w)]
      /\ sentArticles r.2 = Scheduler.recordInCache u a (sentArticles w)).
Proof.
  intros r row. subst r.
  unfold Scheduler.MarkArticleAsSent, Scheduler.markArticleAsSent,
    Repo.MarkArticleAsSent. munfold.
  split; [| split].
  - intros ->. split; [discriminate | reflexivity].
  - intros -> H2. cbn [fst snd]. rewrite tick_setLedger, tick_emit, H2.
    cbn. rewrite <- app_assoc. repeat split.
  - intros -> H2. cbn [fst snd]. rewrite tick_setLedger, tick_emit, H2.
    cbn. repeat split.
Qed.

Lemma MarkArticleAsSent_outcomes_witness :
  ledgerFails Scenario.eightFresh (tick emptyWorld) = false
  /\ ledgerFails Scenario.eightFresh (S (tick emptyWorld)) = false
  /\ length (ledger (Scheduler.MarkArticleAsSent Scenario.eightFresh 7 Scenario.someURL
                       emptyWorld).2) = 2%nat.
Proof.
  split; [reflexivity |]. split; [reflexivity |].
  destruct (MarkArticleAsSent_outcomes Scenario.eightFresh 7 Scenario.someURL emptyWorld)
    as (_ & Hboth & _).
  destruct (Hboth eq_refl eq_refl) as (_ & Hledger & _).
  rewrite Hledger. reflexivity.
Defined.

Lemma Reset_ledger env u w :
  ledgerFails env (tick w) = false ->
  (forall x, ~ seen u x (ledger (Scheduler.ResetSentArticlesHistory env u w).2))
  /\ (forall v x, v ≠ u ->
        seen v x (ledger (Scheduler.ResetSentArticlesHistory env u w).2)
        <-> seen v x (ledger w)).
Proof.
  intros Hup. rewrite (Reset_ok env u w Hup). cbn [snd ledger setCache setLedger].
  split.
  - intros x (r & Hin & Hu & _). apply list_elem_of_filter in Hin as [Hne _].
    exact (Hne Hu).
  - intros v x Hv. split.
    + intros (r & Hin & Hr). apply list_elem_of_filter in Hin as [_ Hin].
      exists r. split; assumption.
    + intros (r & Hin & Hr). exists r. split; [| exact Hr].
      apply list_elem_of_filter. split; [| exact Hin].
      destruct Hr as [Hu _]. congruence.
Qed.

(** A reset whose delete fails returns the error and changes neither the
    ledger nor the fallback map.  A reset whose delete succeeds returns
    [nil] and leaves no ledger row of the user: the seen-check with a
    working read then answers [false] for every URL of that user, while the
    seen pairs of every other user are as before. *)
Theorem Reset_outcomes env u w :
  let r := Scheduler.ResetSentArticlesHistory env u w in
  (ledgerFails env (tick w) = true ->
     r.1 ≠ ErrNil /\ r.2 = emit (EvLedgerReset u) w)
  /\ (ledgerFails env (tick w) = false ->
      r.1 = ErrNil
      /\ (forall x, ~ seen u x (ledger r.2))
      /\ (forall v x, v ≠ u -> seen v x (ledger r.2) <-> seen v x (ledger w))
      /\ (ledgerFails env (S (tick w)) = false ->
          forall x, (Scheduler.IsArticleSent env u x r.2).1 = (false, ErrNil))).
Proof.
  intros r. subst r. split.
  - intros Hdown.
    unfold Scheduler.ResetSentArticlesHistory, Repo.ResetSentArticlesHistory. munfold.
    rewrite Hdown. split; [discriminate | reflexivity].
  - intros Hup. destruct (Reset_ledger env u w Hup) as [Hnone Hothers].
    split; [rewrite (Reset_ok env u w Hup); reflexivity |].
    split; [exact Hnone |]. split; [exact Hothers |].
    intros Hread x. rewrite IsArticleSent_unfold. cbn [fst].
    assert (Htick : tick (Scheduler.ResetSentArticlesHistory env u w).2 = S (tick w)).
    { rewrite (Reset_ok env u w Hup). cbn [snd].
      rewrite tick_setCache, tick_setLedger, tick_emit. reflexivity. }
    assert (Hfalse : (Scheduler.isArticleSent env u x
                        (Scheduler.ResetSentArticlesHistory env u w).2).1 = false).
    { apply isArticleSent_ok_false; [rewrite Htick; exact Hread | apply Hnone]. }
    rewrite Hfalse. reflexivity.
Qed.

Lemma Reset_outcomes_witness :
  ledgerFails Scenario.eightFresh
    (tick (Scheduler.ProcessUser Scenario.eightFresh Scenario.Day Scenario.reader true
             emptyWorld).2) = false
  /\ seen 7 "https://news.example/0"
       (ledger (Scheduler.ProcessUser Scenario.eightFresh Scenario.Day Scenario.reader true
                  emptyWorld).2)
  /\ ~ seen 7 "https://news.example/0"
         (ledger (Scheduler.ResetSentArticlesHistory Scenario.eightFresh 7
                    (Scheduler.ProcessUser Scenario.eightFresh Scenario.Day Scenario.reader
                       true emptyWorld).2).2).
Proof.
  split; [reflexivity |]. split.
  - eexists. split; [apply list_elem_of_lookup; exists 0%nat; vm_compute; reflexivity |].
    split; reflexivity.
  - apply (Reset_outcomes Scenario.eightFresh 7). reflexivity.
Defined.

(** With a working ledger and a source that answers each topic the same way
    whenever asked, the pass that follows a successful reset identifies
    again every article within the horizon that a subscribed topic returns,
    whatever had been marked for the user before. *)
Theorem reset_makes_articles_fresh_again
    env (answers : string -> option (list Article)) u w now user force topics t arts a :
  (forall n, ledgerFails env n = false) ->
  (forall n topic, fetchNews env n topic = answers topic) ->
  ID user = u ->
  let w1 := (Scheduler.ResetSentArticlesHistory env u w).2 in
  Scheduler.notDueYet now user force = false ->
  subscriptionsOf env (tick w1) (ID user) = Some topics ->
  t ∈ topics ->
  answers t = Some arts ->
  a ∈ arts ->
  now - PublishedAt a < Scheduler.newsFilterThreshold ->
  URL a ∈ map URL (identifiedFresh env now user force w1).1.
Proof.
  intros Hup Hstat <- w1 Hdue Hsubs Ht Hans Ha Hrecent.
  eapply identifiedFresh_complete; try eassumption.
  apply (Reset_ledger env (ID user) w (Hup _)).
Qed.

Lemma reset_makes_articles_fresh_again_witness :
  (forall n, ledgerFails Cases.sportsDown n = false)
  /\ (forall n topic, fetchNews Cases.sportsDown n topic = Cases.onlyTech topic)
  /\ seen 7 Scenario.someURL
       (ledger (Scheduler.ProcessUser Cases.sportsDown Scenario.Day Scenario.reader true
                  emptyWorld).2)
  /\ (Scenario.someURL
       ∈ map URL (identifiedFresh Cases.sportsDown (2 * Scenario.Day) Scenario.reader true
                    (Scheduler.ResetSentArticlesHistory Cases.sportsDown 7
                       (Scheduler.ProcessUser Cases.sportsDown Scenario.Day Scenario.reader
                          true emptyWorld).2).2).1).
Proof.
  split; [intros n; reflexivity |]. split; [intros n topic; reflexivity |].
  split.
  - eexists. split; [apply list_elem_of_lookup; exists 0%nat; vm_compute; reflexivity |].
    split; reflexivity.
  - apply (reset_makes_articles_fresh_again Cases.sportsDown Cases.onlyTech 7
             (Scheduler.ProcessUser Cases.sportsDown Scenario.Day Scenario.reader true
                emptyWorld).2
             (2 * Scenario.Day) Scenario.reader true ["sports"; "tech"] "tech"
             [Scenario.mkArticle Scenario.someURL 0] (Scenario.mkArticle Scenario.someURL 0)).
    + intros n. reflexivity.
    + intros n topic. reflexivity.
    + reflexivity.
    + reflexivity.
    + reflexivity.
    + apply elem_of_cons. right. apply elem_of_cons. left. reflexivity.
    + reflexivity.
    + apply elem_of_cons. left. reflexivity.
    + vm_compute. reflexivity.
Defined.

(** * The fetcher *)

Section FetcherFacts.
Import Fetcher.
Variable web : Web.

Lemma FetchNewsFromGNews_cases topic s :
  let r := FetchNewsFromGNews web topic s in
  GNewsAPIKey (fetcher r.2) = GNewsAPIKey (fetcher s)
  /\ NewsAPIKey (fetcher r.2) = NewsAPIKey (fetcher s)
  /\ ((r.1.2 ≠ ErrNil /\ r.1.1 = [] /\ fetcher r.2 = fetcher s
       /\ (requests r.2 = requests s
           \/ requests r.2 = requests s ++ [ToGNews (gnewsQuery topic)]))
      \/ (r.1.2 = ErrNil /\ LastAPIUsed (fetcher r.2) = "GNews"
          /\ requests r.2 = requests s ++ [ToGNews (gnewsQuery topic)])).
Proof.
  unfold FetchNewsFromGNews.
  destruct (decide (GNewsAPIKey (fetcher s) = "")); cbn.
  { repeat split. left. repeat split; [discriminate | left; reflexivity]. }
  destruct (gnews web (length (requests s)) (gnewsQuery topic)); cbn;
    repeat split;
    (left; repeat split; [discriminate | destruct (fetcher s); reflexivity | tauto])
    || (left; repeat split; [discriminate | tauto])
    || (right; repeat split).
Qed.

Lemma FetchNewsFromNewsAPI_cases topic s :
  let r := FetchNewsFromNewsAPI web topic s in
  (r.1.2 ≠ ErrNil /\ r.1.1 = [] /\ fetcher r.2 = fetcher s
   /\ (requests r.2 = requests s
       \/ requests r.2 = requests s ++ [ToNewsAPI (newsAPIQuery topic)]))
  \/ (r.1.2 = ErrNil /\ LastAPIUsed (fetcher r.2) = "NewsAPI"
      /\ NewsAPIKey (fetcher s) ≠ ""
      /\ requests r.2 = requests s ++ [ToNewsAPI (newsAPIQuery topic)]).
Proof.
  unfold FetchNewsFromNewsAPI.
  destruct (decide (NewsAPIKey (fetcher s) = "")); cbn.
  { left. repeat split; [discriminate | left; reflexivity]. }
  destruct (newsapi web (length (requests s)) (newsAPIQuery topic)); cbn;
    (left; repeat split; [discriminate | tauto])
    || (right; repeat split; assumption).
Qed.

(** [FetchNews] fails exactly when the topic is empty, or when the GNews
    attempt fails and the News API is either not configured or fails too.
    In particular an empty GNews answer followed by a News API failure is
    not an error. *)
Theorem FetchNews_fails_iff topic s :
  let g := FetchNewsFromGNews web topic s in
  let n := FetchNewsFromNewsAPI web topic g.2 in
  (FetchNews web topic s).1.2 ≠ ErrNil
  <-> topic = ""
      \/ (g.1.2 ≠ ErrNil /\ (NewsAPIKey (fetcher s) = "" \/ n.1.2 ≠ ErrNil)).
Proof.
  intros g n. subst g n. unfold FetchNews.
  destruct (decide (topic = "")) as [-> | Htopic]; cbn.
  { split; [auto | discriminate]. }
  destruct (FetchNewsFromGNews_cases topic s) as (_ & Hkey & _).
  destruct (FetchNewsFromGNews web topic s) as [[articles err] s1].
  cbn [fst snd] in *. rewrite Hkey.
  destruct err as [| msg]; cbn.
  - assert (Hok : forall (x : list Article * error * State), x.1.2 = ErrNil ->
              (x.1.2 ≠ ErrNil <-> topic = "" \/ (ErrNil ≠ ErrNil /\
                 (NewsAPIKey (fetcher s) = "" \/
                  (FetchNewsFromNewsAPI web topic s1).1.2 ≠ ErrNil))))
      by (intros x ->; split; [congruence | intros [? | [? _]]; congruence]).
    destruct (0 <? Z.of_nat (length articles)); [apply Hok; reflexivity |].
    destruct (decide (NewsAPIKey (fetcher s) ≠ "")); [| apply Hok; reflexivity].
    destruct (FetchNewsFromNewsAPI web topic s1) as [[articles2 err2] s2].
    destruct err2; apply Hok; reflexivity.
  - destruct (decide (NewsAPIKey (fetcher s) ≠ "")) as [Hset | Hunset].
    + destruct (FetchNewsFromNewsAPI web topic s1) as [[articles2 err2] s2].
      destruct err2; cbn.
      * split; [congruence | intros [? | [_ [? | ?]]]; congruence].
      * split; [intros _; right; split; [discriminate | right; discriminate]
               | discriminate].
    + cbn. split; [| discriminate]. intros _. right. split; [discriminate |].
      left. destruct (decide (NewsAPIKey (fetcher s) = "")); [assumption | tauto].
Qed.

(** [FetchNews] asks each API at most once, GNews first, each with the
    rewritten query of the topic; it asks nothing for an empty topic, and it
    does not ask the News API when GNews has answered with at least one
    article, in which case the GNews answer is the result. *)
Theorem FetchNews_requests topic s :
  let g := FetchNewsFromGNews web topic s in
  let r := FetchNews web topic s in
  (topic = "" -> r.2 = s)
  /\ (exists gs ns,
        requests r.2 = requests s ++ gs ++ ns
        /\ (gs = [] \/ gs = [ToGNews (gnewsQuery topic)])
        /\ (ns = [] \/ ns = [ToNewsAPI (newsAPIQuery topic)])
        /\ (topic ≠ "" -> g.1.2 = ErrNil -> g.1.1 ≠ [] -> ns = [] /\ r = g)).
Proof.
  intros g r. subst g r. unfold FetchNews.
  destruct (decide (topic = "")) as [-> | Htopic]; cbn.
  { split; [reflexivity |]. exists [], []. rewrite !app_nil_r. tauto. }
  split; [tauto |].
  destruct (FetchNewsFromGNews_cases topic s) as (_ & _ & Hg).
  destruct (FetchNewsFromGNews web topic s) as [[articles err] s1].
  cbn [fst snd] in *.
  assert (Hgs : exists gs, requests s1 = requests s ++ gs
                           /\ (gs = [] \/ gs = [ToGNews (gnewsQuery topic)])).
  { destruct Hg as [(_ & _ & _ & [Hr | Hr]) | (_ & _ & Hr)].
    - exists []. rewrite app_nil_r. auto.
    - eexists. split; [exact Hr | auto].
    - eexists. split; [exact Hr | auto]. }
  destruct Hgs as (gs & Hreq & Hgs).
  assert (Hstop : forall res,
            (err = ErrNil -> articles ≠ [] -> res = (articles, err)) ->
            exists gs0 ns,
              requests (res, s1).2 = requests s ++ gs0 ++ ns
              /\ (gs0 = [] \/ gs0 = [ToGNews (gnewsQuery topic)])
              /\ (ns = [] \/ ns = [ToNewsAPI (newsAPIQuery topic)])
              /\ (topic ≠ "" -> err = ErrNil -> articles ≠ [] ->
                  ns = [] /\ (res, s1) = (articles, err, s1))).
  { intros res Hres. exists gs, []. rewrite app_nil_r. cbn [snd].
    split; [exact Hreq |]. split; [exact Hgs |]. split; [auto |].
    intros _ He Ha. rewrite (Hres He Ha). auto. }
  assert (Hempty : isNil err && (0 <? Z.of_nat (length articles)) = false ->
                   ~ (err = ErrNil /\ articles ≠ [])).
  { intros Hb [-> Hne]. destruct articles; [congruence | discriminate Hb]. }
  destruct (isNil err && (0 <? Z.of_nat (length articles))) eqn:Hb.
  { apply andb_true_iff in Hb as [He _]. destruct err; [| discriminate He].
    apply Hstop. reflexivity. }
  specialize (Hempty eq_refl).
  destruct (decide (NewsAPIKey (fetcher s1) ≠ "")).
  2:{ destruct err; apply Hstop; intros He Ha; exfalso; apply Hempty; auto. }
  destruct (FetchNewsFromNewsAPI_cases topic s1) as [(_ & _ & _ & Hn) | (_ & _ & _ & Hn)];
    destruct (FetchNewsFromNewsAPI web topic s1) as [[articles2 err2] s2];
    cbn [fst snd] in *.
  - assert (Hns : exists ns, requests s2 = requests s1 ++ ns
                             /\ (ns = [] \/ ns = [ToNewsAPI (newsAPIQuery topic)])).
    { destruct Hn as [Hr | Hr]; [exists []; rewrite app_nil_r; auto
                                | eexists; split; [exact Hr | auto]]. }
    destruct Hns as (ns & Hreq2 & Hns).
    exists gs, ns.
    destruct (isNil err2); [| destruct err]; cbn [snd];
      (split; [rewrite Hreq2, Hreq, <- app_assoc; reflexivity |]);
      (split; [exact Hgs |]); (split; [exact Hns |]);
      intros _ He Ha; exfalso; apply Hempty; auto.
  - exists gs, [ToNewsAPI (newsAPIQuery topic)].
    destruct (isNil err2); [| destruct err]; cbn [snd];
      (split; [rewrite Hn, Hreq, <- app_assoc; reflexivity |]);
      (split; [exact Hgs |]); (split; [auto |]);
      intros _ He Ha; exfalso; apply Hempty; auto.
Qed.

(** A successful [FetchNews] returns the answer of one API and leaves its
    name in [LastAPIUsed]: the GNews answer, or the News API answer when
    GNews failed or was empty and the News API answered; a failed
    [FetchNews] returns no article and leaves the fetcher as it was. *)
Theorem FetchNews_names_its_supplier topic s :
  let g := FetchNewsFromGNews web topic s in
  let n := FetchNewsFromNewsAPI web topic g.2 in
  let r := FetchNews web topic s in
  (r.1.2 ≠ ErrNil -> r.1.1 = [] /\ fetcher r.2 = fetcher s)
  /\ (r.1.2 = ErrNil ->
      (r.1.1 = g.1.1 /\ g.1.2 = ErrNil /\ LastAPIUsed (fetcher r.2) = "GNews")
      \/ (r.1.1 = n.1.1 /\ n.1.2 = ErrNil /\ LastAPIUsed (fetcher r.2) = "NewsAPI")).
Proof.
  intros g n r. subst g n r. unfold FetchNews.
  destruct (decide (topic = "")) as [-> | Htopic]; cbn.
  { split; [auto | discriminate]. }
  destruct (FetchNewsFromGNews_cases topic s) as (_ & _ & Hg).
  destruct (FetchNewsFromGNews web topic s) as [[articles err] s1].
  cbn [fst snd] in *.
  destruct (isNil err && (0 <? Z.of_nat (length articles))) eqn:Hb.
  { apply andb_true_iff in Hb as [He _]. destruct err; [| discriminate He]. cbn.
    split; [congruence |]. intros _. left.
    destruct Hg as [(Hne & _) | (_ & Hlast & _)]; [congruence | auto]. }
  destruct (decide (NewsAPIKey (fetcher s1) ≠ "")).
  - destruct (FetchNewsFromNewsAPI_cases topic s1) as [(Hne & Hnil & Hf & _) | (He & Hlast & _)];
      destruct (FetchNewsFromNewsAPI web topic s1) as [[articles2 err2] s2];
      cbn [fst snd] in *.
    + destruct err2; [congruence |]. cbn.
      destruct Hg as [(Hgne & Hgnil & Hgf & _) | (Hge & Hglast & _)].
      * destruct err; [congruence |]. cbn.
        split; [intros _; split; [reflexivity | congruence] | congruence].
      * subst err. cbn. split; [congruence |]. intros _. left.
        rewrite Hf. auto.
    + subst err2. cbn. split; [congruence |]. intros _. right. auto.
  - destruct Hg as [(Hgne & Hgnil & Hgf & _) | (Hge & Hglast & _)].
    + destruct err; [congruence |]. cbn.
      split; [intros _; split; [reflexivity | exact Hgf] | congruence].
    + subst err. cbn. split; [congruence |]. intros _. left. auto.
Qed.

End FetcherFacts.

Lemma FetchNews_requests_witness :
  (Fetcher.FetchNews FetcherCases.gnewsAnswers "" FetcherCases.bothKeys).2
  = FetcherCases.bothKeys
  /\ Fetcher.requests
       (Fetcher.FetchNews FetcherCases.gnewsAnswers "tech" FetcherCases.bothKeys).2
     = [Fetcher.ToGNews "tech"].
Proof.
  destruct (FetchNews_requests FetcherCases.gnewsAnswers "" FetcherCases.bothKeys)
    as [Hempty _].
  split; [exact (Hempty eq_refl) |].
  destruct (FetchNews_requests FetcherCases.gnewsAnswers "tech" FetcherCases.bothKeys)
    as (_ & gs & ns & Hreq & _ & _ & Hstop).
  destruct Hstop as [_ Hr]; [discriminate | reflexivity | discriminate |].
  rewrite Hr. reflexivity.
Defined.

Lemma FetchNews_names_its_supplier_witness :
  (Fetcher.FetchNews FetcherCases.gnewsOverQuota "tech" FetcherCases.bothKeys).1.2 = ErrNil
  /\ Fetcher.LastAPIUsed
       (Fetcher.fetcher
          (Fetcher.FetchNews FetcherCases.gnewsOverQuota "tech" FetcherCases.bothKeys).2)
     = "NewsAPI".
Proof.
  split; [reflexivity |].
  destruct (FetchNews_names_its_supplier FetcherCases.gnewsOverQuota "tech"
              FetcherCases.bothKeys) as [_ Hok].
  destruct (Hok eq_refl) as [(_ & Hg & _) | (_ & _ & Hlast)];
    [discriminate Hg | exact Hlast].
Defined.

(** The three ways [FetchNews] ends without a usable GNews answer. *)
Example FetchNews_failover_runs :
  (Fetcher.FetchNews FetcherCases.gnewsOverQuota "tech" FetcherCases.bothKeys).1
  = ([Fetcher.toArticle FetcherCases.oneResult], ErrNil)
  /\ (Fetcher.FetchNews FetcherCases.gnewsEmptyNewsAPIDown "tech" FetcherCases.bothKeys).1
     = ([], ErrNil)
  /\ Fetcher.isNil
       (Fetcher.FetchNews FetcherCases.allDown "tech" FetcherCases.bothKeys).1.2 = false.
Proof. vm_compute. repeat split. Qed.

(** * The subscription repository *)

Lemma filter_none {A} (P : A -> Prop) `{!forall x, Decision (P x)} (l : list A) :
  (forall x, x ∈ l -> ~ P x) -> filter P l = [].
Proof.
  induction l as [| x l IH]; intros Hnone; [reflexivity |].
  rewrite filter_cons_False by (apply Hnone; left).
  apply IH. intros y Hy. apply Hnone. right. exact Hy.
Qed.

Lemma filter_all {A} (P : A -> Prop) `{!forall x, Decision (P x)} (l : list A) :
  (forall x, x ∈ l -> P x) -> filter P l = l.
Proof.
  induction l as [| x l IH]; intros Hall; [reflexivity |].
  rewrite filter_cons_True by (apply Hall; left).
  f_equal. apply IH. intros y Hy. apply Hall. right. exact Hy.
Qed.

Lemma count_zero_iff {A} (P : A -> Prop) `{!forall x, Decision (P x)} (l : list A) :
  (Z.of_nat (length (filter P l)) >? 0) = false <-> forall x, x ∈ l -> ~ P x.
Proof.
  split.
  - intros Hz x Hx HP.
    assert (Hin : x ∈ filter P l) by (apply list_elem_of_filter; auto).
    destruct (filter P l); [inversion Hin | discriminate Hz].
  - intros Hnone. rewrite (filter_none P l Hnone). reflexivity.
Qed.

Section SubscriptionFacts.
Import SubscriptionRepo.
Variable ToLower : string -> string.

Lemma AddSubscription_cases countFails createFails u topic table :
  let r := AddSubscription ToLower countFails createFails u topic table in
  (r.1 ≠ ErrNil /\ r.2 = table)
  \/ (r.1 = ErrNil
      /\ r.2 = table ++ [{| UserID := u; Topic := ToLower topic |}]
      /\ createFails = false
      /\ (countFails = false -> forall x, x ∈ table -> ~ rowIs u (ToLower topic) x)).
Proof.
  unfold AddSubscription. cbn [Topic].
  destruct countFails; cbn.
  - destruct createFails; [left | right]; repeat split; discriminate.
  - destruct (Z.of_nat (length (filter (rowIs u (ToLower topic)) table)) >? 0) eqn:Hc.
    + left. split; [discriminate | reflexivity].
    + destruct createFails; [left; split; [discriminate | reflexivity] |].
      right. repeat split. intros _.
      exact (proj1 (count_zero_iff (rowIs u (ToLower topic)) table) Hc).
Qed.

(** A successful [AddSubscription] appends the lower-cased topic to the
    user's subscriptions, as [GetUserSubscriptions] lists them, and changes
    no other user's list; a failed one changes nothing. *)
Theorem AddSubscription_then_listed countFails createFails u topic table :
  let r := AddSubscription ToLower countFails createFails u topic table in
  (r.1 = ErrNil ->
     GetUserSubscriptions false u r.2
     = ((GetUserSubscriptions false u table).1 ++ [ToLower topic], ErrNil)
     /\ forall v, v ≠ u -> GetUserSubscriptions false v r.2 = GetUserSubscriptions false v table)
  /\ (r.1 ≠ ErrNil -> r.2 = table).
Proof.
  intros r. subst r.
  destruct (AddSubscription_cases countFails createFails u topic table)
    as [[Herr Hsame] | (Hok & Htable & _)].
  - split; [congruence | auto].
  - split; [| congruence]. intros _. rewrite Htable.
    unfold GetUserSubscriptions. cbn [fst]. split.
    + rewrite filter_app, map_app, filter_cons_True by reflexivity. reflexivity.
    + intros v Hv. rewrite filter_app, filter_cons_False by (cbn; congruence).
      rewrite filter_nil, app_nil_r. reflexivity.
Qed.

Lemma pairs_of_row_in u topic (table : list Subscription) :
  (u, topic) ∈ map (fun r => (UserID r, Topic r)) table
  <-> exists x, x ∈ table /\ rowIs u topic x.
Proof.
  rewrite elem_of_map. split.
  - intros (x & Heq & Hx). exists x. split; [exact Hx |].
    injection Heq as -> ->. split; reflexivity.
  - intros (x & Hx & Hu & Ht). exists x. split; [| exact Hx]. congruence.
Qed.

(** When its count query works, [AddSubscription] never stores a second row
    for a user and a lower-cased topic: a table without duplicate pairs
    stays so, and a topic that differs from a subscribed one only by what
    lower-casing removes is rejected with the table unchanged. *)
Theorem AddSubscription_keeps_pairs_unique createFails u topic table :
  (uniquePairs table ->
     uniquePairs (AddSubscription ToLower false createFails u topic table).2)
  /\ (forall x, x ∈ table -> rowIs u (ToLower topic) x ->
        (AddSubscription ToLower false createFails u topic table).1 ≠ ErrNil
        /\ (AddSubscription ToLower false createFails u topic table).2 = table).
Proof.
  split.
  - intros Huniq.
    destruct (AddSubscription_cases false createFails u topic table)
      as [[_ ->] | (_ & -> & _ & Hfree)]; [exact Huniq |].
    unfold uniquePairs. rewrite map_app. apply NoDup_app.
    split; [exact Huniq |]. split; [| apply NoDup_singleton].
    intros p Hp Hp'. apply list_elem_of_singleton in Hp'. subst p. cbn in Hp.
    apply pairs_of_row_in in Hp as (x & Hx & Hrow).
    exact (Hfree eq_refl x Hx Hrow).
  - intros x Hx Hrow.
    destruct (AddSubscription_cases false createFails u topic table)
      as [[Herr Hsame] | (_ & _ & _ & Hfree)]; [auto |].
    exfalso. exact (Hfree eq_refl x Hx Hrow).
Qed.

(** The error of the count query is discarded: when that query fails and
    the insert works, [AddSubscription] succeeds even for a topic the user is
    subscribed to, and the table then holds the pair twice. *)
Theorem AddSubscription_duplicates_when_count_fails u topic table x :
  x ∈ table -> rowIs u (ToLower topic) x ->
  AddSubscription ToLower true false u topic table
  = (ErrNil, table ++ [{| UserID := u; Topic := ToLower topic |}])
  /\ ~ uniquePairs (AddSubscription ToLower true false u topic table).2.
Proof.
  intros Hx Hrow. split; [reflexivity |].
  cbn. unfold uniquePairs. rewrite map_app. intros Hnd.
  apply NoDup_app in Hnd as (_ & Hdisj & _).
  apply (Hdisj (u, ToLower topic)).
  - apply pairs_of_row_in. exists x. auto.
  - cbn. left.
Qed.

(** [RemoveSubscription] with a working delete: when the user has the
    lower-cased topic, it succeeds, exactly the rows of that pair are gone
    and the lists of other users are as before; when the user does not have
    it, it fails and the table is unchanged.  A failing delete changes
    nothing either. *)
Theorem RemoveSubscription_outcomes deleteFails u topic table :
  let r := RemoveSubscription ToLower deleteFails u topic table in
  (deleteFails = true -> r.1 ≠ ErrNil /\ r.2 = table)
  /\ (deleteFails = false ->
      (forall x, x ∈ table -> ~ rowIs u (ToLower topic) x) ->
      r = (Err "subscription not found", table))
  /\ (deleteFails = false ->
      (exists x, x ∈ table /\ rowIs u (ToLower topic) x) ->
      r.1 = ErrNil
      /\ (forall x, x ∈ r.2 <-> x ∈ table /\ ~ rowIs u (ToLower topic) x)
      /\ (ToLower topic ∉ (GetUserSubscriptions false u r.2).1)
      /\ (forall v, v ≠ u ->
           GetUserSubscriptions false v r.2 = GetUserSubscriptions false v table)).
Proof.
  intros r. subst r. unfold RemoveSubscription.
  split; [intros ->; split; [discriminate | reflexivity] |].
  split.
  - intros -> Hnone. rewrite (filter_none _ table Hnone). reflexivity.
  - intros -> (x & Hx & Hrow).
    assert (Hin : x ∈ filter (rowIs u (ToLower topic)) table)
      by (apply list_elem_of_filter; auto).
    destruct (filter (rowIs u (ToLower topic)) table) as [| y rest] eqn:Hf;
      [inversion Hin |].
    assert (Hnz : (Z.of_nat (length (y :: rest)) =? 0) = false) by reflexivity.
    rewrite Hnz. cbn [fst snd]. split; [reflexivity |]. split; [| split].
    + intros z. rewrite list_elem_of_filter. tauto.
    + unfold GetUserSubscriptions. cbn [fst]. intros Hlisted.
      apply elem_of_map in Hlisted as (z & Hz & Hzin).
      apply list_elem_of_filter in Hzin as [Hzu Hzin].
      apply list_elem_of_filter in Hzin as [Hznot _].
      apply Hznot. split; [exact Hzu | congruence].
    + intros v Hv. unfold GetUserSubscriptions. f_equal. f_equal.
      rewrite list_filter_filter. apply list_filter_iff.
      intros z. unfold rowIs. split; [tauto |].
      intros Hz. split; [exact Hz |]. intros [Hzu _]. congruence.
Qed.

(** Subscribing to a topic the user does not have and unsubscribing again
    gives back the table, row for row. *)
Theorem subscribe_then_unsubscribe table u topic :
  (forall x, x ∈ table -> ~ rowIs u (ToLower topic) x) ->
  let added := AddSubscription ToLower false false u topic table in
  added.1 = ErrNil
  /\ RemoveSubscription ToLower false u topic added.2 = (ErrNil, table).
Proof.
  intros Hfree added. subst added.
  assert (Hadd : AddSubscription ToLower false false u topic table
                 = (ErrNil, table ++ [{| UserID := u; Topic := ToLower topic |}])).
  { unfold AddSubscription. cbn [Topic].
    rewrite (filter_none _ table Hfree). reflexivity. }
  rewrite Hadd. split; [reflexivity |].
  unfold RemoveSubscription. cbn [snd].
  rewrite !filter_app, (filter_none _ table Hfree).
  rewrite (filter_cons_True (rowIs u (ToLower topic))) by (split; reflexivity).
  rewrite (filter_cons_False (fun r => ~ rowIs u (ToLower topic) r))
    by (intros H; apply H; split; reflexivity).
  rewrite !filter_nil, app_nil_r. cbn. f_equal.
  apply filter_all. exact Hfree.
Qed.

End SubscriptionFacts.

Lemma AddSubscription_then_listed_witness :
  (SubscriptionRepo.AddSubscription RepoCases.lowerASCII false false 7 "Tech" []).1 = ErrNil
  /\ SubscriptionRepo.GetUserSubscriptions false 7
       (SubscriptionRepo.AddSubscription RepoCases.lowerASCII false false 7 "Tech" []).2
     = (["tech"], ErrNil).
Proof.
  split; [reflexivity |].
  destruct (AddSubscription_then_listed RepoCases.lowerASCII false false 7 "Tech" [])
    as [Hok _].
  destruct (Hok eq_refl) as [Hlisted _]. rewrite Hlisted. reflexivity.
Defined.

Lemma AddSubscription_keeps_pairs_unique_witness :
  SubscriptionRepo.uniquePairs RepoCases.oneSubscription
  /\ SubscriptionRepo.uniquePairs
       (SubscriptionRepo.AddSubscription RepoCases.lowerASCII false false 7 "TECH"
          RepoCases.oneSubscription).2
  /\ (SubscriptionRepo.AddSubscription RepoCases.lowerASCII false false 7 "TECH"
        RepoCases.oneSubscription).2 = RepoCases.oneSubscription.
Proof.
  assert (Huniq : SubscriptionRepo.uniquePairs RepoCases.oneSubscription)
    by (apply NoDup_singleton).
  destruct (AddSubscription_keeps_pairs_unique RepoCases.lowerASCII false 7 "TECH"
              RepoCases.oneSubscription) as [Hkeep Hreject].
  split; [exact Huniq |]. split; [exact (Hkeep Huniq) |].
  apply (Hreject {| SubscriptionRepo.UserID := 7; SubscriptionRepo.Topic := "tech" |}).
  - left.
  - split; reflexivity.
Defined.

Lemma AddSubscription_duplicates_when_count_fails_witness :
  {| SubscriptionRepo.UserID := 7; SubscriptionRepo.Topic := "tech" |}
    ∈ RepoCases.oneSubscription
  /\ length (SubscriptionRepo.AddSubscription RepoCases.lowerASCII true false 7 "tech"
               RepoCases.oneSubscription).2 = 2%nat
  /\ ~ SubscriptionRepo.uniquePairs
         (SubscriptionRepo.AddSubscription RepoCases.lowerASCII true false 7 "tech"
            RepoCases.oneSubscription).2.
Proof.
  assert (Hin : {| SubscriptionRepo.UserID := 7; SubscriptionRepo.Topic := "tech" |}
                  ∈ RepoCases.oneSubscription) by left.
  split; [exact Hin |]. split; [reflexivity |].
  apply (AddSubscription_duplicates_when_count_fails RepoCases.lowerASCII 7 "tech"
           RepoCases.oneSubscription _ Hin).
  split; reflexivity.
Defined.

Lemma RemoveSubscription_outcomes_witness :
  SubscriptionRepo.RemoveSubscription RepoCases.lowerASCII false 7 "Sports"
    RepoCases.oneSubscription
  = (Err "subscription not found", RepoCases.oneSubscription)
  /\ (SubscriptionRepo.RemoveSubscription RepoCases.lowerASCII false 7 "Tech"
        RepoCases.oneSubscription).1 = ErrNil.
Proof.
  split.
  - apply (RemoveSubscription_outcomes RepoCases.lowerASCII false 7 "Sports"
             RepoCases.oneSubscription); [reflexivity |].
    intros x Hx [_ Ht]. apply list_elem_of_singleton in Hx. subst x. discriminate Ht.
  - apply (RemoveSubscription_outcomes RepoCases.lowerASCII false 7 "Tech"
             RepoCases.oneSubscription); [reflexivity |].
    eexists. split; [left | split; reflexivity].
Defined.

Lemma subscribe_then_unsubscribe_witness :
  (forall x, x ∈ RepoCases.oneSubscription ->
             ~ SubscriptionRepo.rowIs 7 (RepoCases.lowerASCII "Sports") x)
  /\ SubscriptionRepo.RemoveSubscription RepoCases.lowerASCII false 7 "Sports"
       (SubscriptionRepo.AddSubscription RepoCases.lowerASCII false false 7 "Sports"
          RepoCases.oneSubscription).2
     = (ErrNil, RepoCases.oneSubscription).
Proof.
  assert (Hfree : forall x, x ∈ RepoCases.oneSubscription ->
                            ~ SubscriptionRepo.rowIs 7 (RepoCases.lowerASCII "Sports") x).
  { intros x Hx [_ Ht]. apply list_elem_of_singleton in Hx. subst x. discriminate Ht. }
  split; [exact Hfree |].
  apply (subscribe_then_unsubscribe RepoCases.lowerASCII RepoCases.oneSubscription 7
           "Sports" Hfree).
Defined.

(** * The favourites repository *)

Section FavoriteFacts.
Import FavoriteRepo.

Lemma AddFavoriteArticle_cases countFails createFails now u url title source published table :
  let r := AddFavoriteArticle countFails createFails now u url title source published table in
  (r.1 ≠ ErrNil /\ r.2 = table)
  \/ (r.1 = ErrNil
      /\ r.2 = table ++ [{| UserID := u; ArticleURL := url; FavTitle := title;
                            FavSource := source; FavPublishedAt := published;
                            AddedAt := now |}]
      /\ forall x, x ∈ table -> ~ rowIs u url x).
Proof.
  unfold AddFavoriteArticle.
  destruct countFails; [left; split; [discriminate | reflexivity] |].
  destruct (Z.of_nat (length (filter (rowIs u url) table)) >? 0) eqn:Hc;
    [left; split; [discriminate | reflexivity] |].
  destruct createFails; [left; split; [discriminate | reflexivity] |].
  right. repeat split.
  exact (proj1 (count_zero_iff (rowIs u url) table) Hc).
Qed.

Lemma fav_pairs_of_row_in u url (table : list FavoriteArticle) :
  (u, url) ∈ map (fun r => (UserID r, ArticleURL r)) table
  <-> exists x, x ∈ table /\ rowIs u url x.
Proof.
  rewrite elem_of_map. split.
  - intros (x & Heq & Hx). exists x. split; [exact Hx |].
    injection Heq as -> ->. split; reflexivity.
  - intros (x & Hx & Hu & Ht). exists x. split; [| exact Hx]. congruence.
Qed.

Lemma IsFavoriteArticle_iff u url table :
  (IsFavoriteArticle false u url table).1 = true <-> exists x, x ∈ table /\ rowIs u url x.
Proof.
  unfold IsFavoriteArticle. cbn [fst]. split.
  - intros Hpos. destruct (filter (rowIs u url) table) as [| r rest] eqn:Hf; [discriminate |].
    assert (Hin : r ∈ filter (rowIs u url) table) by (rewrite Hf; left).
    apply list_elem_of_filter in Hin. exists r. tauto.
  - intros (r & Hin & HP).
    assert (Hf : r ∈ filter (rowIs u url) table) by (apply list_elem_of_filter; tauto).
    destruct (filter (rowIs u url) table); [inversion Hf | reflexivity].
Qed.

(** Whatever fails, [AddFavoriteArticle] never stores a second row for a
    user and a URL: the count error is checked before the insert, an article
    already in the favourites is rejected, and every failure leaves the table
    unchanged. *)
Theorem AddFavoriteArticle_keeps_pairs_unique
    countFails createFails now u url title source published table :
  let r := AddFavoriteArticle countFails createFails now u url title source published table in
  (uniquePairs table -> uniquePairs r.2)
  /\ (r.1 ≠ ErrNil -> r.2 = table)
  /\ ((exists x, x ∈ table /\ rowIs u url x) -> r.1 ≠ ErrNil).
Proof.
  intros r. subst r.
  destruct (AddFavoriteArticle_cases countFails createFails now u url title source
              published table) as [[Herr Hsame] | (Hok & Htable & Hfree)].
  - rewrite Hsame. split; [auto |]. split; [reflexivity | auto].
  - rewrite Htable. split; [| split].
    + intros Huniq. unfold uniquePairs. rewrite map_app. apply NoDup_app.
      split; [exact Huniq |]. split; [| apply NoDup_singleton].
      intros p Hp Hp'. apply list_elem_of_singleton in Hp'. subst p. cbn in Hp.
      apply fav_pairs_of_row_in in Hp as (x & Hx & Hrow).
      exact (Hfree x Hx Hrow).
    + congruence.
    + intros (x & Hx & Hrow). exfalso. exact (Hfree x Hx Hrow).
Qed.

(** Adding and removing favourites round-trips through [IsFavoriteArticle]:
    after a successful add (also through the scheduler's pass-through, which
    stores the article under its URL) the check answers [true]; after a
    successful remove it answers [false]; neither changes the answer for any
    other user or URL; and removing an article that is not a favourite fails
    and changes nothing. *)
Theorem favorite_round_trip countFails createFails deleteFails now u (article : Article) table :
  let added := SchedulerAddFavoriteArticle countFails createFails now u article table in
  let removed := RemoveFavoriteArticle deleteFails u (URL article) table in
  (added.1 = ErrNil ->
     IsFavoriteArticle false u (URL article) added.2 = (true, ErrNil)
     /\ forall v x, (v, x) ≠ (u, URL article) ->
          IsFavoriteArticle false v x added.2 = IsFavoriteArticle false v x table)
  /\ (removed.1 = ErrNil ->
      IsFavoriteArticle false u (URL article) removed.2 = (false, ErrNil)
      /\ forall v x, (v, x) ≠ (u, URL article) ->
           IsFavoriteArticle false v x removed.2 = IsFavoriteArticle false v x table)
  /\ (deleteFails = false ->
      IsFavoriteArticle false u (URL article) table = (false, ErrNil) ->
      removed = (Err "article not found in favorites", table)).
Proof.
  intros added removed. subst added removed. unfold SchedulerAddFavoriteArticle.
  split; [| split].
  - intros Hok.
    destruct (AddFavoriteArticle_cases countFails createFails now u (URL article)
                (Title article) (SourceName (ArticleSource article)) (PublishedAt article)
                table) as [[Herr _] | (_ & Htable & _)]; [congruence |].
    rewrite Htable. split.
    + match goal with |- IsFavoriteArticle false u (URL article) ?t = _ =>
        assert (Hin : (IsFavoriteArticle false u (URL article) t).1 = true) end.
      { apply IsFavoriteArticle_iff. eexists. split; [apply elem_of_app; right; left |].
        split; reflexivity. }
      unfold IsFavoriteArticle in *. cbn [fst] in Hin. rewrite Hin. reflexivity.
    + unfold IsFavoriteArticle. intros v x Hne. rewrite filter_app, (filter_cons_False (rowIs v x)).
      * rewrite filter_nil, app_nil_r. reflexivity.
      * intros [Hv Hx]. cbn in Hv, Hx. congruence.
  - unfold RemoveFavoriteArticle. destruct deleteFails; [discriminate |].
    destruct (Z.of_nat (length (filter (rowIs u (URL article)) table)) =? 0);
      [discriminate |].
    intros _. cbn [snd]. unfold IsFavoriteArticle. split.
    + rewrite (filter_none (rowIs u (URL article))); [reflexivity |].
      intros x Hx. apply list_elem_of_filter in Hx as [Hnot _]. exact Hnot.
    + intros v x Hne. rewrite list_filter_filter.
      rewrite (list_filter_iff _ (rowIs v x)); [reflexivity |].
      intros z. unfold rowIs. split; [tauto |].
      intros [Hv Hx]. split; [auto |]. intros [Hu Hurl]. congruence.
  - intros -> Hnot. unfold RemoveFavoriteArticle.
    unfold IsFavoriteArticle in Hnot. injection Hnot as Hnot.
    destruct (filter (rowIs u (URL article)) table); [reflexivity | discriminate Hnot].
Qed.

Lemma insertByAddedAt_perm r sorted : insertByAddedAt r sorted ≡ₚ r :: sorted.
Proof.
  induction sorted as [| r' rest IH]; simpl; [reflexivity |].
  destruct (AddedAt r' <=? AddedAt r); [reflexivity |].
  rewrite IH. apply Permutation_swap.
Qed.

Lemma insertByAddedAt_sorted r sorted :
  StronglySorted (fun a b => AddedAt b <= AddedAt a) sorted ->
  StronglySorted (fun a b => AddedAt b <= AddedAt a) (insertByAddedAt r sorted).
Proof.
  induction sorted as [| r' rest IH]; intros Hs; simpl.
  - apply StronglySorted_cons. split; constructor.
  - apply StronglySorted_cons in Hs as [Hall Hs].
    destruct (Z.leb_spec (AddedAt r') (AddedAt r)).
    + apply StronglySorted_cons. split; [| apply StronglySorted_cons; auto].
      apply Forall_cons. split; [lia |].
      eapply Forall_impl; [exact Hall |]. cbn. intros x Hx. lia.
    + apply StronglySorted_cons. split; [| apply IH, Hs].
      rewrite insertByAddedAt_perm. apply Forall_cons. split; [lia | exact Hall].
Qed.

(** [GetUserFavoriteArticles] returns the rows of the user and only those,
    each as often as the table holds it, the most recently added first. *)
Theorem GetUserFavoriteArticles_sorted u table :
  let r := GetUserFavoriteArticles false u table in
  r.2 = ErrNil
  /\ r.1 ≡ₚ filter (fun x => UserID x = u) table
  /\ StronglySorted (fun a b => AddedAt b <= AddedAt a) r.1
  /\ (forall x, x ∈ r.1 <-> x ∈ table /\ UserID x = u).
Proof.
  intros r. subst r. unfold GetUserFavoriteArticles. cbn [fst snd].
  assert (Hperm : forall l, orderByAddedAtDesc l ≡ₚ l).
  { induction l as [| x l IH]; [reflexivity |].
    unfold orderByAddedAtDesc in *. simpl. rewrite insertByAddedAt_perm, IH. reflexivity. }
  split; [reflexivity |]. split; [apply Hperm |]. split.
  - generalize (filter (fun x => UserID x = u) table). intros l.
    induction l as [| x l IH]; [constructor |].
    unfold orderByAddedAtDesc in *. simpl. apply insertByAddedAt_sorted, IH.
  - intros x. rewrite (Hperm _), list_elem_of_filter. tauto.
Qed.

End FavoriteFacts.

Lemma AddFavoriteArticle_keeps_pairs_unique_witness :
  FavoriteRepo.uniquePairs RepoCases.threeFavorites
  /\ FavoriteRepo.uniquePairs
       (FavoriteRepo.AddFavoriteArticle false false 40 7 "https://news.example/a"
          "title" "source" 0 RepoCases.threeFavorites).2
  /\ (FavoriteRepo.AddFavoriteArticle false false 40 7 "https://news.example/a"
        "title" "source" 0 RepoCases.threeFavorites).2 = RepoCases.threeFavorites.
Proof.
  assert (Huniq : FavoriteRepo.uniquePairs RepoCases.threeFavorites).
  { apply (bool_decide_unpack _). vm_compute. exact I. }
  destruct (AddFavoriteArticle_keeps_pairs_unique false false 40 7 "https://news.example/a"
              "title" "source" 0 RepoCases.threeFavorites) as (Hkeep & Hsame & Hreject).
  split; [exact Huniq |]. split; [exact (Hkeep Huniq) |].
  apply Hsame, Hreject. eexists. split; [left | split; reflexivity].
Defined.

Lemma favorite_round_trip_witness :
  (FavoriteRepo.SchedulerAddFavoriteArticle false false 40 7
     (Scenario.mkArticle Scenario.someURL 0) []).1 = ErrNil
  /\ FavoriteRepo.IsFavoriteArticle false 7 Scenario.someURL
       (FavoriteRepo.SchedulerAddFavoriteArticle false false 40 7
          (Scenario.mkArticle Scenario.someURL 0) []).2
     = (true, ErrNil).
Proof.
  split; [reflexivity |].
  apply (favorite_round_trip false false false 40 7
           (Scenario.mkArticle Scenario.someURL 0) []). reflexivity.
Defined.

(** The favourites of user 7, latest first; the row of user 8 is not
    listed. *)
Example GetUserFavoriteArticles_run :
  map FavoriteRepo.ArticleURL
      (FavoriteRepo.GetUserFavoriteArticles false 7 RepoCases.threeFavorites).1
  = ["https://news.example/b"; "https://news.example/a"].
Proof. vm_compute. reflexivity. Qed.

(** Rows added at the same instant are listed in the order of the table. *)
Example GetUserFavoriteArticles_ties :
  map FavoriteRepo.ArticleURL
      (FavoriteRepo.GetUserFavoriteArticles false 7 RepoCases.tiedFavorites).1
  = ["https://news.example/c"; "https://news.example/a";
     "https://news.example/b"; "https://news.example/d"].
Proof. vm_compute. reflexivity. Qed.

(** * The on-demand paths of the handlers *)

Lemma IsArticleSent_result env u a w :
  Scheduler.IsArticleSent env u a w
  = (((Scheduler.isArticleSent env u a w).1, ErrNil), emit (EvLedgerRead u a) w).
Proof. apply IsArticleSent_unfold. Qed.

Lemma filterLoop_spec env u articles :
  forall fresh w,
    let r := Handlers.filterLoop env u articles fresh w in
    ledger r.2 = ledger w /\ sentArticles r.2 = sentArticles w
    /\ sink r.2 = sink w /\ users r.2 = users w
    /\ exists kept,
         r.1 = fresh ++ kept
         /\ kept `sublist_of` articles
         /\ ((forall n, ledgerFails env n = false) ->
             forall a, a ∈ kept <-> a ∈ articles /\ ~ seen u (URL a) (ledger w)).
Proof.
  induction articles as [| a rest IH]; intros fresh w; simpl.
  - repeat split. exists []. rewrite app_nil_r. split; [reflexivity |].
    split; [constructor |]. intros _ b. split; [intros H; inversion H |].
    intros [H _]. inversion H.
  - munfold. rewrite IsArticleSent_result.
    set (w1 := emit (EvLedgerRead u (URL a)) w).
    destruct (Scheduler.isArticleSent env u (URL a) w).1 eqn:Hsent; cbn [negb].
    + destruct (IH fresh w1) as (Hl & Hc & Hs & Hu & kept & Heq & Hsub & Hiff).
      repeat split; try assumption.
      exists kept. split; [exact Heq |]. split; [apply sublist_cons, Hsub |].
      intros Hup b. rewrite (Hiff Hup b), elem_of_cons.
      change (ledger w1) with (ledger w). split; [tauto |].
      intros [[-> | Hb] Hunseen]; [| tauto].
      exfalso. apply Hunseen. apply (isArticleSent_ok env u (URL a) w (Hup _)). exact Hsent.
    + destruct (IH (fresh ++ [a]) w1) as (Hl & Hc & Hs & Hu & kept & Heq & Hsub & Hiff).
      repeat split; try assumption.
      exists (a :: kept). rewrite Heq, <- app_assoc. split; [reflexivity |].
      split; [apply sublist_skip, Hsub |].
      intros Hup b. rewrite !elem_of_cons, (Hiff Hup b).
      change (ledger w1) with (ledger w). split; [| tauto].
      intros [-> | Hb]; [| tauto]. split; [auto |].
      apply (isArticleSent_ok_false env u (URL a) w (Hup _)). exact Hsent.
Qed.

(** [filterSentArticles] only reads: it never returns an error (the public
    seen-check has none to give, so no article is skipped for one), it
    changes neither ledger nor fallback map nor sink, and it keeps the
    articles in order.  With a working ledger it keeps exactly the articles
    whose URL the ledger does not hold for the user; an article that occurs
    twice in the list is kept twice. *)
Theorem filterSentArticles_keeps_unseen env u articles w :
  let r := Handlers.filterSentArticles env u articles w in
  r.1.2 = ErrNil
  /\ ledger r.2 = ledger w /\ sentArticles r.2 = sentArticles w /\ sink r.2 = sink w
  /\ r.1.1 `sublist_of` articles
  /\ ((forall n, ledgerFails env n = false) ->
      forall a, a ∈ r.1.1 <-> a ∈ articles /\ ~ seen u (URL a) (ledger w)).
Proof.
  intros r. subst r. unfold Handlers.filterSentArticles. munfold.
  destruct (filterLoop_spec env u articles [] w)
    as (Hl & Hc & Hs & _ & kept & Heq & Hsub & Hiff).
  destruct (Handlers.filterLoop env u articles [] w) as [fresh w1].
  cbn [fst snd] in *. subst fresh.
  repeat split; try assumption; apply Hiff; assumption.
Qed.

Lemma filterSentArticles_keeps_unseen_witness :
  (forall n, ledgerFails Scenario.eightFresh n = false)
  /\ (Handlers.filterSentArticles Scenario.eightFresh 7
        [Scenario.mkArticle Scenario.someURL 0; Scenario.mkArticle Scenario.someURL 0]
        emptyWorld).1
     = ([Scenario.mkArticle Scenario.someURL 0; Scenario.mkArticle Scenario.someURL 0],
        ErrNil)
  /\ (Scenario.mkArticle Scenario.someURL 0
        ∈ (Handlers.filterSentArticles Scenario.eightFresh 7
             [Scenario.mkArticle Scenario.someURL 0; Scenario.mkArticle Scenario.someURL 0]
             emptyWorld).1.1).
Proof.
  split; [intros n; reflexivity |]. split; [reflexivity |].
  apply (filterSentArticles_keeps_unseen Scenario.eightFresh 7
           [Scenario.mkArticle Scenario.someURL 0; Scenario.mkArticle Scenario.someURL 0]
           emptyWorld); [intros n; reflexivity |].
  split; [left |]. intros (r & Hin & _). inversion Hin.
Defined.

Lemma handler_send env chat u a w :
  let r := Handlers.sendArticleWithFavoriteButton env chat u a w in
  exists d,
    sink r.2 = sink w ++ [d]
    /\ dArticle d = a
    /\ dAccepted d = Fetcher.isNil r.1
    /\ ledger r.2 = ledger w
    /\ sentArticles r.2 = sentArticles w.
Proof.
  unfold Handlers.sendArticleWithFavoriteButton, Scheduler.IsFavoriteArticle,
    Scheduler.botSend. munfold.
  destruct (favoriteOf env (tick w) u (URL a)); cbn;
    match goal with |- context [sendFails env ?n] => destruct (sendFails env n) end;
    eexists; repeat split.
Qed.

Lemma topicSendLoop_spec env chat u l :
  forall w,
    let r := Handlers.topicSendLoop env chat u l w in
    ledger r.2 = ledger w /\ sentArticles r.2 = sentArticles w
    /\ exists ds, sink r.2 = sink w ++ ds /\ map dArticle ds = l.
Proof.
  induction l as [| a rest IH]; intros w; simpl.
  - repeat split. exists []. rewrite app_nil_r. auto.
  - munfold.
    destruct (handler_send env chat u a w) as (d & Hs & Ha & _ & Hl & Hc).
    destruct (Handlers.sendArticleWithFavoriteButton env chat u a w) as [e w1].
    cbn [fst snd] in *.
    destruct (IH w1) as (Hl' & Hc' & ds & Hs' & Hm).
    rewrite Hl', Hc', Hl, Hc. repeat split.
    exists (d :: ds). rewrite Hs', Hs, <- app_assoc. simpl. rewrite Ha, Hm. auto.
Qed.

Lemma isArticleSent_same_ledger env u a w w' :
  (forall n, ledgerFails env n = false) ->
  ledger w = ledger w' ->
  (Scheduler.isArticleSent env u a w).1 = (Scheduler.isArticleSent env u a w').1.
Proof.
  intros Hup Hl.
  pose proof (isArticleSent_ok env u a w (Hup _)) as H1.
  pose proof (isArticleSent_ok env u a w' (Hup _)) as H2.
  rewrite Hl in H1.
  destruct (Scheduler.isArticleSent env u a w).1, (Scheduler.isArticleSent env u a w').1;
    try reflexivity.
  - symmetry. apply H2, H1. reflexivity.
  - apply H1, H2. reflexivity.
Qed.

Lemma filterLoop_same_ledger env u articles :
  (forall n, ledgerFails env n = false) ->
  forall fresh w w',
    ledger w = ledger w' ->
    (Handlers.filterLoop env u articles fresh w).1
    = (Handlers.filterLoop env u articles fresh w').1.
Proof.
  intros Hup. induction articles as [| a rest IH]; intros fresh w w' Hl; simpl;
    [reflexivity |].
  munfold. rewrite !IsArticleSent_result.
  rewrite (isArticleSent_same_ledger env u (URL a) w w' Hup Hl).
  destruct (Scheduler.isArticleSent env u (URL a) w').1; cbn [negb];
    apply IH; exact Hl.
Qed.

Lemma articlesToSendOf_length user fresh :
  Z.of_nat (length (Scheduler.articlesToSendOf user fresh)) <= Scheduler.newsLimitOf user.
Proof.
  unfold Scheduler.articlesToSendOf.
  destruct (Z.gtb_spec (Z.of_nat (length fresh)) (Scheduler.newsLimitOf user)); [| lia].
  pose proof (newsLimitOf_pos user). rewrite length_take. lia.
Qed.

Lemma topicNews_frame env user chat topic w :
  let r := Handlers.topicNews env user chat topic w in
  ledger r.2 = ledger w /\ sentArticles r.2 = sentArticles w
  /\ (exists ds, sink r.2 = sink w ++ ds /\ map dArticle ds = r.1)
  /\ Z.of_nat (length r.1) <= Scheduler.newsLimitOf user
  /\ r.1 = match fetchNews env (tick w) topic with
           | None => []
           | Some articles =>
               Scheduler.articlesToSendOf user
                 (Handlers.filterLoop env (ID user) articles []
                    (emit (EvFetch topic) w)).1
           end.
Proof.
  pose proof (newsLimitOf_pos user) as Hpos.
  unfold Handlers.topicNews, Handlers.fetchNewsForTopic, Handlers.filterSentArticles,
    Scheduler.FetchNews. munfold.
  set (w0 := emit (EvFetch topic) w).
  destruct (fetchNews env (tick w) topic) as [articles |]; cbn.
  2:{ repeat split; try lia. exists []. rewrite app_nil_r. auto. }
  destruct (filterLoop_spec env (ID user) articles [] w0) as (Hl & Hc & Hs & _ & _).
  destruct (Handlers.filterLoop env (ID user) articles [] w0) as [fresh w1].
  cbn [fst snd] in *.
  destruct (Z.of_nat (length fresh) =? 0) eqn:Hlen; cbn.
  { assert (fresh = []) as -> by (destruct fresh; [reflexivity | discriminate Hlen]).
    rewrite articlesToSendOf_nil. repeat split; try assumption; try lia.
    exists []. rewrite app_nil_r. auto. }
  destruct (topicSendLoop_spec env chat (ID user)
              (Scheduler.articlesToSendOf user fresh) w1) as (Hl' & Hc' & ds & Hs' & Hm).
  destruct (Handlers.topicSendLoop env chat (ID user) _ w1) as [[] w2].
  cbn [fst snd] in *. rewrite Hl', Hc', Hl, Hc.
  repeat split; [| apply articlesToSendOf_length].
  exists ds. rewrite Hs', Hs. auto.
Qed.

(** The topic-news path sends at most the user's limit of articles and
    marks none of them: ledger and fallback map are as before.  So, with a
    working ledger and a source that answers the topic the same way, asking
    again sends the same articles again. *)
Theorem topicNews_never_marks env user chat topic w :
  let r := Handlers.topicNews env user chat topic w in
  ledger r.2 = ledger w
  /\ sentArticles r.2 = sentArticles w
  /\ (exists ds, sink r.2 = sink w ++ ds /\ map dArticle ds = r.1)
  /\ Z.of_nat (length r.1) <= Scheduler.newsLimitOf user
  /\ ((forall n, ledgerFails env n = false) ->
      (forall n, fetchNews env n topic = fetchNews env (tick w) topic) ->
      (Handlers.topicNews env user chat topic r.2).1 = r.1).
Proof.
  intros r. subst r.
  destruct (topicNews_frame env user chat topic w) as (Hl & Hc & Hs & Hlen & Hval).
  repeat split; try assumption.
  intros Hup Hstat.
  destruct (topicNews_frame env user chat topic
              (Handlers.topicNews env user chat topic w).2) as (_ & _ & _ & _ & Hval2).
  rewrite Hval2, Hval, Hstat.
  destruct (fetchNews env (tick w) topic) as [articles |]; [| reflexivity].
  f_equal. apply filterLoop_same_ledger; [exact Hup |]. exact Hl.
Qed.

Lemma topicNews_never_marks_witness :
  (forall n, ledgerFails Scenario.eightFresh n = false)
  /\ (Handlers.topicNews Scenario.eightFresh Scenario.reader 1007 "tech" emptyWorld).1
     = take 5 (Scenario.batch 8 0)
  /\ (Handlers.topicNews Scenario.eightFresh Scenario.reader 1007 "tech"
        (Handlers.topicNews Scenario.eightFresh Scenario.reader 1007 "tech" emptyWorld).2).1
     = (Handlers.topicNews Scenario.eightFresh Scenario.reader 1007 "tech" emptyWorld).1.
Proof.
  split; [intros n; reflexivity |]. split; [vm_compute; reflexivity |].
  apply (topicNews_never_marks Scenario.eightFresh Scenario.reader 1007 "tech" emptyWorld);
    intros n; reflexivity.
Defined.

Lemma MarkArticleAsSent_up env u a w :
  ledgerFails env (tick w) = false ->
  (Scheduler.MarkArticleAsSent env u a w).1 = ErrNil
  /\ sink (Scheduler.MarkArticleAsSent env u a w).2 = sink w
  /\ forall v x,
       seen v x (ledger (Scheduler.MarkArticleAsSent env u a w).2)
       <-> seen v x (ledger w) \/ (v = u /\ x = a).
Proof.
  intros Hup.
  assert (Hok : (Scheduler.MarkArticleAsSent env u a w).1 = ErrNil
                /\ sink (Scheduler.MarkArticleAsSent env u a w).2 = sink w).
  { unfold Scheduler.MarkArticleAsSent, Repo.MarkArticleAsSent. munfold. rewrite Hup.
    match goal with |- context [Scheduler.markArticleAsSent env u a ?w1] =>
      pose proof (markArticleAsSent_sink env u a w1) as Hs;
      destruct (Scheduler.markArticleAsSent env u a w1) as [[] w2] end.
    cbn [fst snd] in *. rewrite Hs. split; reflexivity. }
  destruct Hok as [Hok Hsink]. split; [exact Hok |]. split; [exact Hsink |].
  destruct (MarkArticleAsSent_ledger env u a w) as [(rows & Hrows & Hall) Hseen].
  specialize (Hseen Hok). intros v x. split.
  - rewrite Hrows. intros (r & Hin & Hv & Hx). apply elem_of_app in Hin as [Hin | Hin].
    + left. exists r. repeat split; assumption.
    + right. rewrite Forall_forall in Hall. destruct (Hall r Hin) as [Hu Ha].
      split; congruence.
  - intros [Hold | [-> ->]]; [rewrite Hrows; apply seen_app, Hold | exact Hseen].
Qed.

Lemma acceptedURLs_cons d ds :
  acceptedURLs (d :: ds)
  = if dAccepted d then URL (dArticle d) :: acceptedURLs ds else acceptedURLs ds.
Proof.
  unfold acceptedURLs. rewrite filter_cons.
  destruct (dAccepted d); [rewrite decide_True by reflexivity; reflexivity |].
  rewrite decide_False by discriminate. reflexivity.
Qed.

Lemma searchSendLoop_spec env chat u l :
  (forall n, ledgerFails env n = false) ->
  forall w,
    let r := Handlers.searchSendLoop env chat u l w in
    exists ds,
      sink r.2 = sink w ++ ds
      /\ map dArticle ds = l
      /\ forall v x,
           seen v x (ledger r.2)
           <-> seen v x (ledger w) \/ (v = u /\ x ∈ acceptedURLs ds).
Proof.
  intros Hup. induction l as [| a rest IH]; intros w; simpl.
  - exists []. rewrite app_nil_r. split; [reflexivity |]. split; [reflexivity |].
    intros v x. split; [auto | intros [H | [_ H]]; [exact H | inversion H]].
  - munfold.
    destruct (handler_send env chat u a w) as (d & Hs & Ha & Hacc & Hl & _).
    destruct (Handlers.sendArticleWithFavoriteButton env chat u a w) as [e w1].
    cbn [fst snd] in *.
    destruct e as [| msg]; cbn in Hacc.
    + destruct (MarkArticleAsSent_up env u (URL a) w1 (Hup _)) as (_ & Hsink & Hmark).
      destruct (Scheduler.MarkArticleAsSent env u (URL a) w1) as [e2 w2].
      cbn [fst snd] in *.
      destruct (IH w2) as (ds & Hs' & Hm & Hiff).
      exists (d :: ds). rewrite Hs', Hsink, Hs, <- app_assoc. simpl. rewrite Ha, Hm.
      split; [reflexivity |]. split; [reflexivity |].
      intros v x. rewrite Hiff, Hmark, Hl, acceptedURLs_cons, Hacc, Ha, elem_of_cons. tauto.
    + destruct (IH w1) as (ds & Hs' & Hm & Hiff).
      exists (d :: ds). rewrite Hs', Hs, <- app_assoc. simpl. rewrite Ha, Hm.
      split; [reflexivity |]. split; [reflexivity |].
      intros v x. rewrite Hiff, Hl, acceptedURLs_cons, Hacc. reflexivity.
Qed.

Lemma searchNews_spec env user chat query w :
  (forall n, ledgerFails env n = false) ->
  let r := Handlers.searchNews env user chat query w in
  exists ds,
    sink r.2 = sink w ++ ds
    /\ map dArticle ds = r.1
    /\ Z.of_nat (length ds) <= Scheduler.newsLimitOf user
    /\ (forall a, a ∈ r.1 -> ~ seen (ID user) (URL a) (ledger w))
    /\ (forall v x,
          seen v x (ledger r.2)
          <-> seen v x (ledger w) \/ (v = ID user /\ x ∈ acceptedURLs ds)).
Proof.
  intros Hup. pose proof (newsLimitOf_pos user) as Hpos.
  assert (Hnone : forall w1 : World, ledger w1 = ledger w -> sink w1 = sink w ->
            exists ds : list Delivery,
              sink w1 = sink w ++ ds /\ map dArticle ds = []
              /\ Z.of_nat (length ds) <= Scheduler.newsLimitOf user
              /\ (forall a, a ∈ @nil Article -> ~ seen (ID user) (URL a) (ledger w))
              /\ (forall v x, seen v x (ledger w1)
                    <-> seen v x (ledger w) \/ (v = ID user /\ x ∈ acceptedURLs ds))).
  { intros w1 Hl Hs. exists []. rewrite app_nil_r, Hl. cbn.
    repeat split; try assumption; try lia; auto.
    - intros a Ha. inversion Ha.
    - intros [H | [_ H]]; [exact H | inversion H]. }
  unfold Handlers.searchNews, Handlers.filterSentArticles, Scheduler.FetchNews. munfold.
  set (w0 := emit (EvFetch query) w).
  destruct (fetchNews env (tick w) query) as [articles |]; cbn [fst snd];
    [| apply Hnone; reflexivity].
  destruct (Z.of_nat (length articles) =? 0); [apply Hnone; reflexivity |].
  destruct (filterLoop_spec env (ID user) articles [] w0)
    as (Hl & _ & Hs & _ & kept & Heq & _ & Hiff).
  destruct (Handlers.filterLoop env (ID user) articles [] w0) as [fresh w1].
  cbn [fst snd] in *. subst fresh. change ([] ++ kept) with kept.
  destruct (Z.of_nat (length kept) =? 0); [apply Hnone; assumption |].
  destruct (searchSendLoop_spec env chat (ID user)
              (Scheduler.articlesToSendOf user kept) Hup w1) as (ds & Hs' & Hm & Hseen).
  destruct (Handlers.searchSendLoop env chat (ID user) _ w1) as [[] w2].
  cbn [fst snd] in *.
  exists ds. rewrite Hs', Hs. split; [reflexivity |]. split; [exact Hm |].
  split; [| split].
  - rewrite <- (length_map dArticle), Hm. apply articlesToSendOf_length.
  - intros a Ha. apply articlesToSendOf_subseteq in Ha.
    apply (Hiff Hup a) in Ha as [_ Hunseen]. exact Hunseen.
  - intros v x. rewrite Hseen, Hl. reflexivity.
Qed.

(** With a working ledger, the search path sends at most the user's limit
    of articles, none of which the ledger held for the user, and marks
    exactly those the transport accepted: an article whose send failed stays
    unmarked (it is offered again), and nothing is marked for another user.
    The scheduled pass, by contrast, marks before it sends. *)
Theorem search_marks_what_was_accepted env user chat query w :
  (forall n, ledgerFails env n = false) ->
  let r := Handlers.searchNews env user chat query w in
  exists ds,
    sink r.2 = sink w ++ ds
    /\ map dArticle ds = r.1
    /\ Z.of_nat (length ds) <= Scheduler.newsLimitOf user
    /\ (forall a, a ∈ r.1 -> ~ seen (ID user) (URL a) (ledger w))
    /\ (forall v x,
          seen v x (ledger r.2)
          <-> seen v x (ledger w) \/ (v = ID user /\ x ∈ acceptedURLs ds)).
Proof. exact (searchNews_spec env user chat query w). Qed.

(** With a working ledger, an article the search path has delivered (its
    send was accepted) is never pushed for that user by a later pass of
    [ProcessUser], whatever passes come in between. *)
Theorem searched_is_never_pushed_later
    env user chat query w (calls : list Call) now' user' force' x :
  (forall n, ledgerFails env n = false) ->
  let w1 := (Handlers.searchNews env user chat query w).2 in
  x ∈ acceptedURLs (drop (length (sink w)) (sink w1)) ->
  ID user' = ID user ->
  x ∉ map URL (map dArticle (pushedBy env now' user' force' (runCalls env calls w1).2)).
Proof.
  intros Hup w1 Hx Hid Hin. subst w1.
  destruct (searchNews_spec env user chat query w Hup) as (ds & Hs & _ & _ & _ & Hseen).
  rewrite Hs, drop_app_length in Hx.
  apply elem_of_map in Hin as (b & Hurl & Hb).
  apply (pushed_was_unseen env now' user' force' _ b Hup) in Hb.
  apply Hb. rewrite Hid, <- Hurl.
  apply runCalls_keeps_seen; [exact Hup |].
  apply Hseen. right. auto.
Qed.

Lemma search_marks_what_was_accepted_witness :
  (forall n, ledgerFails HandlerCases.firstSendLost n = false)
  /\ map dAccepted
       (sink (Handlers.searchNews HandlerCases.firstSendLost Scenario.reader 1007 "tech"
                emptyWorld).2)
     = [false; true; true]
  /\ seen 7 "https://news.example/1"
       (ledger (Handlers.searchNews HandlerCases.firstSendLost Scenario.reader 1007 "tech"
                  emptyWorld).2)
  /\ ~ seen 7 "https://news.example/0"
         (ledger (Handlers.searchNews HandlerCases.firstSendLost Scenario.reader 1007
                    "tech" emptyWorld).2).
Proof.
  split; [intros n; reflexivity |]. split; [vm_compute; reflexivity |].
  destruct (search_marks_what_was_accepted HandlerCases.firstSendLost Scenario.reader
              1007 "tech" emptyWorld (fun n => eq_refl)) as (ds & Hs & _ & _ & _ & Hseen).
  cbn [sink emptyWorld app] in Hs. subst ds. split.
  - apply Hseen. right. split; [reflexivity |].
    apply (bool_decide_unpack _). vm_compute. exact I.
  - intros H. apply Hseen in H as [(r & Hin & _) | [_ Hin]]; [inversion Hin |].
    revert Hin. apply (bool_decide_unpack _). vm_compute. exact I.
Defined.

Lemma searched_is_never_pushed_later_witness :
  (forall n, ledgerFails HandlerCases.firstSendLost n = false)
  /\ ("https://news.example/1"
        ∈ acceptedURLs
            (drop (length (sink emptyWorld))
               (sink (Handlers.searchNews HandlerCases.firstSendLost Scenario.reader 1007
                        "tech" emptyWorld).2)))
  /\ ("https://news.example/1"
        ∉ map URL (map dArticle
            (pushedBy HandlerCases.firstSendLost Scenario.Day Scenario.reader true
               (runCalls HandlerCases.firstSendLost []
                  (Handlers.searchNews HandlerCases.firstSendLost Scenario.reader 1007
                     "tech" emptyWorld).2).2))).
Proof.
  assert (Hin : "https://news.example/1"
                  ∈ acceptedURLs
                      (drop (length (sink emptyWorld))
                         (sink (Handlers.searchNews HandlerCases.firstSendLost
                                  Scenario.reader 1007 "tech" emptyWorld).2))).
  { apply (bool_decide_unpack _). vm_compute. exact I. }
  split; [intros n; reflexivity |]. split; [exact Hin |].
  apply (searched_is_never_pushed_later HandlerCases.firstSendLost Scenario.reader 1007
           "tech" emptyWorld [] Scenario.Day Scenario.reader true
           "https://news.example/1" (fun n => eq_refl) Hin eq_refl).
Defined.

(** The refused article of the search is pushed by the next pass, the
    accepted ones are not. *)
Example search_then_pass :
  map (fun d => URL (dArticle d))
      (pushedBy HandlerCases.firstSendLost Scenario.Day Scenario.reader true
         (Handlers.searchNews HandlerCases.firstSendLost Scenario.reader 1007 "tech"
            emptyWorld).2)
  = ["https://news.example/0"].
Proof. vm_compute. reflexivity. Qed.

(** * The message text *)

Lemma substring_length n (s : string) :
  (n <= String.length s)%nat -> String.length (String.substring 0 n s) = n.
Proof.
  revert s. induction n as [| n IH]; intros s Hn.
  - destruct s; reflexivity.
  - destruct s as [| c s]; [simpl in Hn; lia |].
    simpl. rewrite IH; [reflexivity | simpl in Hn; lia].
Qed.

Lemma substring_prefix n (s : string) :
  String.prefix (String.substring 0 n s) s = true.
Proof.
  revert s. induction n as [| n IH]; intros s.
  - destruct s; reflexivity.
  - destruct s as [| c s]; [reflexivity |].
    simpl. destruct (Ascii.ascii_dec c c); [apply IH | congruence].
Qed.

(** The description enters the message unchanged when it has at most 300
    bytes; a longer one is replaced by exactly 300 bytes, its first 297
    followed by three dots.  The message is therefore at most 300 bytes of
    description and 132 bytes of fixed markup longer than what title, source
    name, date and URL take. *)
Theorem formatArticleMessage_bounds_description (formatTime : Time -> string) article :
  let d := Format.shortDescription (Description article) in
  (String.length d <= 300)%nat
  /\ ((String.length (Description article) <= 300)%nat -> d = Description article)
  /\ ((300 < String.length (Description article))%nat ->
      String.length d = 300%nat
      /\ exists cut, d = cut +:+ "..." /\ String.length cut = 297%nat
                     /\ String.prefix cut (Description article) = true)
  /\ (String.length (Format.formatArticleMessage formatTime article)
      <= String.length (Title article)
         + String.length (Format.sourceNameOf article)
         + String.length (formatTime (PublishedAt article))
         + String.length (URL article) + 300 + 132)%nat.
Proof.
  intros d.
  assert (Hd : (String.length d <= 300)%nat
               /\ ((String.length (Description article) <= 300)%nat ->
                   d = Description article)
               /\ ((300 < String.length (Description article))%nat ->
                   String.length d = 300%nat
                   /\ exists cut, d = cut +:+ "..." /\ String.length cut = 297%nat
                        /\ String.prefix cut (Description article) = true)).
  { subst d. unfold Format.shortDescription.
    destruct (Z.ltb_spec 300 (Z.of_nat (String.length (Description article)))) as [Hlong | Hshort].
    - assert (Hcut : String.length (String.substring 0 297 (Description article)) = 297%nat)
        by (apply substring_length; lia).
      rewrite string_length_app, Hcut. cbn [String.length].
      split; [lia |]. split; [lia |]. intros _. split; [reflexivity |].
      eexists. split; [reflexivity |]. split; [exact Hcut | apply substring_prefix].
    - split; [lia |]. split; [reflexivity | lia]. }
  destruct Hd as (Hlen & Hshort & Hlong).
  split; [exact Hlen |]. split; [exact Hshort |]. split; [exact Hlong |].
  unfold Format.formatArticleMessage. fold d.
  rewrite !string_length_app. cbn [String.length Format.newline]. lia.
Qed.

Lemma formatArticleMessage_bounds_description_witness :
  (String.length (Description (Scenario.mkArticle Scenario.someURL 0%Z)) <= 300)%nat
  /\ Format.shortDescription (Description (Scenario.mkArticle Scenario.someURL 0))
     = "description".
Proof.
  split; [vm_compute; lia |].
  apply (formatArticleMessage_bounds_description (fun _ => "01.01.2024 10:00")
           (Scenario.mkArticle Scenario.someURL 0)).
  vm_compute. lia.
Defined.

(** * Deduplication while the ledger is down *)

Lemma pretty_N_go_colonFree x :
  forall s, colonFree s -> colonFree (pretty_N_go x s).
Proof.
  induction (N.lt_wf_0 x) as [x _ IH]; intros s Hs.
  assert (x = 0 \/ 0 < x)%N as [-> | Hpos] by lia.
  - rewrite pretty_N_go_0. exact Hs.
  - rewrite pretty_N_go_step by exact Hpos. apply IH.
    + apply N.div_lt; [exact Hpos | reflexivity].
    + split; [| exact Hs]. unfold pretty_N_char.
      repeat case_match; intros Hc; vm_compute in Hc; discriminate Hc.
Qed.

Lemma pretty_N_colonFree (u : N) : colonFree (pretty u).
Proof.
  unfold pretty, pretty_N. destruct (decide (u = 0)%N).
  - split; [intros Hc; vm_compute in Hc; discriminate Hc | exact I].
  - apply pretty_N_go_colonFree. exact I.
Qed.

Lemma colonFree_split (d1 d2 a1 a2 : string) :
  colonFree d1 -> colonFree d2 ->
  d1 +:+ ":" +:+ a1 = d2 +:+ ":" +:+ a2 -> d1 = d2 /\ a1 = a2.
Proof.
  revert d2. induction d1 as [| c d1 IH]; intros [| c' d2] H1 H2 Heq; simpl in *.
  - injection Heq as Heq. auto.
  - injection Heq as Hc _. destruct H2 as [Hne _]. subst c'. exfalso. apply Hne. reflexivity.
  - injection Heq as Hc _. destruct H1 as [Hne _]. subst c. exfalso. apply Hne. reflexivity.
  - injection Heq as -> Heq. destruct H1 as [_ H1], H2 as [_ H2].
    destruct (IH d2 H1 H2 Heq) as [-> ->]. auto.
Qed.

(** The key of a segment determines the user and the URL. *)
Lemma topicKeyOf_inj u a v x :
  Scheduler.topicKeyOf u a = Scheduler.topicKeyOf v x -> u = v /\ a = x.
Proof.
  unfold Scheduler.topicKeyOf. intros Heq.
  apply colonFree_split in Heq as [Hu Ha]; try apply pretty_N_colonFree.
  split; [apply (inj pretty), Hu | exact Ha].
Qed.

Lemma recordInCache_other_key u a c k :
  k ≠ Scheduler.topicKeyOf u a -> Scheduler.recordInCache u a c !! k = c !! k.
Proof.
  intros Hk. unfold Scheduler.recordInCache.
  rewrite lookup_insert_ne by congruence.
  destruct (Z.of_nat _ >=? Scheduler.maxCacheSize);
    [rewrite lookup_insert_ne by congruence |];
    (destruct (c !! Scheduler.topicKeyOf u a);
       [| rewrite lookup_insert_ne by congruence]); reflexivity.
Qed.

(** Recording a pair flags that pair and changes the flag of no other
    pair, of any user. *)
Lemma recordInCache_exact u a c v x :
  flagged v x (Scheduler.recordInCache u a c) <-> flagged v x c \/ (v = u /\ x = a).
Proof.
  unfold flagged.
  destruct (decide (Scheduler.topicKeyOf v x = Scheduler.topicKeyOf u a)) as [Heq | Hne].
  - apply topicKeyOf_inj in Heq as [-> ->].
    split; [auto | intros _; apply recordInCache_flag].
  - unfold Scheduler.cacheFlag. rewrite (recordInCache_other_key u a c _ Hne).
    split; [auto |]. intros [H | [-> ->]]; [exact H | congruence].
Qed.

Section LedgerDown.
Variable env : Env.
Hypothesis ledger_down : forall n, ledgerFails env n = true.

Lemma isArticleSent_down u a w :
  (Scheduler.isArticleSent env u a w).1 = true <-> flagged u a (sentArticles w).
Proof.
  rewrite (isArticleSent_fallback env u a w (ledger_down _)). reflexivity.
Qed.

Lemma articlesLoop_degraded now u articles :
  forall fresh w, exists added,
    (Scheduler.articlesLoop env now u articles fresh w).1 = fresh ++ added
    /\ NoDup (map URL added)
    /\ (forall a, a ∈ added -> ~ flagged u (URL a) (sentArticles w))
    /\ (forall v x,
          flagged v x (sentArticles (Scheduler.articlesLoop env now u articles fresh w).2)
          <-> flagged v x (sentArticles w) \/ (v = u /\ x ∈ map URL added)).
Proof.
  induction articles as [| a rest IH]; intros fresh w; simpl.
  - exists []. rewrite app_nil_r. split; [reflexivity |]. split; [constructor |].
    split; [intros b Hb; inversion Hb |].
    intros v x. split; [auto | intros [H | [_ H]]; [exact H | inversion H]].
  - destruct (Scheduler.withinHorizon now a); [| apply IH].
    munfold.
    pose proof (isArticleSent_down u (URL a) w) as Hcheck.
    pose proof (isArticleSent_world env u (URL a) w) as Hw.
    destruct (Scheduler.isArticleSent env u (URL a) w) as [sent w1].
    cbn [fst snd] in *. subst w1. set (w1 := emit (EvLedgerRead u (URL a)) w).
    destruct sent; cbn [negb]; [apply (IH fresh w1) |].
    pose proof (markArticleAsSent_fallback env u (URL a) w1 (ledger_down _)) as Hmark.
    destruct (Scheduler.markArticleAsSent env u (URL a) w1) as [[] w2].
    cbn [fst snd] in *. subst w2.
    match goal with |- context [Scheduler.articlesLoop env now u rest _ ?w2] =>
      destruct (IH (fresh ++ [a]) w2) as (added & Heq & Hnd & Hnew & Hiff) end.
    cbn [sentArticles setCache emit] in Hnew, Hiff.
    exists (a :: added). rewrite Heq, <- app_assoc. split; [reflexivity |].
    split; [| split].
    + simpl. apply NoDup_cons. split; [| exact Hnd].
      intros Hin. apply elem_of_map in Hin as (b & Hurl & Hb).
      apply (Hnew b Hb). apply recordInCache_exact. right. auto.
    + intros b Hb Hflag. apply elem_of_cons in Hb as [-> | Hb].
      * apply Hcheck in Hflag. discriminate Hflag.
      * apply (Hnew b Hb). apply recordInCache_exact. left. exact Hflag.
    + intros v x. rewrite Hiff, recordInCache_exact. simpl. rewrite elem_of_cons. tauto.
Qed.

Lemma topicsLoop_degraded now u topics :
  forall fresh w, exists added,
    (Scheduler.topicsLoop env now u topics fresh w).1 = fresh ++ added
    /\ NoDup (map URL added)
    /\ (forall a, a ∈ added -> ~ flagged u (URL a) (sentArticles w))
    /\ (forall v x,
          flagged v x (sentArticles (Scheduler.topicsLoop env now u topics fresh w).2)
          <-> flagged v x (sentArticles w) \/ (v = u /\ x ∈ map URL added)).
Proof.
  induction topics as [| t rest IH]; intros fresh w; simpl.
  - exists []. rewrite app_nil_r. split; [reflexivity |]. split; [constructor |].
    split; [intros b Hb; inversion Hb |].
    intros v x. split; [auto | intros [H | [_ H]]; [exact H | inversion H]].
  - munfold. unfold Scheduler.FetchNews.
    set (w0 := emit (EvFetch t) w).
    destruct (fetchNews env (tick w) t) as [articles |]; [| apply (IH fresh w0)].
    destruct (articlesLoop_degraded now u articles fresh w0)
      as (added1 & Heq1 & Hnd1 & Hnew1 & Hiff1).
    destruct (Scheduler.articlesLoop env now u articles fresh w0) as [fresh1 w1].
    cbn [fst snd] in *. subst fresh1.
    destruct (IH (fresh ++ added1) w1) as (added2 & Heq2 & Hnd2 & Hnew2 & Hiff2).
    exists (added1 ++ added2). rewrite Heq2, <- app_assoc. split; [reflexivity |].
    change (sentArticles w0) with (sentArticles w) in *.
    split; [| split].
    + rewrite map_app. apply NoDup_app. split; [exact Hnd1 |]. split; [| exact Hnd2].
      intros x Hx1 Hx2. apply elem_of_map in Hx2 as (b & -> & Hb).
      apply (Hnew2 b Hb). apply Hiff1. right. auto.
    + intros b Hb Hflag. apply elem_of_app in Hb as [Hb | Hb].
      * exact (Hnew1 b Hb Hflag).
      * apply (Hnew2 b Hb). apply Hiff1. left. exact Hflag.
    + intros v x. rewrite Hiff2, Hiff1, map_app, elem_of_app. tauto.
Qed.

Lemma sendLoop_cache user l :
  forall w, sentArticles (Scheduler.sendLoop env user l w).2 = sentArticles w.
Proof.
  induction l as [| a rest IH]; intros w; simpl; [reflexivity |].
  munfold.
  unfold Scheduler.sendArticleWithFavoriteButton, Scheduler.IsFavoriteArticle,
    Scheduler.botSend. munfold.
  destruct (favoriteOf env (tick w) (ID user) (URL a)); simpl; rewrite IH; reflexivity.
Qed.

Lemma ProcessUser_degraded now user force w :
  exists added ds,
    sink (Scheduler.ProcessUser env now user force w).2 = sink w ++ ds
    /\ Forall (addressedTo user) ds
    /\ map dArticle ds ⊆ added
    /\ NoDup (map URL (map dArticle ds))
    /\ (forall a, a ∈ added -> ~ flagged (ID user) (URL a) (sentArticles w))
    /\ (forall v x,
          flagged v x (sentArticles (Scheduler.ProcessUser env now user force w).2)
          <-> flagged v x (sentArticles w) \/ (v = ID user /\ x ∈ map URL added)).
Proof.
  assert (Hnone : forall w1 : World, sentArticles w1 = sentArticles w -> sink w1 = sink w ->
            exists (added : list Article) (ds : list Delivery),
              sink w1 = sink w ++ ds /\ Forall (addressedTo user) ds
              /\ map dArticle ds ⊆ added /\ NoDup (map URL (map dArticle ds))
              /\ (forall a, a ∈ added -> ~ flagged (ID user) (URL a) (sentArticles w))
              /\ (forall v x, flagged v x (sentArticles w1)
                    <-> flagged v x (sentArticles w) \/ (v = ID user /\ x ∈ map URL added))).
  { intros w1 Hc Hs. exists [], []. rewrite app_nil_r, Hc.
    split; [exact Hs |]. split; [constructor |].
    split; [intros a Ha; inversion Ha |]. split; [constructor |].
    split; [intros a Ha; inversion Ha |].
    intros v x. split; [auto | intros [H | [_ H]]; [exact H | inversion H]]. }
  unfold Scheduler.ProcessUser.
  destruct (Scheduler.notDueYet now user force); [apply Hnone; reflexivity |].
  munfold. unfold Scheduler.GetUserSubscriptions.
  set (w0 := emit (EvSubscriptions (ID user)) w).
  destruct (subscriptionsOf env (tick w) (ID user)) as [[| t topics] |];
    try (apply Hnone; reflexivity).
  destruct (topicsLoop_degraded now (ID user) (t :: topics) [] w0)
    as (added & Heq & Hnd & Hnew & Hiff).
  pose proof (topicsLoop_sink env now (ID user) (t :: topics) [] w0) as Hsink.
  destruct (Scheduler.topicsLoop env now (ID user) (t :: topics) [] w0) as [fresh w1].
  cbn [fst snd] in *. subst fresh. change ([] ++ added) with added.
  change (sentArticles w0) with (sentArticles w) in *.
  change (sink w0) with (sink w) in *.
  assert (Hupd : forall w2, sink (Scheduler.UpdateUserLastNotifiedAt env (ID user) now w2).2
                            = sink w2
                            /\ sentArticles (Scheduler.UpdateUserLastNotifiedAt env (ID user)
                                               now w2).2 = sentArticles w2).
  { intros w2. unfold Scheduler.UpdateUserLastNotifiedAt.
    destruct (userRepoFails env (tick w2)); split; reflexivity. }
  destruct (Z.of_nat (length added) =? 0).
  - destruct (Hupd w1) as [Hs Hc].
    destruct (Scheduler.UpdateUserLastNotifiedAt env (ID user) now w1) as [e w3].
    cbn [fst snd] in *.
    exists added, []. rewrite app_nil_r, Hs, Hsink, Hc.
    split; [reflexivity |]. split; [constructor |].
    split; [intros a Ha; inversion Ha |]. split; [constructor |].
    split; [exact Hnew | exact Hiff].
  - destruct (sendLoop_sink env user (Scheduler.articlesToSendOf user added) w1)
      as (ds & Hs & Hm & Hf & _).
    pose proof (sendLoop_cache user (Scheduler.articlesToSendOf user added) w1) as Hc.
    destruct (Scheduler.sendLoop env user _ w1) as [[] w2].
    destruct (Hupd w2) as [Hs2 Hc2].
    destruct (Scheduler.UpdateUserLastNotifiedAt env (ID user) now w2) as [e w3].
    cbn [fst snd] in *.
    exists added, ds. rewrite Hs2, Hs, Hsink, Hc2, Hc, Hm.
    split; [reflexivity |]. split; [exact Hf |].
    split; [apply articlesToSendOf_subseteq |].
    split; [apply articlesToSendOf_NoDup, Hnd |].
    split; [exact Hnew | exact Hiff].
Qed.

Lemma sinkFlagged_empty w : sink w = [] -> sinkFlagged w.
Proof.
  intros Hs u. rewrite Hs. split; [constructor |]. intros x Hx. inversion Hx.
Qed.

Lemma ProcessUser_sinkFlagged now user force w :
  sinkFlagged w -> sinkFlagged (Scheduler.ProcessUser env now user force w).2.
Proof.
  intros Hinv u.
  destruct (ProcessUser_degraded now user force w)
    as (added & ds & Hs & Haddr & Hsub & Hnd & Hnew & Hiff).
  destruct (Hinv u) as [Hold Hrec].
  rewrite Hs, urlsFor_app, (urlsFor_addressed user ds Haddr u).
  destruct (decide (u = ID user)) as [-> | Hne].
  - split.
    + apply NoDup_app. split; [exact Hold |]. split; [| exact Hnd].
      intros x Hx Hx'. apply elem_of_map in Hx' as (a & -> & Ha).
      exact (Hnew a (Hsub a Ha) (Hrec _ Hx)).
    + intros x Hx. apply Hiff. apply elem_of_app in Hx as [Hx | Hx].
      * left. apply Hrec, Hx.
      * right. split; [reflexivity |].
        apply elem_of_map in Hx as (a & -> & Ha).
        apply elem_of_map. exists a. split; [reflexivity | exact (Hsub a Ha)].
  - rewrite app_nil_r. split; [exact Hold |].
    intros x Hx. apply Hiff. left. apply Hrec, Hx.
Qed.

Lemma runCalls_sinkFlagged calls :
  forall w, sinkFlagged w -> sinkFlagged (runCalls env calls w).2.
Proof.
  induction calls as [| c rest IH]; intros w Hinv; simpl; [exact Hinv |].
  pose proof (ProcessUser_sinkFlagged (cNow c) (cUser c) (cForce c) w Hinv) as H1.
  destruct (Scheduler.ProcessUser env (cNow c) (cUser c) (cForce c) w) as [n w1].
  specialize (IH w1 H1).
  destruct (runCalls env rest w1) as [ns w2]. exact IH.
Qed.

End LedgerDown.

(** While the ledger fails on every call, the fallback map alone keeps the
    passes from repeating themselves: whatever passes of [ProcessUser] run one
    after the other in the process, no URL is pushed twice for the same
    user, and every URL pushed is flagged in the map. *)
Theorem fallback_dedups_while_ledger_is_down env (calls : list Call) (w0 : World) (u : N) :
  (forall n, ledgerFails env n = true) ->
  sink w0 = [] ->
  NoDup (urlsFor u (sink (runCalls env calls w0).2))
  /\ forall x, x ∈ urlsFor u (sink (runCalls env calls w0).2) ->
               flagged u x (sentArticles (runCalls env calls w0).2).
Proof.
  intros Hdown Hempty.
  apply (runCalls_sinkFlagged env Hdown calls w0 (sinkFlagged_empty w0 Hempty) u).
Qed.

Lemma fallback_dedups_while_ledger_is_down_witness :
  (forall n, ledgerFails Cases.sameViaTwoTopicsLedgerDown n = true)
  /\ sink emptyWorld = []
  /\ NoDup (urlsFor 7 (sink (runCalls Cases.sameViaTwoTopicsLedgerDown Scenario.twoPasses
                               emptyWorld).2))
  /\ forall x, x ∈ urlsFor 7 (sink (runCalls Cases.sameViaTwoTopicsLedgerDown
                                      Scenario.twoPasses emptyWorld).2) ->
               flagged 7 x (sentArticles (runCalls Cases.sameViaTwoTopicsLedgerDown
                                            Scenario.twoPasses emptyWorld).2).
Proof.
  split; [intros n; reflexivity |]. split; [reflexivity |].
  apply (fallback_dedups_while_ledger_is_down Cases.sameViaTwoTopicsLedgerDown
           Scenario.twoPasses emptyWorld 7 (fun n => eq_refl) eq_refl).
Defined.

(** The same article returned for both topics with the ledger down, two
    passes: the first identifies the article once, the second not at all,
    the article is pushed once and the ledger stays empty. *)
Example two_topics_two_passes_ledger_down :
  (runCalls Cases.sameViaTwoTopicsLedgerDown Scenario.twoPasses emptyWorld).1 = [1; 0]
  /\ urlsFor 7 (sink (runCalls Cases.sameViaTwoTopicsLedgerDown Scenario.twoPasses
                        emptyWorld).2) = [Scenario.someURL]
  /\ ledger (runCalls Cases.sameViaTwoTopicsLedgerDown Scenario.twoPasses emptyWorld).2 = [].
Proof. vm_compute. repeat split; reflexivity. Qed.
